(** * swallow: parameter validation, output grouping and plot orchestration

    A shallow embedding of the two WPS processes of the repository,
    [RunNAME] (swallow/processes/wps_run_name.py) and [PlotNAME]
    (swallow/processes/wps_plot_name.py), with the properties their
    specification states about them.

    Conventions of the embedding.
    - A Python [str] is a [string] (code points below 256).
    - A Python [int] is a [Z].
    - A Python [float] is a [spec_float] read at precision 53 and maximal
      exponent 1024 (IEEE 754 binary64).
    - A [datetime] is the number of microseconds since [datetime.min].
    - A function that can raise returns a [result]; the handler of the plot
      process, which also updates the response and the file system, lives in
      the state-and-exception monad [M]. *)

From Stdlib Require Import ZArith Lia Bool List String Ascii.
From Stdlib Require Import Floats.SpecFloat.
From stdpp Require Import gmap strings list sorting.

Local Open Scope string_scope.
Local Open Scope Z_scope.

(** ** Exceptions and results *)

(** The double-quote character, which occurs in two messages. *)
Definition dquote : string :=
  String (Ascii false true false false false true false false) EmptyString.

(** The texts the processes pass to [InvalidParameterValue], one constructor
    per [raise] in the source; [v] is the offending input. *)
Inductive message :=
| MsgNoDash (v : string)
| MsgNotTwoNumbers (v : string)
| MsgMinNotLess (v : string)
| MsgNotAboveZero (v : string)
| MsgMinLon
| MsgMaxLon
| MsgMinLat
| MsgMaxLat
| MsgEndEarlier
| MsgThreeMonths
| MsgTwentyDays
| MsgNoOutputFiles.

Definition render (m : message) : string :=
  match m with
  | MsgNoDash v =>
      "The value " +:+ dquote +:+ v +:+ dquote +:+ " does not contain a "
      +:+ dquote +:+ "-" +:+ dquote
      +:+ " character to define a range, e.g. 0-100"
  | MsgNotTwoNumbers v =>
      "The value " +:+ v +:+ " is incorrect: cannot find two numbers"
  | MsgMinNotLess v =>
      "The value " +:+ v +:+ " is incorrect: minimum is not less than maximum"
  | MsgNotAboveZero v =>
      "The value " +:+ v +:+ " is incorrect: Entire range must be above 0"
  | MsgMinLon => "Bounding box minimum longitude input cannot be below -180"
  | MsgMaxLon => "Bounding box maximum longitude input cannot be above 180"
  | MsgMinLat => "Bounding box minimum latitude input cannot be below -90"
  | MsgMaxLat => "Bounding box minimum latitude input cannot be above 90"
  | MsgEndEarlier => "The end date is earlier than the start date!"
  | MsgThreeMonths => "Can only run across a maximum of three months in one go"
  | MsgTwentyDays =>
      "Can only run NAME over a maximum of 20 days forwards/backwards"
  | MsgNoOutputFiles =>
      "Unable to find any output files. File names must be named "
      +:+ dquote +:+ "*_group*.txt" +:+ dquote
  end.

(** The exceptions that leave the modelled code.  [InvalidParameterValue] is
    the error the framework reports to the client (the specification calls it
    InvalidInput); the others are uncaught Python exceptions. *)
Inductive exn :=
| InvalidParameterValue (m : message)
| ValueError (msg : string)
| IndexError (msg : string)
| ZeroDivisionError
| OverflowError (msg : string)
| FileNotFoundError (msg : string)
| Exception (msg : string).

Inductive result (A : Type) :=
| Ok (a : A)
| Raise (e : exn).

Arguments Ok {A} a.
Arguments Raise {A} e.

Definition rbind {A B} (r : result A) (k : A -> result B) : result B :=
  match r with
  | Ok a => k a
  | Raise e => Raise e
  end.

Notation "'let*' x ':=' r 'in' k" := (rbind r (fun x => k))
  (at level 10, x pattern, r at level 100, k at level 200).

Definition is_invalid_input {A} (r : result A) : Prop :=
  exists m, r = Raise (InvalidParameterValue m).

(** ** Strings *)

Module Str.

Definition code (c : ascii) : Z := Z.of_nat (nat_of_ascii c).

(** [c in s] for a one-character [c]. *)
Fixpoint mem (c : ascii) (s : string) : bool :=
  match s with
  | EmptyString => false
  | String a s' => Ascii.eqb a c || mem c s'
  end.

Fixpoint count (c : ascii) (s : string) : nat :=
  match s with
  | EmptyString => O
  | String a s' => if Ascii.eqb a c then S (count c s') else count c s'
  end.

(** [s.split(c)] for a one-character separator [c]: the pieces between
    the occurrences of [c], so one more piece than there are occurrences. *)
Fixpoint split (c : ascii) (s : string) : list string :=
  match s with
  | EmptyString => [EmptyString]
  | String a s' =>
      if Ascii.eqb a c then EmptyString :: split c s'
      else match split c s' with
           | p :: ps => String a p :: ps
           | [] => [String a EmptyString]
           end
  end.

(** [s[i]], for [i >= 0]. *)
Fixpoint index (s : string) (i : nat) : option ascii :=
  match s, i with
  | EmptyString, _ => None
  | String a _, O => Some a
  | String _ s', S i' => index s' i'
  end.

Fixpoint startswith (p s : string) : bool :=
  match p, s with
  | EmptyString, _ => true
  | String a p', String b s' => Ascii.eqb a b && startswith p' s'
  | String _ _, EmptyString => false
  end.

(** [p in s] for a string [p]. *)
Fixpoint contains (p s : string) : bool :=
  startswith p s ||
  match s with
  | EmptyString => false
  | String _ s' => contains p s'
  end.

(** [s.endswith(p)]. *)
Fixpoint endswith (p s : string) : bool :=
  String.eqb p s ||
  match s with
  | EmptyString => false
  | String _ s' => endswith p s'
  end.

(** The characters [str.isspace] accepts among the code points below 256;
    [int] skips them on both sides of the number. *)
Definition is_space (c : ascii) : bool :=
  let n := code c in
  ((9 <=? n) && (n <=? 13)) || ((28 <=? n) && (n <=? 32))
  || (n =? 133) || (n =? 160).

Definition digit_val (c : ascii) : option Z :=
  let n := code c in
  if (48 <=? n) && (n <=? 57) then Some (n - 48) else None.

Fixpoint lstrip (s : string) : string :=
  match s with
  | EmptyString => EmptyString
  | String a s' => if is_space a then lstrip s' else s
  end.

Fixpoint all_space (s : string) : bool :=
  match s with
  | EmptyString => true
  | String a s' => is_space a && all_space s'
  end.

(** The digits after the first one: a digit, or one underscore followed by
    a digit.  Returns the value read and what is left of the string. *)
Fixpoint digits_tail (acc : Z) (s : string) : option (Z * string) :=
  match s with
  | EmptyString => Some (acc, EmptyString)
  | String a s' =>
      match digit_val a with
      | Some d => digits_tail (10 * acc + d) s'
      | None =>
          if Ascii.eqb a "_" then
            match s' with
            | String b s'' =>
                match digit_val b with
                | Some d => digits_tail (10 * acc + d) s''
                | None => None
                end
            | EmptyString => None
            end
          else Some (acc, s)
      end
  end.

(** [int(s)] in base 10: optional white space, an optional sign, digits
    with single underscores between them, optional white space.  [None]
    stands for the [ValueError] of a string that is not a number. *)
Definition py_int (s : string) : option Z :=
  let s1 := lstrip s in
  let '(neg, s2) :=
    match s1 with
    | String a r =>
        if Ascii.eqb a "-" then (true, r)
        else if Ascii.eqb a "+" then (false, r)
        else (false, s1)
    | EmptyString => (false, s1)
    end in
  match s2 with
  | String a r =>
      match digit_val a with
      | Some d =>
          match digits_tail d r with
          | Some (v, rest) =>
              if all_space rest then Some (if neg then - v else v) else None
          | None => None
          end
      | None => None
      end
  | EmptyString => None
  end.



End Str.

(** ** RunNAME.translate_elevation *)

(** [mini, maxi = parts]: unpacking a list into two names. *)
Definition unpack2 {A} (parts : list A) : result (A * A) :=
  match parts with
  | [a; b] => Ok (a, b)
  | _ :: _ :: _ :: _ => Raise (ValueError "too many values to unpack (expected 2)")
  | _ => Raise (ValueError "not enough values to unpack (expected 2)")
  end.

Definition translate_elevation (elevation_range : string) : result (Z * Z) :=
  if negb (Str.mem "-" elevation_range) then
    Raise (InvalidParameterValue (MsgNoDash elevation_range))
  else
    let* (mini, maxi) := unpack2 (Str.split "-" elevation_range) in
    match
      match Str.py_int mini with
      | Some mini' =>
          match Str.py_int maxi with
          | Some maxi' => Some (mini', maxi')
          | None => None
          end
      | None => None
      end
    with
    | None => Raise (InvalidParameterValue (MsgNotTwoNumbers elevation_range))
    | Some (mini, maxi) =>
        if mini >=? maxi then
          Raise (InvalidParameterValue (MsgMinNotLess elevation_range))
        else if (mini <? 0) || (maxi <? 0) then
          Raise (InvalidParameterValue (MsgNotAboveZero elevation_range))
        else Ok (mini, maxi)
    end.

(** ** Dates and times *)

(** A [datetime] is the number of microseconds since [datetime.min]
    (0001-01-01T00:00:00), a [timedelta] a number of microseconds.  Both
    inputs of a comparison or a difference are taken in the same time zone. *)
Module Datetime.

Definition datetime := Z.
Definition timedelta := Z.

(** [timedelta(days=n)]. *)
Definition days (n : Z) : timedelta := n * 86400000000.

(** [datetime.max], 9999-12-31T23:59:59.999999. *)
Definition max : datetime := 3652059 * 86400000000 - 1.

Definition valid (t : datetime) : Prop := 0 <= t <= max.

(** [t + d]; a sum outside the range of [datetime] raises. *)
Definition add (t : datetime) (d : timedelta) : result datetime :=
  if (0 <=? t + d) && (t + d <=? max) then Ok (t + d)
  else Raise (OverflowError "date value out of range").

(** [t - u]. *)
Definition sub (t u : datetime) : timedelta := t - u.

End Datetime.

(** ** Floating-point numbers: constants and comparisons *)

Module Float.

(** [x < y], [x > y] and [x == y] on floats; all three are false when an
    operand is not a number. *)
Definition ltb (x y : spec_float) : bool := SFltb x y.
Definition gtb (x y : spec_float) : bool := SFltb y x.
Definition eqb (x y : spec_float) : bool := SFeqb x y.
Definition leb (x y : spec_float) : bool := SFleb x y.

(** The numbers the bounding-box code names. *)
Definition m180 : spec_float := S754_finite true 6333186975989760 (-45).
Definition p180 : spec_float := S754_finite false 6333186975989760 (-45).
Definition m90 : spec_float := S754_finite true 6333186975989760 (-46).
Definition p90 : spec_float := S754_finite false 6333186975989760 (-46).
(** -179.875 *)
Definition m179_875 : spec_float := S754_finite true 6328788929478656 (-45).
(** 179.9, that is the double nearest to it *)
Definition p179_9 : spec_float := S754_finite false 6329668538780877 (-45).

(** *** Arithmetic

    An operation of binary64 returns the exact result rounded to the nearest
    representable number, ties to the even mantissa.  [round s a b] is that
    rounding of the positive rational [a / b], with sign [s]. *)

Definition prec : Z := 53.
Definition emax : Z := 1024.
Definition emin : Z := -1074.

(** [a / b] divided by [2 ^ e] is [num a e / den b e]. *)
Definition num (a e : Z) : Z := a * 2 ^ Z.max 0 (- e).
Definition den (b e : Z) : Z := b * 2 ^ Z.max 0 e.

(** The magnitude [d] of [a / b]: [2 ^ (d - 1) <= a / b < 2 ^ d]. *)
Definition mag (a b : Z) : Z :=
  let t := Z.log2 a - Z.log2 b in
  if den b t <=? num a t then t + 1 else t.

(** The integer nearest to [n / d], the even one of two that are as near. *)
Definition rne (n d : Z) : Z :=
  let q := n / d in
  match 2 * (n mod d) ?= d with
  | Lt => q
  | Gt => q + 1
  | Eq => if Z.even q then q else q + 1
  end.

(** The exponent of the last place for a number of magnitude [d]. *)
Definition fexp (d : Z) : Z := Z.max (d - prec) emin.

(** Mantissa and exponent of the rounding; a mantissa that reaches
    [2 ^ prec] moves to the next exponent. *)
Definition round_me (a b : Z) : Z * Z :=
  let e := fexp (mag a b) in
  let m := rne (num a e) (den b e) in
  if m =? 2 ^ prec then (2 ^ (prec - 1), e + 1) else (m, e).

Definition round (s : bool) (a b : positive) : spec_float :=
  let '(m, e) := round_me (Zpos a) (Zpos b) in
  match m with
  | Zpos p => if emax - prec <? e then S754_infinity s else S754_finite s p e
  | _ => S754_zero s
  end.

(** The mantissa of the rounding before a carry is moved. *)
Definition raw (a b : Z) : Z :=
  rne (num a (fexp (mag a b))) (den b (fexp (mag a b))).

(** The value [m * 2 ^ e] counted in units of [2 ^ emin], the smallest
    positive float; on the floats that are not negative, [ulps] is the
    order of their values. *)
Definition units (m e : Z) : Z := m * 2 ^ (e - emin).

Definition ulps (x : spec_float) : Z :=
  match x with
  | S754_zero _ => 0
  | S754_finite s m e => if s then - units (Zpos m) e else units (Zpos m) e
  | S754_infinity s => if s then - 2 ^ (emax - emin) else 2 ^ (emax - emin)
  | S754_nan => 0
  end.

(** The float nearest to an integer. *)
Definition of_Z (z : Z) : spec_float :=
  match z with
  | Z0 => S754_zero false
  | Zpos p => round false p 1
  | Zneg p => round true p 1
  end.

(** [x / y] and [x * y] of IEEE 754; the cases with a zero, an infinity or a
    NaN are those of the standard library's table. *)
Definition div (x y : spec_float) : spec_float :=
  match x, y with
  | S754_finite sx mx ex, S754_finite sy my ey =>
      round (xorb sx sy)
            (Z.to_pos (num (Zpos mx) (ey - ex)))
            (Z.to_pos (num (Zpos my) (ex - ey)))
  | _, _ => SFdiv prec emax x y
  end.

Definition mul (x y : spec_float) : spec_float :=
  match x, y with
  | S754_finite sx mx ex, S754_finite sy my ey =>
      round (xorb sx sy)
            (Z.to_pos (num (Zpos (mx * my)) (- (ex + ey))))
            (Z.to_pos (den 1 (- (ex + ey))))
  | _, _ => SFmul prec emax x y
  end.

Definition is_zero (x : spec_float) : bool :=
  match x with S754_zero _ => true | _ => false end.

(** *** Vocabulary for the facts about rounding *)

(** The units of the infinite float. *)
Definition top : Z := 2 ^ (emax - emin).

(** The units of the float 1. *)
Definition unit1 : Z := 2 ^ (- emin).

(** A float that is not negative, with an exponent the format has. *)
Definition nonneg (x : spec_float) : Prop :=
  match x with
  | S754_zero s => s = false
  | S754_finite s _ e => s = false /\ emin <= e
  | S754_infinity s => s = false
  | S754_nan => False
  end.

(** A positive finite float with an exponent of the format. *)
Definition positive_finite (x : spec_float) : Prop :=
  exists m e, x = S754_finite false m e /\ emin <= e.

(** A bound on the counts of files and plots, far above any number of
    files and far enough below the largest float for 85 times a count to
    be finite. *)
Definition limit : Z := 2 ^ 1000.

(** [(k / n) * 85] in floating point. *)
Definition scaled (k n : Z) : spec_float :=
  mul (div (of_Z k) (of_Z n)) (of_Z 85).

(** *** The operations as Python has them *)

(** [float(z)], and the conversion of an [int] operand of [/] or [*]. *)
Definition float_of_int (z : Z) : result spec_float :=
  match of_Z z with
  | S754_infinity _ => Raise (OverflowError "int too large to convert to float")
  | f => Ok f
  end.

(** [x / y] on floats. *)
Definition truediv (x y : spec_float) : result spec_float :=
  if is_zero y then Raise ZeroDivisionError else Ok (div x y).

(** [int(x)]: the integer part, rounded towards zero. *)
Definition int (x : spec_float) : result Z :=
  match x with
  | S754_zero _ => Ok 0
  | S754_finite s m e =>
      let a := if 0 <=? e then Zpos m * 2 ^ e else Zpos m / 2 ^ (- e) in
      Ok (if s then - a else a)
  | S754_infinity _ =>
      Raise (OverflowError "cannot convert float infinity to integer")
  | S754_nan => Raise (ValueError "cannot convert float NaN to integer")
  end.


End Float.

(** ** The run process: RunNAME._handler *)

Module RunNAME.
Import Datetime.

(** [request.inputs]: the data of each input.  The two optional inputs
    without a default may be absent. *)
Record request := {
  title : string;
  longitude : spec_float;
  latitude : spec_float;
  elevation : Z;
  runBackwards : bool;
  time : Z;
  timeFmt : string;
  min_lon : spec_float;
  max_lon : spec_float;
  min_lat : spec_float;
  max_lat : spec_float;
  elevationOut : list string;
  resolution : spec_float;
  timestamp : string;
  dailytime : option Z;
  dailyreleaselen : option Z;
  startdate : datetime;
  enddate : datetime
}.

(** [params]: every input as given, except that [elevationOut] holds the
    translated ranges, plus the entry [domain]. *)
Record params := {
  inputs : request;
  ranges : list (Z * Z);
  domain : list spec_float
}.

(** The loop over [request.inputs['elevationOut']]. *)
Fixpoint translate_ranges (l : list string) : result (list (Z * Z)) :=
  match l with
  | [] => Ok []
  | elevation_range :: l' =>
      let* r := translate_elevation elevation_range in
      let* rs := translate_ranges l' in
      Ok (r :: rs)
  end.

(** "Throw manually with temporary bbox solution". *)
Definition check_bbox (request : request) : result unit :=
  if Float.ltb (min_lon request) Float.m180 then
    Raise (InvalidParameterValue MsgMinLon)
  else if Float.gtb (max_lon request) Float.p180 then
    Raise (InvalidParameterValue MsgMaxLon)
  else if Float.ltb (min_lat request) Float.m90 then
    Raise (InvalidParameterValue MsgMinLat)
  else if Float.gtb (max_lat request) Float.p90 then
    Raise (InvalidParameterValue MsgMaxLat)
  else Ok tt.

(** [domains]: the four bounds in the order min_lat, min_lon, max_lat,
    max_lon, with the full span of longitudes reset. *)
Definition make_domains (request : request) : list spec_float :=
  let domains := [min_lat request; min_lon request;
                  max_lat request; max_lon request] in
  match domains !! 1%nat, domains !! 3%nat with
  | Some d1, Some d3 =>
      if Float.eqb d1 Float.m180 && Float.eqb d3 Float.p180 then
        <[3%nat := Float.p179_9]> (<[1%nat := Float.m179_875]> domains)
      else domains
  | _, _ => domains
  end.

(** "Need to test start and end dates make sense relative to each other". *)
Definition check_dates (startdate enddate : datetime) : result unit :=
  let* end1 := add enddate (days 1) in
  if startdate >=? end1 then Raise (InvalidParameterValue MsgEndEarlier)
  else
    let* end1 := add enddate (days 1) in
    if sub end1 startdate >=? days 93 then
      Raise (InvalidParameterValue MsgThreeMonths)
    else Ok tt.

(** "Need to test we don't run too far backwards/forwards". *)
Definition check_time (timeFmt : string) (time : Z) : result unit :=
  if String.eqb timeFmt "days" then
    if time >? 20 then Raise (InvalidParameterValue MsgTwentyDays) else Ok tt
  else
    if time >? 20 * 24 then Raise (InvalidParameterValue MsgTwentyDays)
    else Ok tt.

(** The handler up to the status update 'Processed parameters'. *)
Definition validate (request : request) : result params :=
  let* ranges := translate_ranges (elevationOut request) in
  let* _ := check_bbox request in
  let domains := make_domains request in
  let params := {| inputs := request; ranges := ranges; domain := domains |} in
  let* _ := check_dates (startdate request) (enddate request) in
  let* _ := check_time (timeFmt request) (time request) in
  Ok params.

Record response := {
  status : list (string * Z);
  FileContents : string;
  runid : string;
  SummaryPlot : string
}.

(** The handler; [run_name] is the launcher of swallow.run_name, which
    returns the output directory, the name of the archive and the summary
    plot. *)
Definition _handler
    (run_name : params -> result (string * string * string))
    (request : request) : result response :=
  let* params := validate request in
  let* (outdir, zippedfile, mapfile) := run_name params in
  Ok {| status := [("Processed parameters", 5); ("done", 100)];
        FileContents := zippedfile +:+ ".zip";
        runid := outdir;
        SummaryPlot := mapfile |}.

End RunNAME.

(** Sample requests of the run process.  2021-01-01T00:00:00 is day 737790
    after [datetime.min]. *)
Module RunSamples.
Import RunNAME.

Definition jan1_2021 : Datetime.datetime := 737790 * 86400000000.
Definition hour : Datetime.timedelta := 3600000000.

(** Defaults of the process, the whole of January 2021. *)
Definition january : request := {|
  title := "January";
  longitude := S754_zero false;
  latitude := S754_finite false 7256424899600712 (-47);
  elevation := 10;
  runBackwards := true;
  time := 1;
  timeFmt := "days";
  min_lon := Float.m180;
  max_lon := Float.p180;
  min_lat := Float.m90;
  max_lat := Float.p90;
  elevationOut := ["0-100"];
  resolution := S754_finite false 4503599627370496 (-54);
  timestamp := "3-hourly";
  dailytime := None;
  dailyreleaselen := None;
  startdate := jan1_2021;
  enddate := jan1_2021 + Datetime.days 30
|}.

(** The end date is one hour before the start date. *)
Definition end_before_start : request := {|
  title := "Backwards";
  longitude := S754_zero false;
  latitude := S754_finite false 7256424899600712 (-47);
  elevation := 10;
  runBackwards := true;
  time := 1;
  timeFmt := "days";
  min_lon := Float.m180;
  max_lon := Float.p180;
  min_lat := Float.m90;
  max_lat := Float.p90;
  elevationOut := ["0-100"];
  resolution := S754_finite false 4503599627370496 (-54);
  timestamp := "3-hourly";
  dailytime := None;
  dailyreleaselen := None;
  startdate := jan1_2021 + hour;
  enddate := jan1_2021
|}.

(** The box is upside down: min_lon = 90 > max_lon = -90, and the same on
    the other axis. *)
Definition inverted_box : request := {|
  title := "Inverted";
  longitude := S754_zero false;
  latitude := S754_finite false 7256424899600712 (-47);
  elevation := 10;
  runBackwards := true;
  time := 1;
  timeFmt := "days";
  min_lon := Float.p90;
  max_lon := Float.m90;
  min_lat := Float.p90;
  max_lat := Float.m90;
  elevationOut := ["0-100"];
  resolution := S754_finite false 4503599627370496 (-54);
  timestamp := "3-hourly";
  dailytime := None;
  dailyreleaselen := None;
  startdate := jan1_2021;
  enddate := jan1_2021 + Datetime.days 30
|}.

End RunSamples.

(** ** The plot process: PlotNAME._handler *)

Module PlotNAME.

(** [request.inputs]; the inputs with [min_occurs=0] and no default may be
    absent.  [timestamp] is held as the text the handler makes of it with
    [strftime], the form in which it is looked up in a file's columns. *)
Record request := {
  filelocation : string;
  summarise : string;
  timestamp : option string;
  station : option bool;
  projection : option string;
  min_lon : spec_float;
  max_lon : spec_float;
  min_lat : spec_float;
  max_lat : spec_float;
  scale : option string;
  colormap : string
}.

(** One call of [drawMap]: the staging directory of the group and the time
    bucket drawn. *)
Inductive job :=
| JWeek (tmpdir : nat) (week : Z)
| JMonth (tmpdir : nat) (month : Z)
| JAll (tmpdir : nat)
| JDay (tmpdir : nat) (filename : string)
| JTimestamp (tmpdir : nat) (filename : string) (timestamp : string)
| JColumn (tmpdir : nat) (filename : string) (column : string).

(** What the handler writes to the log after a call of [drawMap]:
    [LOGGER.debug('Plotted ...')] or [LOGGER.error('Failed to plot ...')]. *)
Inductive log_record :=
| Plotted (j : job)
| Failed (j : job).

(** What the handler does not own: the run directory, the plotting library
    and [swallow.utils.get_num_dates].  Of the calls into the library only
    [drawMap] stands inside [try]; the others are taken to return. *)
Record world := {
  (** [os.listdir(os.path.join(rundir, 'outputs'))] *)
  outputs : list string;
  (** [get_num_dates(start, end, sum, type)] *)
  num_dates : Z;
  (** [s.files] after [s.sumWeek(week)], for [s = Sum(tmpdir)] made when the
      directory held the given files *)
  sumWeek : list string -> Z -> list string;
  (** [s.files] after [s.sumMonth(str(month))] *)
  sumMonth : list string -> Z -> list string;
  (** [Name(os.path.join(tmpdir, filename)).timestamps] *)
  timestamps : string -> list string;
  (** whether a call of [drawMap] returns ([true]) or raises ([false]) *)
  drawMap : job -> bool;
  (** [plotoptions['outdir']] *)
  outdir : string;
  (** the entries of that directory once the plots are drawn, if it exists *)
  outdir_entries : option (list string)
}.

Inductive format := FORMATS_TEXT | FORMAT_image_png | FORMATS_SHP.

(** [response.outputs['FileContents']] *)
Record output := {
  data_format : option format;
  data : option string;
  file : option string
}.

(** The state the handler works on: the status updates sent, the log, its
    three counters, the temporary directories with their entries and the
    archives written by [shutil.make_archive]. *)
Record state := {
  status : list (string * Z);
  log : list log_record;
  tot_plots : Z;
  plots_made : Z;
  oldper : Z;
  tmpfs : gmap nat (list string);
  archives : list (string * list string)
}.

Definition initial (fs : gmap nat (list string)) : state :=
  {| status := []; log := []; tot_plots := 0; plots_made := 0; oldper := 0;
     tmpfs := fs; archives := [] |}.

Definition with_status (f : list (string * Z) -> list (string * Z)) (st : state) :=
  {| status := f (status st); log := log st; tot_plots := tot_plots st;
     plots_made := plots_made st; oldper := oldper st; tmpfs := tmpfs st;
     archives := archives st |}.
Definition with_log (f : list log_record -> list log_record) (st : state) :=
  {| status := status st; log := f (log st); tot_plots := tot_plots st;
     plots_made := plots_made st; oldper := oldper st; tmpfs := tmpfs st;
     archives := archives st |}.
Definition with_tot_plots (v : Z) (st : state) :=
  {| status := status st; log := log st; tot_plots := v;
     plots_made := plots_made st; oldper := oldper st; tmpfs := tmpfs st;
     archives := archives st |}.
Definition with_plots_made (v : Z) (st : state) :=
  {| status := status st; log := log st; tot_plots := tot_plots st;
     plots_made := v; oldper := oldper st; tmpfs := tmpfs st;
     archives := archives st |}.
Definition with_oldper (v : Z) (st : state) :=
  {| status := status st; log := log st; tot_plots := tot_plots st;
     plots_made := plots_made st; oldper := v; tmpfs := tmpfs st;
     archives := archives st |}.
Definition with_tmpfs (f : gmap nat (list string) -> gmap nat (list string))
    (st : state) :=
  {| status := status st; log := log st; tot_plots := tot_plots st;
     plots_made := plots_made st; oldper := oldper st; tmpfs := f (tmpfs st);
     archives := archives st |}.
Definition with_archives (f : list (string * list string) -> list (string * list string))
    (st : state) :=
  {| status := status st; log := log st; tot_plots := tot_plots st;
     plots_made := plots_made st; oldper := oldper st; tmpfs := tmpfs st;
     archives := f (archives st) |}.

(** A computation of the handler: it ends with a value or an exception, and
    what it did to the state stays done in both cases. *)
Definition M (A : Type) : Type := state -> result A * state.

Definition ret {A} (a : A) : M A := fun st => (Ok a, st).
Definition raise {A} (e : exn) : M A := fun st => (Raise e, st).
Definition bind {A B} (m : M A) (k : A -> M B) : M B :=
  fun st => match m st with
            | (Ok a, st') => k a st'
            | (Raise e, st') => (Raise e, st')
            end.
Definition lift {A} (r : result A) : M A := fun st => (r, st).
Definition get {A} (f : state -> A) : M A := fun st => (Ok (f st), st).
Definition modify (f : state -> state) : M unit := fun st => (Ok tt, f st).

Notation "'do' x <- m ; k" := (bind m (fun x => k))
  (at level 10, x pattern, m at level 100, k at level 200,
   format "'[v' 'do'  x  <-  m ; '/' k ']'").
Notation "m ;; k" := (bind m (fun _ => k))
  (at level 100, k at level 200, right associativity).

Fixpoint for_each {A} (l : list A) (body : A -> M unit) : M unit :=
  match l with
  | [] => ret tt
  | x :: l' => body x ;; for_each l' body
  end.

(** *** What the handler calls *)

Definition update_status (message : string) (percent : Z) : M unit :=
  modify (with_status (fun s => (s ++ [(message, percent)])%list)).

Definition logger (r : log_record) : M unit :=
  modify (with_log (fun l => (l ++ [r])%list)).

(** [tempfile.mkdtemp()]: a new, empty directory. *)
Definition mkdtemp : M nat :=
  do d <- get (fun st => fresh (dom (tmpfs st)));
  modify (with_tmpfs (insert d [])) ;;
  ret d.

(** [shutil.copy(src, dst)] into the directory [dst]: the copy has the name
    of the source, and replaces an entry of that name. *)
Definition add_entry (filename : string) (entries : list string) : list string :=
  if bool_decide (filename ∈ entries) then entries
  else (entries ++ [filename])%list.

Definition copy (filename : string) (dst : nat) : M unit :=
  do fs <- get tmpfs;
  match fs !! dst with
  | Some entries => modify (with_tmpfs (insert dst (add_entry filename entries)))
  | None => raise (FileNotFoundError "No such file or directory")
  end.

(** [os.listdir(tmpdir)] *)
Definition listdir (tmpdir : nat) : M (list string) :=
  do fs <- get tmpfs;
  match fs !! tmpdir with
  | Some entries => ret entries
  | None => raise (FileNotFoundError "No such file or directory")
  end.

(** [shutil.rmtree(tmpdir)] *)
Definition rmtree (tmpdir : nat) : M unit :=
  do fs <- get tmpfs;
  match fs !! tmpdir with
  | Some _ => modify (with_tmpfs (delete tmpdir))
  | None => raise (FileNotFoundError "No such file or directory")
  end.

(** *** Validation *)

(** "Throw manually with temporary bbox solution". *)
Definition check_bbox (request : request) : result unit :=
  if Float.ltb (min_lon request) Float.m180 then
    Raise (InvalidParameterValue MsgMinLon)
  else if Float.gtb (max_lon request) Float.p180 then
    Raise (InvalidParameterValue MsgMaxLon)
  else if Float.ltb (min_lat request) Float.m90 then
    Raise (InvalidParameterValue MsgMinLat)
  else if Float.gtb (max_lat request) Float.p90 then
    Raise (InvalidParameterValue MsgMaxLat)
  else Ok tt.

(** Whether [s] is [x + '_group' + y + '.txt'] for some [x] and [y]. *)
Fixpoint fnmatch_group_txt (s : string) : bool :=
  match s with
  | EmptyString => false
  | String _ s' =>
      (Str.startswith "_group" s
       && Str.endswith ".txt" (String.substring 6 (String.length s - 6) s))
      || fnmatch_group_txt s'
  end.

(** [glob.glob(os.path.join(rundir, 'outputs', '*_group*.txt'))]; a leading
    dot is not matched by the star. *)
Definition glob_group_txt (entries : list string) : list string :=
  List.filter (fun name => negb (Str.startswith "." name) && fnmatch_group_txt name)
              entries.

(** *** The grouper *)

(** [groupnum = filename[14]] and [int(groupnum)] inside [try]: the group
    of an output file. *)
Definition group_number (filename : string) : result Z :=
  match Str.index filename 14 with
  | None => Raise (IndexError "string index out of range")
  | Some groupnum =>
      match Str.py_int (String groupnum EmptyString) with
      | None =>
          Raise (Exception ("Cannot identify groupnumber "
                            +:+ String groupnum EmptyString))
      | Some groupnum => Ok groupnum
      end
  end.

(** The loop "We need to find all the groups and loop through them one at a
    time!" over the entries of the outputs directory. *)
Fixpoint group_files (entries : list string) (groups : gmap Z nat)
  : M (gmap Z nat) :=
  match entries with
  | [] => ret groups
  | filename :: entries' =>
      if negb (Str.endswith "txt" filename) then group_files entries' groups
      else
        do groupnum <- lift (group_number filename);
        match groups !! groupnum with
        | Some tmpdir =>
            copy filename tmpdir ;;
            group_files entries' groups
        | None =>
            do tmpdir <- mkdtemp;
            copy filename tmpdir ;;
            group_files entries' (<[groupnum := tmpdir]> groups)
        end
  end.

(** [sorted(groups.items())]: by group number, which no two items share. *)
Definition item_le (x y : Z * nat) : Prop := x.1 <= y.1.

#[global] Instance item_le_dec : RelDecision item_le :=
  fun x y => Z_le_dec x.1 y.1.

Definition sorted_items (groups : gmap Z nat) : list (Z * nat) :=
  merge_sort item_le (map_to_list groups).

(** *** The orchestrator *)

(** [10 + int((plots_made / float(tot_plots)) * 85)] *)
Definition percent (plots_made tot_plots : Z) : result Z :=
  let* t := Float.float_of_int tot_plots in
  let* p := Float.float_of_int plots_made in
  let* q := Float.truediv p t in
  let* i := Float.int (Float.mul q (Float.of_Z 85)) in
  Ok (10 + i).

(** The four lines after every call of [drawMap]. *)
Definition progress : M unit :=
  do made <- get plots_made;
  modify (with_plots_made (made + 1)) ;;
  do tot <- get tot_plots;
  do newper <- lift (percent (made + 1) tot);
  do old <- get oldper;
  if negb (old =? newper) then
    update_status "Plotting" newper ;;
    modify (with_oldper newper)
  else ret tt.

(** One render: [drawMap] inside [try], a log line on either outcome, then
    the progress lines. *)
Definition render (w : world) (j : job) : M unit :=
  (if drawMap w j then logger (Plotted j) else logger (Failed j)) ;;
  progress.

(** The loop over the entries of the staging directory, for the modes 'day'
    and 'NA'.  A requested timestamp is drawn from the first file that has
    it, and the loop stops there. *)
Fixpoint plot_files (w : world) (request : request) (mode : string)
    (tmpdir : nat) (entries : list string) : M unit :=
  match entries with
  | [] => ret tt
  | filename :: entries' =>
      if Str.contains "_group" filename && Str.endswith ".txt" filename then
        if String.eqb mode "day" then
          render w (JDay tmpdir filename) ;;
          plot_files w request mode tmpdir entries'
        else if String.eqb mode "NA" then
          match timestamp request with
          | Some t =>
              if bool_decide (t ∈ timestamps w filename) then
                render w (JTimestamp tmpdir filename t)
              else plot_files w request mode tmpdir entries'
          | None =>
              for_each (timestamps w filename)
                       (fun column => render w (JColumn tmpdir filename column)) ;;
              plot_files w request mode tmpdir entries'
          end
        else plot_files w request mode tmpdir entries'
      else plot_files w request mode tmpdir entries'
  end.

(** The body of the loop over the groups; [mode] is
    [request.inputs['summarise'][0].data]. *)
Definition plot_group (w : world) (request : request) (mode : string)
    (item : Z * nat) : M unit :=
  let tmpdir := item.2 in
  (** [s = Sum(tmpdir)] reads the directory *)
  do s <- (if negb (String.eqb mode "NA") then listdir tmpdir else ret []);
  (if String.eqb mode "week" then
     for_each (seqZ 1 52)
       (fun week =>
          if (Z.of_nat (length (sumWeek w s week)) =? 0) then ret tt
          else render w (JWeek tmpdir week))
   else if String.eqb mode "month" then
     for_each (seqZ 1 12)
       (fun month =>
          if (Z.of_nat (length (sumMonth w s month)) =? 0) then ret tt
          else render w (JMonth tmpdir month))
   else if String.eqb mode "all" then
     render w (JAll tmpdir)
   else
     do entries <- listdir tmpdir;
     plot_files w request mode tmpdir entries) ;;
  (** "Finished plotting so will now delete temp directory" *)
  rmtree tmpdir.




(** *** The packager *)

(** "Outputting different response based on the number of plots
    generated". *)
Definition package (w : world) (request : request) : M output :=
  match outdir_entries w with
  | None =>
      ret {| data_format := Some FORMATS_TEXT;
             data := Some "No plots created, check input options";
             file := None |}
  | Some entries =>
      if (Z.of_nat (length entries) =? 1) then
        match entries !! 0%nat with
        | Some name =>
            ret {| data_format := Some FORMAT_image_png;
                   data := None;
                   file := Some (outdir w +:+ "/" +:+ name) |}
        | None => raise (IndexError "list index out of range")
        end
      else
        let zippedfile := filelocation request +:+ "_plots" in
        modify (with_archives
                  (fun a => (a ++ [(zippedfile +:+ ".zip", entries)])%list)) ;;
        ret {| data_format := Some FORMATS_SHP;
               data := None;
               file := Some (zippedfile +:+ ".zip") |}
  end.

(** *** The handler, from the test of the bounding box on

    What comes before that test, the look-up of the run directory and the
    parsing of [user_input_parameters.txt], only feeds [get_num_dates] and
    the station marker; the dictionary [plotoptions] is handed to [drawMap]
    and read nowhere else.  Neither is modelled: the answers of
    [get_num_dates] and of [drawMap] are fields of the [world]. *)

(** The loop over [sorted(groups.items())]. *)
Definition plot_groups (w : world) (request : request) (mode : string)
    (groups : gmap Z nat) : M unit :=
  for_each (sorted_items groups) (plot_group w request mode).

Definition _handler (w : world) (request : request) : M output :=
  lift (check_bbox request) ;;
  let files := glob_group_txt (outputs w) in
  if (Z.of_nat (length files) =? 0) then
    raise (InvalidParameterValue MsgNoOutputFiles)
  else
    let mode :=
      match timestamp request with
      | Some _ => "NA"
      | None => summarise request
      end in
    update_status "Processed plot parameters" 5 ;;
    modify (with_tot_plots (num_dates w)) ;;
    do groups <- group_files (outputs w) ∅;
    let ngroups := Z.of_nat (size groups) in
    do tot <- get tot_plots;
    modify (with_tot_plots (tot * ngroups)) ;;
    modify (with_plots_made 0) ;;
    update_status "Plotting" 10 ;;
    modify (with_oldper 10) ;;
    plot_groups w request mode groups ;;
    update_status "Formatting output" 95 ;;
    do out <- package w request;
    update_status "done" 100 ;;
    ret out.

End PlotNAME.

(** Sample requests and worlds of the plot process. *)
Module PlotSamples.
Import PlotNAME.

Definition whole_globe : request := {|
  filelocation := "run1";
  summarise := "NA";
  timestamp := None;
  station := None;
  projection := None;
  min_lon := Float.m180;
  max_lon := Float.p180;
  min_lat := Float.m90;
  max_lat := Float.p90;
  scale := None;
  colormap := "coolwarm"
|}.

(** min_lon = 90 > max_lon = -90, and the same on the other axis. *)
Definition inverted_box : request := {|
  filelocation := "run1";
  summarise := "NA";
  timestamp := None;
  station := None;
  projection := None;
  min_lon := Float.p90;
  max_lon := Float.m90;
  min_lat := Float.p90;
  max_lat := Float.m90;
  scale := None;
  colormap := "coolwarm"
|}.

(** Three output files in two groups, named so that the digit of the group
    is the fifteenth character; each file has two columns, and the second
    column of every file fails to draw. *)
Definition two_groups (num_dates : Z) (entries : option (list string)) : world := {|
  outputs := ["TestRun1_group1_a.txt"; "TestRun1_group1_b.txt";
              "TestRun1_group2_a.txt"];
  num_dates := num_dates;
  sumWeek := fun _ _ => [];
  sumMonth := fun _ _ => [];
  timestamps := fun _ => ["01/01/2021 00:00 UTC"; "01/01/2021 03:00 UTC"];
  drawMap := fun j =>
    match j with
    | JColumn _ _ column => String.eqb column "01/01/2021 00:00 UTC"
    | _ => true
    end;
  outdir := "/outputs/run1/plots_1609459200";
  outdir_entries := entries
|}.

(** The file names of the specification's example: their fifteenth
    character is the [x] of [txt]. *)
Definition spec_names : world := {|
  outputs := ["run_group1_a.txt"; "run_group1_b.txt"; "run_group2_a.txt"];
  num_dates := 2;
  sumWeek := fun _ _ => [];
  sumMonth := fun _ _ => [];
  timestamps := fun _ => ["01/01/2021 00:00 UTC"; "01/01/2021 03:00 UTC"];
  drawMap := fun _ => true;
  outdir := "/outputs/run1/plots_1609459200";
  outdir_entries := None
|}.

End PlotSamples.

(** ** Vocabulary for the properties of the plot handler *)

Module PlotProps.
Import PlotNAME.

(** What a computation does to the state, whatever its outcome. *)
Definition always {A} (R : state -> state -> Prop) (m : M A) : Prop :=
  forall st r st', m st = (r, st') -> R st st'.

(** The log line of a render. *)
Definition log_of (w : world) (j : job) : log_record :=
  if drawMap w j then Plotted j else Failed j.

(** The percentages of the updates sent so far. *)
Definition percents (st : state) : list Z := (status st).*2.

(** The counters of the handler are untouched. *)
Definition same_counters (st st' : state) : Prop :=
  status st' = status st /\ tot_plots st' = tot_plots st /\
  plots_made st' = plots_made st /\ oldper st' = oldper st.

(** The state of the progress report while the groups are plotted: the
    percentages sent do not decrease, the last one sent is [oldper], it is
    the percentage of the plots made so far, and it is at most 95. *)
Definition good (st : state) : Prop :=
  StronglySorted Z.le (percents st) /\
  last (percents st) = Some (oldper st) /\
  Forall (fun p => p <= oldper st) (percents st) /\
  10 <= oldper st <= 95 /\
  0 <= plots_made st /\
  (plots_made st = 0 -> oldper st = 10) /\
  (0 < plots_made st ->
   percent (plots_made st) (tot_plots st) = Ok (oldper st)).

(** A stretch of the plotting: the total stays, the plots made do not go
    down, and the report stays good as long as the plots made stay within
    the total. *)
Definition steady (st st' : state) : Prop :=
  tot_plots st' = tot_plots st /\
  plots_made st <= plots_made st' /\
  (plots_made st' <= tot_plots st -> tot_plots st <= Float.limit ->
   good st -> good st').



(** The grouper's view of the temporary directories: every group has a
    directory that exists, and no two groups share one. *)
Definition grouped (groups : gmap Z nat) (fs : gmap nat (list string)) : Prop :=
  (forall g d, groups !! g = Some d -> is_Some (fs !! d)) /\
  (forall g g' d, groups !! g = Some d -> groups !! g' = Some d -> g = g').

(** The output files of group [g] among the entries, in their order. *)
Definition files_of_group (g : Z) (entries : list string) : list string :=
  List.filter
    (fun f => Str.endswith "txt" f
              && match group_number f with Ok g' => g' =? g | Raise _ => false end)
    entries.

(** Ascending order of the items of the groups. *)
Definition item_lt (x y : Z * nat) : Prop := x.1 < y.1.

End PlotProps.
(** ** Further vocabulary

    [pretty] of the library writes a number in decimal, as [str] and the
    format strings of Python do. *)

From stdpp Require Import pretty.

Local Open Scope string_scope.
Local Open Scope Z_scope.

(** ** Vocabulary for the plot handler as a whole *)

Module PlotStages.
Import PlotNAME PlotProps.

(** The mode the groups are plotted in: a requested timestamp overrides
    [summarise]. *)
Definition mode_of (request : request) : string :=
  match timestamp request with
  | Some _ => "NA"
  | None => summarise request
  end.

(** The states between the stages of the handler: after 'Processed plot
    parameters' and [get_num_dates], before the loop over the groups, after
    it, and at the end. *)
Definition after_parameters (w : world) (st : state) : state :=
  with_tot_plots (num_dates w)
    (with_status (fun s => (s ++ [("Processed plot parameters", 5)])%list) st).

Definition before_plotting (groups : gmap Z nat) (st : state) : state :=
  with_oldper 10
    (with_status (fun s => (s ++ [("Plotting", 10)])%list)
       (with_plots_made 0
          (with_tot_plots (tot_plots st * Z.of_nat (size groups)) st))).

Definition after_plotting (st : state) : state :=
  with_status (fun s => (s ++ [("Formatting output", 95)])%list) st.

Definition finished (st : state) : state :=
  with_status (fun s => (s ++ [("done", 100)])%list) st.

(** The ways a run of the handler ends, one for each place it can leave. *)
Inductive outcome (w : world) (q : request) (st : state)
  : result output -> state -> Prop :=
| EndBox e :
    check_bbox q = Raise e ->
    outcome w q st (Raise e) st
| EndNoFiles :
    check_bbox q = Ok tt ->
    glob_group_txt (outputs w) = [] ->
    outcome w q st (Raise (InvalidParameterValue MsgNoOutputFiles)) st
| EndGrouping e st' :
    check_bbox q = Ok tt ->
    glob_group_txt (outputs w) <> [] ->
    group_files (outputs w) ∅ (after_parameters w st) = (Raise e, st') ->
    outcome w q st (Raise e) st'
| EndPlotting groups st2 e st' :
    check_bbox q = Ok tt ->
    glob_group_txt (outputs w) <> [] ->
    group_files (outputs w) ∅ (after_parameters w st) = (Ok groups, st2) ->
    plot_groups w q (mode_of q) groups (before_plotting groups st2)
    = (Raise e, st') ->
    outcome w q st (Raise e) st'
| EndPackaging groups st2 st4 e st' :
    check_bbox q = Ok tt ->
    glob_group_txt (outputs w) <> [] ->
    group_files (outputs w) ∅ (after_parameters w st) = (Ok groups, st2) ->
    plot_groups w q (mode_of q) groups (before_plotting groups st2)
    = (Ok tt, st4) ->
    package w q (after_plotting st4) = (Raise e, st') ->
    outcome w q st (Raise e) st'
| EndDone groups st2 st4 out st6 :
    check_bbox q = Ok tt ->
    glob_group_txt (outputs w) <> [] ->
    group_files (outputs w) ∅ (after_parameters w st) = (Ok groups, st2) ->
    plot_groups w q (mode_of q) groups (before_plotting groups st2)
    = (Ok tt, st4) ->
    package w q (after_plotting st4) = (Ok out, st6) ->
    outcome w q st (Ok out) (finished st6).

(** An exception that is not the client-facing one. *)
Definition internal (e : exn) : Prop :=
  match e with
  | InvalidParameterValue _ => False
  | _ => True
  end.

(** The computation raises internal exceptions only. *)
Definition never_invalid {A} (m : M A) : Prop :=
  forall st e st', m st = (Raise e, st') -> internal e.

(** The temporary directories change only by the removal of directories
    among [D]. *)
Definition removes_within (D : list nat) (st st' : state) : Prop :=
  forall d, tmpfs st' !! d = tmpfs st !! d \/ (d ∈ D /\ tmpfs st' !! d = None).

(** The grouper's directories against the directories [fs0] there were
    before it started: every group has a directory of its own that was not
    there, and the directories that were there are as they were. *)
Definition staged (fs0 : gmap nat (list string)) (groups : gmap Z nat)
    (fs : gmap nat (list string)) : Prop :=
  grouped groups fs /\
  (forall g d, groups !! g = Some d -> fs0 !! d = None) /\
  (forall d, (forall g, groups !! g <> Some d) -> fs !! d = fs0 !! d).

(** Only the temporary directories changed. *)
Definition only_directories (st st' : state) : Prop :=
  status st' = status st /\ log st' = log st /\
  tot_plots st' = tot_plots st /\ plots_made st' = plots_made st /\
  oldper st' = oldper st /\ archives st' = archives st.

(** The log and the count of plots made grow together: one line for each
    plot counted, and each line tells how a call of [drawMap] ended. *)
Definition counted (w : world) (st st' : state) : Prop :=
  exists new,
    log st' = (log st ++ new)%list /\
    plots_made st' = plots_made st + Z.of_nat (length new) /\
    Forall (fun r => exists j, r = log_of w j) new.

(** No percentage equals the one before it, starting after [x]. *)
Fixpoint no_repeat (x : Z) (l : list Z) : Prop :=
  match l with
  | [] => True
  | y :: l' => x <> y /\ no_repeat y l'
  end.

(** The updates sent during a stretch of the plotting: all of them
    'Plotting', none with the percentage of the update before it, and
    [oldper] is the last percentage sent. *)
Definition reported (st st' : state) : Prop :=
  exists new,
    status st' = (status st ++ new)%list /\
    Forall (fun u => u.1 = "Plotting") new /\
    no_repeat (oldper st) new.*2 /\
    oldper st' = List.last new.*2 (oldper st).

(** With no plot expected and none made, a computation either makes no
    render, or makes one and leaves at once with [ZeroDivisionError], the
    render logged and counted and no update sent. *)
Definition stops_at_first_render {A} (w : world)
    (st : state) (r : result A) (st' : state) : Prop :=
  tot_plots st = 0 -> plots_made st = 0 ->
  (tot_plots st' = 0 /\ plots_made st' = 0 /\
   log st' = log st /\ status st' = status st) \/
  (r = Raise ZeroDivisionError /\ tot_plots st' = 0 /\ plots_made st' = 1 /\
   status st' = status st /\
   exists j, log st' = (log st ++ [log_of w j])%list).

End PlotStages.

(** Further sample requests and worlds of the plot process. *)
Module PlotCases.
Import PlotNAME.

(** The whole globe at one timestamp. *)
Definition at_timestamp (t : string) : request := {|
  filelocation := "run1";
  summarise := "day";
  timestamp := Some t;
  station := None;
  projection := None;
  min_lon := Float.m180;
  max_lon := Float.p180;
  min_lat := Float.m90;
  max_lat := Float.p90;
  scale := None;
  colormap := "coolwarm"
|}.


(** One group whose summary finds files for the weeks 1 and 2 and for the
    month 1 only. *)
Definition weekly : world := {|
  outputs := ["TestRun1_group1_a.txt"];
  num_dates := 2;
  sumWeek := fun files week => if (week =? 1) || (week =? 2) then files else [];
  sumMonth := fun files month => if month =? 1 then files else [];
  timestamps := fun _ => ["01/01/2021 00:00 UTC"];
  drawMap := fun _ => true;
  outdir := "/outputs/run1/plots_1609459200";
  outdir_entries := None
|}.

(** The state before the loop over the groups, with the one staging
    directory and two plots expected. *)
Definition staged_weekly : state :=
  with_tot_plots 2 (initial {[0%nat := ["TestRun1_group1_a.txt"]]}).

End PlotCases.

(** ** The plot process before the test of the bounding box

    [PlotNAME._handler] first reads the parameters of the run that made the
    outputs, from the file [user_input_parameters.txt] of the run
    directory, and after the test of the box turns the four bounds into
    the whole numbers handed to the plotting library. *)

Module PlotInputs.
Import Str.

(** [s.rstrip()]: [s] without the white space at its end. *)
Fixpoint rstrip (s : string) : string :=
  match s with
  | EmptyString => EmptyString
  | String a s' =>
      match rstrip s' with
      | EmptyString => if is_space a then EmptyString else String a EmptyString
      | r => String a r
      end
  end.

(** [s.split(sep)] for a separator that is not empty: the pieces between
    the occurrences of [sep], found from the left and not overlapping.
    [skip] counts the characters of the occurrence being passed. *)
Fixpoint split_at (sep : string) (skip : nat) (s : string) : list string :=
  match s with
  | EmptyString => [EmptyString]
  | String a s' =>
      match skip with
      | S n => split_at sep n s'
      | O =>
          if startswith sep s then
            EmptyString :: split_at sep (String.length sep - 1) s'
          else
            match split_at sep O s' with
            | p :: ps => String a p :: ps
            | [] => [String a EmptyString]
            end
      end
  end.

Definition split_str (sep s : string) : list string := split_at sep O s.

(** The loop "Parse NAME run input params" over the lines of the file, as
    the iteration over the open file yields them:
    [data = l.rstrip().split(': ')] and [inputs[data[0]] = data[1]]. *)
Fixpoint read_lines (lines : list string) (inputs : gmap string string)
  : result (gmap string string) :=
  match lines with
  | [] => Ok inputs
  | l :: lines' =>
      let data := split_str ": " (rstrip l) in
      match data !! 1%nat, data !! 0%nat with
      | Some value, Some key => read_lines lines' (<[key := value]> inputs)
      | _, _ => Raise (IndexError "list index out of range")
      end
  end.

(** [open] of the file and the loop; [None] is a run directory without the
    file. *)
Definition read_inputs (file : option (list string))
  : result (gmap string string) :=
  match file with
  | None => Raise (FileNotFoundError "No such file or directory")
  | Some lines => read_lines lines ∅
  end.

(** The key and the value a line gives, if it gives any. *)
Definition entry_of (l : string) : option (string * string) :=
  match split_str ": " (rstrip l) with
  | key :: value :: _ => Some (key, value)
  | _ => None
  end.

(** [plotoptions['lon_bounds']] and [plotoptions['lat_bounds']]: [int] of
    the four bounds, in the order the handler evaluates them. *)
Definition plot_bounds (request : PlotNAME.request)
  : result ((Z * Z) * (Z * Z)) :=
  let* lon_min := Float.int (PlotNAME.min_lon request) in
  let* lon_max := Float.int (PlotNAME.max_lon request) in
  let* lat_min := Float.int (PlotNAME.min_lat request) in
  let* lat_max := Float.int (PlotNAME.max_lat request) in
  Ok ((lon_min, lon_max), (lat_min, lat_max)).

(** A float of binary64: a mantissa of 53 bits at most, of exactly 53 above
    the smallest exponent, and an exponent within the format. *)
Definition binary64 (x : spec_float) : Prop :=
  valid_binary Float.prec Float.emax x = true.

(** Not a number, or infinite: what [int] refuses. *)
Definition not_finite (x : spec_float) : Prop :=
  match x with
  | S754_nan | S754_infinity _ => True
  | _ => False
  end.

End PlotInputs.
Example translate_elevation_default : translate_elevation "0-100" = Ok (0, 100).
Proof. reflexivity. Qed.

Example translate_elevation_underscore :
  translate_elevation " 1_0 -+25" = Ok (10, 25).
Proof. reflexivity. Qed.

Example translate_elevation_negative :
  translate_elevation "-5-10" = Raise (ValueError "too many values to unpack (expected 2)").
Proof. reflexivity. Qed.

(** ** Facts about the string functions *)

Module StrFacts.
Import Str.

Lemma mem_count c s : mem c s = true <-> (0 < count c s)%nat.
Proof.
  induction s as [|a s IH]; simpl.
  - split; [discriminate | lia].
  - destruct (Ascii.eqb a c); simpl; [split; [lia | reflexivity] | exact IH].
Qed.


Lemma split_nonempty c s : split c s <> [].
Proof.
  destruct s as [|a s]; simpl; [discriminate|].
  destruct (Ascii.eqb a c); [discriminate|].
  destruct (split c s); discriminate.
Qed.

Lemma split_length c s : length (split c s) = S (count c s).
Proof.
  induction s as [|a s IH]; simpl; [reflexivity|].
  destruct (Ascii.eqb a c); simpl; [now rewrite IH|].
  pose proof (split_nonempty c s) as Hne.
  destruct (split c s) as [|p ps]; [contradiction|exact IH].
Qed.

(** No piece of a split contains the separator. *)
Lemma split_no_sep c s : Forall (fun p => mem c p = false) (split c s).
Proof.
  induction s as [|a s IH]; simpl.
  - repeat constructor.
  - destruct (Ascii.eqb a c) eqn:E.
    + constructor; [reflexivity | exact IH].
    + destruct (split c s) as [|p ps].
      * repeat constructor. simpl. now rewrite E.
      * inversion IH; subst. constructor; [|assumption].
        simpl. now rewrite E.
Qed.



Lemma mem_lstrip c s : mem c (lstrip s) = true -> mem c s = true.
Proof.
  induction s as [|a s IH]; simpl; [trivial|].
  destruct (is_space a); simpl.
  - intros H. rewrite (IH H). apply orb_true_r.
  - trivial.
Qed.

Lemma digit_val_range c d : digit_val c = Some d -> 0 <= d <= 9.
Proof.
  unfold digit_val.
  destruct ((48 <=? code c) && (code c <=? 57)) eqn:E; [|discriminate].
  intros [= <-]. apply andb_true_iff in E as [H1 H2]. lia.
Qed.

Lemma digits_tail_nonneg_aux (n : nat) : forall s acc v rest,
  (String.length s <= n)%nat ->
  0 <= acc -> digits_tail acc s = Some (v, rest) -> 0 <= v.
Proof.
  induction n as [|n IH]; intros s acc v rest Hlen Hacc.
  - destruct s; [|simpl in Hlen; lia]. simpl. intros [= <- _]. exact Hacc.
  - destruct s as [|a s]; simpl in *.
    + intros [= <- _]. exact Hacc.
    + destruct (digit_val a) as [d|] eqn:Ed.
      * apply IH; [lia|]. apply digit_val_range in Ed. lia.
      * destruct (Ascii.eqb a "_").
        -- destruct s as [|b s']; [discriminate|].
           destruct (digit_val b) as [d|] eqn:Eb; [|discriminate].
           simpl in Hlen.
           apply IH; [lia|]. apply digit_val_range in Eb. lia.
        -- intros [= <- _]. exact Hacc.
Qed.

Lemma digits_tail_nonneg s acc v rest :
  0 <= acc -> digits_tail acc s = Some (v, rest) -> 0 <= v.
Proof. apply (digits_tail_nonneg_aux (String.length s)). lia. Qed.

(** [int] gives a negative number only for a string with a minus sign. *)
Lemma py_int_nonneg s v : mem "-" s = false -> py_int s = Some v -> 0 <= v.
Proof.
  intros Hs. unfold py_int.
  assert (Hl : mem "-" (lstrip s) = false).
  { destruct (mem "-" (lstrip s)) eqn:E; [|reflexivity].
    apply mem_lstrip in E. congruence. }
  destruct (lstrip s) as [|a r] eqn:El.
  - discriminate.
  - simpl in Hl. apply orb_false_iff in Hl as [Ha Hr]. rewrite Ha.
    destruct (Ascii.eqb a "+").
    + destruct r as [|b r']; [discriminate|].
      destruct (digit_val b) as [d|] eqn:Ed; [|discriminate].
      destruct (digits_tail d r') as [[v' rest]|] eqn:Et; [|discriminate].
      destruct (all_space rest); [|discriminate].
      intros [= <-]. eapply digits_tail_nonneg; [|exact Et].
      apply digit_val_range in Ed. lia.
    + destruct (digit_val a) as [d|] eqn:Ed; [|discriminate].
      destruct (digits_tail d r) as [[v' rest]|] eqn:Et; [|discriminate].
      destruct (all_space rest); [|discriminate].
      intros [= <-]. eapply digits_tail_nonneg; [|exact Et].
      apply digit_val_range in Ed. lia.
Qed.







End StrFacts.

(** ** RunNAME.translate_elevation *)

Section TranslateElevation.
Import Str StrFacts.

Lemma translate_elevation_no_dash s :
  mem "-" s = false ->
  translate_elevation s = Raise (InvalidParameterValue (MsgNoDash s)).
Proof. intros H. unfold translate_elevation. now rewrite H. Qed.

Lemma translate_elevation_many_dashes s :
  (1 < count "-" s)%nat ->
  translate_elevation s
  = Raise (ValueError "too many values to unpack (expected 2)").
Proof.
  intros H. unfold translate_elevation.
  assert (Hm : mem "-" s = true) by (apply mem_count; lia).
  rewrite Hm. simpl.
  pose proof (split_length "-" s) as Hl.
  destruct (split "-" s) as [|p1 [|p2 [|p3 ps]]]; simpl in Hl; try lia.
  reflexivity.
Qed.

(** What an accepted string looks like: exactly one separator, and [int]
    reads the two pieces as the bounds returned. *)
Lemma translate_elevation_ok_inv s a b :
  translate_elevation s = Ok (a, b) ->
  exists mini maxi,
    split "-" s = [mini; maxi] /\ py_int mini = Some a /\
    py_int maxi = Some b /\ a < b.
Proof.
  unfold translate_elevation.
  destruct (mem "-" s); simpl; [|discriminate].
  destruct (split "-" s) as [|p1 [|p2 [|p3 ps]]]; simpl; try discriminate.
  destruct (py_int p1) as [x|] eqn:Ex; [|discriminate].
  destruct (py_int p2) as [y|] eqn:Ey; [|discriminate].
  rewrite Z.geb_leb. destruct (y <=? x) eqn:E; [discriminate|].
  destruct ((x <? 0) || (y <? 0)); [discriminate|].
  intros [= <- <-]. exists p1, p2. repeat split; try assumption. lia.
Qed.


(** With one separator and a piece that [int] rejects, or bounds in the wrong
    order, the error is the client-facing one. *)
Lemma translate_elevation_not_numbers s mini maxi :
  split "-" s = [mini; maxi] ->
  py_int mini = None \/ py_int maxi = None ->
  translate_elevation s = Raise (InvalidParameterValue (MsgNotTwoNumbers s)).
Proof.
  intros Hs Hp. unfold translate_elevation.
  assert (Hm : mem "-" s = true).
  { apply mem_count. pose proof (split_length "-" s) as Hl.
    rewrite Hs in Hl. simpl in Hl. lia. }
  rewrite Hm, Hs. simpl.
  destruct Hp as [-> | Hp]; [reflexivity|].
  rewrite Hp. now destruct (py_int mini).
Qed.


(** C10.  Every range [translate_elevation] accepts has both bounds
    non-negative, so the branch that reports bounds below zero is never
    taken; a string with more than one dash, such as one that writes a
    negative lower bound, leaves the function with the [ValueError] of the
    two-way unpacking of the split and not with [InvalidParameterValue]. *)
Theorem translate_elevation_negative_branch_unreachable (s : string) :
  (forall a b, translate_elevation s = Ok (a, b) -> 0 <= a /\ 0 <= b) /\
  (forall v,
     translate_elevation s <> Raise (InvalidParameterValue (MsgNotAboveZero v))) /\
  ((1 < count "-" s)%nat ->
   translate_elevation s
   = Raise (ValueError "too many values to unpack (expected 2)") /\
   ~ is_invalid_input (translate_elevation s)).
Proof.
  split; [|split].
  - intros a b H.
    destruct (translate_elevation_ok_inv s a b H) as (p1 & p2 & Hs & Ha & Hb & _).
    pose proof (split_no_sep "-" s) as Hf. rewrite Hs in Hf.
    apply Forall_cons in Hf as [H1 Hf]. apply Forall_cons in Hf as [H2 _].
    simpl in H1, H2.
    split; [exact (py_int_nonneg p1 a H1 Ha) | exact (py_int_nonneg p2 b H2 Hb)].
  - intros v. unfold translate_elevation.
    destruct (mem "-" s); simpl; [|discriminate].
    pose proof (split_no_sep "-" s) as Hf.
    destruct (split "-" s) as [|p1 [|p2 [|p3 ps]]]; simpl; try discriminate.
    apply Forall_cons in Hf as [H1 Hf]. apply Forall_cons in Hf as [H2 _].
    simpl in H1, H2.
    destruct (py_int p1) as [x|] eqn:Ex; [|discriminate].
    destruct (py_int p2) as [y|] eqn:Ey; [|discriminate].
    destruct (x >=? y); [discriminate|].
    pose proof (py_int_nonneg p1 x H1 Ex).
    pose proof (py_int_nonneg p2 y H2 Ey).
    destruct (x <? 0) eqn:E1; [lia|]. destruct (y <? 0) eqn:E2; [lia|].
    discriminate.
  - intros H. rewrite (translate_elevation_many_dashes s H).
    split; [reflexivity|]. intros [m Hm]. discriminate.
Qed.

Lemma translate_elevation_negative_branch_unreachable_witness :
  (0 <= 0 /\ 0 <= 100) /\
  translate_elevation "-5-10"
  = Raise (ValueError "too many values to unpack (expected 2)") /\
  ~ is_invalid_input (translate_elevation "-5-10").
Proof.
  split.
  - exact (proj1 (translate_elevation_negative_branch_unreachable "0-100")
             0 100 eq_refl).
  - apply (proj2 (proj2 (translate_elevation_negative_branch_unreachable "-5-10"))).
    simpl. lia.
Defined.

(** C4.  A range with a negative bound is not refused with
    [InvalidParameterValue], as the branch "Entire range must be above 0"
    means it to be: the function leaves with the [ValueError] of the
    unpacking, which the handler does not catch. *)
Theorem translate_elevation_negative_bounds_escape :
  translate_elevation "-5-10"
  = Raise (ValueError "too many values to unpack (expected 2)") /\
  translate_elevation "5--10"
  = Raise (ValueError "too many values to unpack (expected 2)") /\
  ~ is_invalid_input (translate_elevation "-5-10") /\
  ~ is_invalid_input (translate_elevation "5--10").
Proof.
  repeat split; try reflexivity; intros [m Hm]; discriminate.
Qed.

End TranslateElevation.

(** ** Comparisons of floating-point numbers *)

Module FloatFacts.

Lemma SFcompare_antisym x y :
  SFcompare y x = option_map CompOpp (SFcompare x y).
Proof.
  destruct x as [sx|sx| |sx mx ex], y as [sy|sy| |sy my ey]; simpl;
    try reflexivity;
    try (destruct sx; reflexivity); try (destruct sy; reflexivity);
    try (destruct sx, sy; reflexivity).
  f_equal. rewrite (Z.compare_antisym ex ey).
  destruct sx, sy; simpl; try reflexivity;
    destruct (ex ?= ey); simpl; try reflexivity;
    rewrite (Pos.compare_cont_antisym mx my Eq); reflexivity.
Qed.

(** [c <= x] excludes [x < c], and [x <= c] excludes [x > c]. *)
Lemma leb_not_ltb c x : Float.leb c x = true -> Float.ltb x c = false.
Proof.
  unfold Float.leb, Float.ltb, SFleb, SFltb.
  rewrite (SFcompare_antisym c x).
  destruct (SFcompare c x) as [[]|]; simpl; congruence.
Qed.

Lemma leb_not_gtb c x : Float.leb x c = true -> Float.gtb x c = false.
Proof. unfold Float.gtb. apply leb_not_ltb. Qed.

(** A float equal to a finite non-zero float is that float. *)
Lemma eqb_finite_eq x s m e :
  Float.eqb x (S754_finite s m e) = true -> x = S754_finite s m e.
Proof.
  unfold Float.eqb, SFeqb.
  destruct x as [sx|sx| |sx mx ex]; simpl;
    try discriminate; try (destruct sx; discriminate);
    try (destruct s; discriminate).
  destruct sx, s; simpl; try discriminate;
    destruct (ex ?= e) eqn:Ee; try discriminate;
    apply Z.compare_eq in Ee; subst;
    destruct (Pos.compare_cont Eq mx m) eqn:Em; try discriminate;
    apply Pos.compare_eq in Em; subst; reflexivity.
Qed.

Lemma eqb_finite_refl s m e :
  Float.eqb (S754_finite s m e) (S754_finite s m e) = true.
Proof.
  unfold Float.eqb, SFeqb. simpl.
  rewrite Z.compare_refl, (Pos.compare_cont_refl m Eq). now destruct s.
Qed.

End FloatFacts.

(** ** RunNAME: dates, longitudes *)

Section RunValidation.
Import Datetime RunNAME.

Lemma add_days_ok (t : datetime) (n : Z) :
  0 <= t + days n <= Datetime.max -> add t (days n) = Ok (t + days n).
Proof.
  intros H. unfold add.
  destruct (0 <=? t + days n) eqn:E1; [|lia].
  destruct (t + days n <=? Datetime.max) eqn:E2; [|lia]. reflexivity.
Qed.

(** What the two date tests decide, when the day after the end date is a
    date the calendar has. *)
Lemma check_dates_spec (s e : datetime) :
  0 <= e + days 1 <= Datetime.max ->
  check_dates s e =
    if e + days 1 <=? s then Raise (InvalidParameterValue MsgEndEarlier)
    else if days 93 <=? e + days 1 - s then
      Raise (InvalidParameterValue MsgThreeMonths)
    else Ok tt.
Proof.
  intros H. unfold check_dates. rewrite (add_days_ok e 1 H). cbn [rbind].
  rewrite !Z.geb_leb. destruct (e + days 1 <=? s); [reflexivity|].
  unfold sub. reflexivity.
Qed.

Lemma validate_stages req rs :
  translate_ranges (elevationOut req) = Ok rs ->
  check_bbox req = Ok tt ->
  check_time (timeFmt req) (time req) = Ok tt ->
  validate req =
    let* _ := check_dates (startdate req) (enddate req) in
    Ok {| inputs := req; ranges := rs; domain := make_domains req |}.
Proof.
  intros H1 H2 H3. unfold validate. rewrite H1, H2. simpl.
  destruct (check_dates (startdate req) (enddate req)) as [[]|]; simpl;
    [|reflexivity].
  now rewrite H3.
Qed.

(** C1, as the code has it.  The end date is inclusive: the dates are
    accepted exactly when the start lies before the day after the end and
    the span from the start to the day after the end is shorter than 93
    days.  So a request whose end lies a full day or more before the start
    is refused, a span of exactly 93 days is refused, and every refusal is
    an [InvalidParameterValue]; an end date less than a day before the
    start is not refused. *)
Theorem validate_dates_iff (req : request) (rs : list (Z * Z)) :
  translate_ranges (elevationOut req) = Ok rs ->
  check_bbox req = Ok tt ->
  check_time (timeFmt req) (time req) = Ok tt ->
  0 <= enddate req + days 1 <= Datetime.max ->
  let s := startdate req in
  let e := enddate req in
  ((exists p, validate req = Ok p) <->
   s < e + days 1 /\ e + days 1 - s < days 93) /\
  (e + days 1 <= s -> validate req = Raise (InvalidParameterValue MsgEndEarlier)) /\
  (s < e + days 1 -> days 93 <= e + days 1 - s ->
   validate req = Raise (InvalidParameterValue MsgThreeMonths)).
Proof.
  intros H1 H2 H3 He s e.
  rewrite (validate_stages req rs H1 H2 H3), (check_dates_spec _ _ He).
  fold s e.
  destruct (e + days 1 <=? s) eqn:E1; cbn [rbind].
  - split; [split|split].
    + intros [p Hp]. discriminate.
    + lia.
    + reflexivity.
    + lia.
  - destruct (days 93 <=? e + days 1 - s) eqn:E2; cbn [rbind].
    + split; [split|split].
      * intros [p Hp]. discriminate.
      * lia.
      * lia.
      * reflexivity.
    + split; [split|split].
      * lia.
      * eauto.
      * lia.
      * lia.
Qed.

End RunValidation.

Section RunValidationInstances.
Import Datetime RunNAME RunSamples.

Lemma validate_dates_iff_witness :
  exists p, validate january = Ok p.
Proof.
  assert (He : 0 <= enddate january + days 1 <= Datetime.max)
    by (vm_compute; split; discriminate).
  apply (proj2 (proj1 (validate_dates_iff january [(0, 100)]
                         eq_refl eq_refl eq_refl He))).
  split; reflexivity.
Defined.

(** C1 as stated fails: the end date lies before the start date, and the
    request is accepted. *)
Lemma validate_accepts_end_before_start :
  (exists p, validate end_before_start = Ok p) /\
  enddate end_before_start < startdate end_before_start.
Proof. split; [eexists; reflexivity | reflexivity]. Qed.

End RunValidationInstances.

(** ** The bounding box, in both processes *)

Section BoundingBox.
Import FloatFacts.

(** C2, as the code has it.  Both handlers make the same four tests and no
    other: the box is accepted exactly when none of min_lon < -180,
    max_lon > 180, min_lat < -90, max_lat > 90 holds, so in particular when
    the four bounds lie within the ranges, in whatever order; a box that is
    not accepted is refused with [InvalidParameterValue]. *)
Theorem check_bbox_tests_ranges_only (r : RunNAME.request) (q : PlotNAME.request) :
  let run_tests :=
    Float.ltb (RunNAME.min_lon r) Float.m180
    || Float.gtb (RunNAME.max_lon r) Float.p180
    || Float.ltb (RunNAME.min_lat r) Float.m90
    || Float.gtb (RunNAME.max_lat r) Float.p90 in
  let plot_tests :=
    Float.ltb (PlotNAME.min_lon q) Float.m180
    || Float.gtb (PlotNAME.max_lon q) Float.p180
    || Float.ltb (PlotNAME.min_lat q) Float.m90
    || Float.gtb (PlotNAME.max_lat q) Float.p90 in
  (RunNAME.check_bbox r = Ok tt <-> run_tests = false) /\
  (run_tests = true -> is_invalid_input (RunNAME.check_bbox r)) /\
  (Float.leb Float.m180 (RunNAME.min_lon r) = true ->
   Float.leb (RunNAME.max_lon r) Float.p180 = true ->
   Float.leb Float.m90 (RunNAME.min_lat r) = true ->
   Float.leb (RunNAME.max_lat r) Float.p90 = true ->
   RunNAME.check_bbox r = Ok tt) /\
  (PlotNAME.check_bbox q = Ok tt <-> plot_tests = false) /\
  (plot_tests = true -> is_invalid_input (PlotNAME.check_bbox q)) /\
  (Float.leb Float.m180 (PlotNAME.min_lon q) = true ->
   Float.leb (PlotNAME.max_lon q) Float.p180 = true ->
   Float.leb Float.m90 (PlotNAME.min_lat q) = true ->
   Float.leb (PlotNAME.max_lat q) Float.p90 = true ->
   PlotNAME.check_bbox q = Ok tt).
Proof.
  cbv zeta. unfold RunNAME.check_bbox, PlotNAME.check_bbox.
  repeat split.
  - destruct (Float.ltb (RunNAME.min_lon r) Float.m180),
      (Float.gtb (RunNAME.max_lon r) Float.p180),
      (Float.ltb (RunNAME.min_lat r) Float.m90),
      (Float.gtb (RunNAME.max_lat r) Float.p90); simpl; congruence.
  - destruct (Float.ltb (RunNAME.min_lon r) Float.m180),
      (Float.gtb (RunNAME.max_lon r) Float.p180),
      (Float.ltb (RunNAME.min_lat r) Float.m90),
      (Float.gtb (RunNAME.max_lat r) Float.p90); simpl; congruence.
  - destruct (Float.ltb (RunNAME.min_lon r) Float.m180),
      (Float.gtb (RunNAME.max_lon r) Float.p180),
      (Float.ltb (RunNAME.min_lat r) Float.m90),
      (Float.gtb (RunNAME.max_lat r) Float.p90); simpl;
      try discriminate; intros _; eexists; reflexivity.
  - intros H1 H2 H3 H4.
    now rewrite (leb_not_ltb _ _ H1), (leb_not_gtb _ _ H2),
      (leb_not_ltb _ _ H3), (leb_not_gtb _ _ H4).
  - destruct (Float.ltb (PlotNAME.min_lon q) Float.m180),
      (Float.gtb (PlotNAME.max_lon q) Float.p180),
      (Float.ltb (PlotNAME.min_lat q) Float.m90),
      (Float.gtb (PlotNAME.max_lat q) Float.p90); simpl; congruence.
  - destruct (Float.ltb (PlotNAME.min_lon q) Float.m180),
      (Float.gtb (PlotNAME.max_lon q) Float.p180),
      (Float.ltb (PlotNAME.min_lat q) Float.m90),
      (Float.gtb (PlotNAME.max_lat q) Float.p90); simpl; congruence.
  - destruct (Float.ltb (PlotNAME.min_lon q) Float.m180),
      (Float.gtb (PlotNAME.max_lon q) Float.p180),
      (Float.ltb (PlotNAME.min_lat q) Float.m90),
      (Float.gtb (PlotNAME.max_lat q) Float.p90); simpl;
      try discriminate; intros _; eexists; reflexivity.
  - intros H1 H2 H3 H4.
    now rewrite (leb_not_ltb _ _ H1), (leb_not_gtb _ _ H2),
      (leb_not_ltb _ _ H3), (leb_not_gtb _ _ H4).
Qed.

Lemma check_bbox_tests_ranges_only_witness :
  RunNAME.check_bbox RunSamples.january = Ok tt /\
  PlotNAME.check_bbox PlotSamples.whole_globe = Ok tt.
Proof.
  pose proof (check_bbox_tests_ranges_only RunSamples.january
                PlotSamples.whole_globe) as (_ & _ & Hr & _ & _ & Hq).
  split; [apply Hr | apply Hq]; reflexivity.
Defined.

(** C2 as stated fails: a box with min above max on both axes passes the
    validation of the run process and the tests of the plot process. *)
Lemma inverted_box_accepted :
  Float.ltb (RunNAME.max_lon RunSamples.inverted_box)
            (RunNAME.min_lon RunSamples.inverted_box) = true /\
  Float.ltb (RunNAME.max_lat RunSamples.inverted_box)
            (RunNAME.min_lat RunSamples.inverted_box) = true /\
  (exists p, RunNAME.validate RunSamples.inverted_box = Ok p) /\
  Float.ltb (PlotNAME.max_lon PlotSamples.inverted_box)
            (PlotNAME.min_lon PlotSamples.inverted_box) = true /\
  PlotNAME.check_bbox PlotSamples.inverted_box = Ok tt.
Proof. repeat split; try reflexivity. eexists; reflexivity. Qed.

(** C8.  When min_lon is -180 and max_lon is 180 the domain handed on has the
    longitudes -179.875 and 179.9; for any other pair it has the four bounds
    as given.  The domain of the validated parameters is this one. *)
Theorem make_domains_full_span (r : RunNAME.request) :
  (RunNAME.min_lon r = Float.m180 -> RunNAME.max_lon r = Float.p180 ->
   RunNAME.make_domains r
   = [RunNAME.min_lat r; Float.m179_875; RunNAME.max_lat r; Float.p179_9]) /\
  (~ (RunNAME.min_lon r = Float.m180 /\ RunNAME.max_lon r = Float.p180) ->
   RunNAME.make_domains r
   = [RunNAME.min_lat r; RunNAME.min_lon r;
      RunNAME.max_lat r; RunNAME.max_lon r]) /\
  (forall p, RunNAME.validate r = Ok p ->
             RunNAME.domain p = RunNAME.make_domains r).
Proof.
  split; [|split].
  - intros H1 H2. unfold RunNAME.make_domains. simpl. rewrite H1, H2.
    reflexivity.
  - intros H. unfold RunNAME.make_domains. simpl.
    destruct (Float.eqb (RunNAME.min_lon r) Float.m180) eqn:E1; [|reflexivity].
    destruct (Float.eqb (RunNAME.max_lon r) Float.p180) eqn:E2; [|reflexivity].
    exfalso. apply H. split; apply eqb_finite_eq; assumption.
  - intros p. unfold RunNAME.validate.
    destruct (RunNAME.translate_ranges _); simpl; [|discriminate].
    destruct (RunNAME.check_bbox r); simpl; [|discriminate].
    destruct (RunNAME.check_dates _ _); simpl; [|discriminate].
    destruct (RunNAME.check_time _ _); simpl; [|discriminate].
    now intros [= <-].
Qed.

Lemma make_domains_full_span_witness :
  RunNAME.make_domains RunSamples.january
  = [Float.m90; Float.m179_875; Float.p90; Float.p179_9] /\
  RunNAME.make_domains RunSamples.inverted_box
  = [Float.p90; Float.p90; Float.m90; Float.m90].
Proof.
  split.
  - exact (proj1 (make_domains_full_span RunSamples.january) eq_refl eq_refl).
  - apply (proj1 (proj2 (make_domains_full_span RunSamples.inverted_box))).
    intros [H _]. discriminate H.
Defined.

End BoundingBox.

(** ** The numbers of the model *)

Section FloatExamples.

(** The constants are the floats of the numbers the source writes. *)
Example m180_is : Float.of_Z (-180) = Float.m180.
Proof. reflexivity. Qed.
Example p180_is : Float.of_Z 180 = Float.p180.
Proof. reflexivity. Qed.
Example m90_is : Float.of_Z (-90) = Float.m90.
Proof. reflexivity. Qed.
Example p90_is : Float.of_Z 90 = Float.p90.
Proof. reflexivity. Qed.
Example m179_875_is : Float.round true 179875 1000 = Float.m179_875.
Proof. reflexivity. Qed.
Example p179_9_is : Float.round false 1799 10 = Float.p179_9.
Proof. reflexivity. Qed.

(** The rounding agrees with the operations of the standard library's
    specification of binary64 where both are evaluated: integers that need
    rounding, quotients, products, the sub-normal range, the overflow. *)
Example round_agrees_of_Z :
  List.map Float.of_Z [85; 2 ^ 53 + 1; 2 ^ 53 + 3; - (2 ^ 60 + 2 ^ 7);
                       2 ^ 1024 - 2 ^ 970 - 1; 2 ^ 1024 - 2 ^ 970]
  = List.map (fun z => binary_normalize 53 1024 z 0 false)
             [85; 2 ^ 53 + 1; 2 ^ 53 + 3; - (2 ^ 60 + 2 ^ 7);
              2 ^ 1024 - 2 ^ 970 - 1; 2 ^ 1024 - 2 ^ 970].
Proof. vm_compute. reflexivity. Qed.

Example round_agrees_div :
  List.map (fun '(k, n) => Float.div (Float.of_Z k) (Float.of_Z n))
           [(49, 85); (1, 3); (7, 5); (-2, 3); (1, 2 ^ 1023); (3, 2 ^ 1000);
            (2 ^ 1023, 3); (5, 1)]
  = List.map (fun '(k, n) => SFdiv 53 1024 (Float.of_Z k) (Float.of_Z n))
             [(49, 85); (1, 3); (7, 5); (-2, 3); (1, 2 ^ 1023); (3, 2 ^ 1000);
              (2 ^ 1023, 3); (5, 1)].
Proof. vm_compute. reflexivity. Qed.

Example round_agrees_mul :
  List.map (fun '(k, n) =>
              Float.mul (Float.div (Float.of_Z k) (Float.of_Z n)) (Float.of_Z 85))
           [(49, 85); (1, 3); (7, 5); (-2, 3); (1, 2 ^ 1023); (2 ^ 1023, 3)]
  = List.map (fun '(k, n) =>
                SFmul 53 1024 (SFdiv 53 1024 (Float.of_Z k) (Float.of_Z n))
                      (Float.of_Z 85))
             [(49, 85); (1, 3); (7, 5); (-2, 3); (1, 2 ^ 1023); (2 ^ 1023, 3)].
Proof. vm_compute. reflexivity. Qed.

(** On every pair of counts up to 40 the quotient and its product with 85
    are those of the standard library's operations. *)
Example round_agrees_small_counts :
  let pairs := list_prod (seqZ 1 40) (seqZ 1 40) in
  List.map (fun '(k, n) => (Float.div (Float.of_Z k) (Float.of_Z n),
                            Float.scaled k n)) pairs
  = List.map (fun '(k, n) =>
                (SFdiv 53 1024 (Float.of_Z k) (Float.of_Z n),
                 SFmul 53 1024 (SFdiv 53 1024 (Float.of_Z k) (Float.of_Z n))
                       (Float.of_Z 85))) pairs.
Proof. vm_compute. reflexivity. Qed.

(** The percentage is computed in floating point: 49 plots of 85 give 58,
    where the exact quotient would give 59. *)
Example percent_49_of_85 :
  PlotNAME.percent 49 85 = Ok 58 /\ 10 + 49 * 85 / 85 = 59.
Proof. split; reflexivity. Qed.

Example percent_all_done : PlotNAME.percent 85 85 = Ok 95.
Proof. reflexivity. Qed.

Example percent_no_total : PlotNAME.percent 1 0 = Raise ZeroDivisionError.
Proof. reflexivity. Qed.

End FloatExamples.

(** ** The packager *)

Section Packager.
Import PlotNAME.




End Packager.

(** ** Rounding to the nearest float *)

Module RoundFacts.
Import Float.

Lemma pow2_pos e : 0 < 2 ^ Z.max 0 e.
Proof. apply Z.pow_pos_nonneg; lia. Qed.

Lemma num_pos a e : 0 < a -> 0 < num a e.
Proof. intros H. unfold num. pose proof (pow2_pos (- e)). nia. Qed.

Lemma den_pos b e : 0 < b -> 0 < den b e.
Proof. intros H. unfold den. pose proof (pow2_pos e). nia. Qed.

(** Moving the exponent: [a / b / 2 ^ e] is [2 ^ (e' - e)] times
    [a / b / 2 ^ e']. *)
Lemma scale a b e e' :
  e <= e' -> num a e * den b e' = 2 ^ (e' - e) * (num a e' * den b e).
Proof.
  intros H. unfold num, den.
  assert (Hp : 2 ^ Z.max 0 (- e) * 2 ^ Z.max 0 e'
               = 2 ^ (e' - e) * (2 ^ Z.max 0 (- e') * 2 ^ Z.max 0 e)).
  { rewrite <- !Z.pow_add_r by lia. f_equal. lia. }
  transitivity (a * b * (2 ^ Z.max 0 (- e) * 2 ^ Z.max 0 e')); [ring|].
  rewrite Hp. ring.
Qed.

(** [rne] is monotone in the fraction, and exact on integers. *)
Lemma rne_mono n1 d1 n2 d2 :
  0 < d1 -> 0 < d2 -> n1 * d2 <= n2 * d1 -> rne n1 d1 <= rne n2 d2.
Proof.
  intros H1 H2 H. unfold rne.
  pose proof (Z.div_mod n1 d1 ltac:(lia)) as E1.
  pose proof (Z.mod_pos_bound n1 d1 H1) as B1.
  pose proof (Z.div_mod n2 d2 ltac:(lia)) as E2.
  pose proof (Z.mod_pos_bound n2 d2 H2) as B2.
  set (q1 := n1 / d1) in *. set (r1 := n1 mod d1) in *.
  set (q2 := n2 / d2) in *. set (r2 := n2 mod d2) in *.
  assert (Hq : q1 <= q2).
  { destruct (Z_le_gt_dec q1 q2) as [Hle|Hgt]; [exact Hle|exfalso].
    assert (d1 * d2 * (q2 + 1) <= d1 * d2 * q1)
      by (apply Z.mul_le_mono_nonneg_l; nia).
    assert (r2 * d1 < d2 * d1) by (apply Z.mul_lt_mono_pos_r; lia).
    assert (0 <= r1 * d2) by nia.
    rewrite E1, E2 in H. nia. }
  destruct (Z.eq_dec q1 q2) as [Heq|Hne].
  - assert (Hr : r1 * d2 <= r2 * d1) by (rewrite E1, E2, Heq in H; nia).
    destruct (Z.compare_spec (2 * r1) d1), (Z.compare_spec (2 * r2) d2);
      try rewrite Heq; try (destruct (Z.even q2)); try lia; nia.
  - destruct (2 * r1 ?= d1), (2 * r2 ?= d2);
      try (destruct (Z.even q1)); try (destruct (Z.even q2)); lia.
Qed.

Lemma rne_exact k d : 0 < d -> rne (k * d) d = k.
Proof.
  intros H. unfold rne. rewrite Z.div_mul, Z.mod_mul by lia.
  destruct (Z.compare_spec (2 * 0) d); lia.
Qed.

Lemma rne_ge k n d : 0 < d -> k * d <= n -> k <= rne n d.
Proof.
  intros H Hn. rewrite <- (rne_exact k d H). apply rne_mono; nia.
Qed.

Lemma rne_le k n d : 0 < d -> n <= k * d -> rne n d <= k.
Proof.
  intros H Hn. rewrite <- (rne_exact k d H). apply rne_mono; nia.
Qed.

(** [2 ^ d <= a / b] gives [2 ^ k <= a / b / 2 ^ e] when [e + k <= d];
    [a / b < 2 ^ d] gives [a / b / 2 ^ e < 2 ^ k] when [d <= e + k]. *)
Lemma above_pow a b d e k :
  0 < a -> 0 < b -> 0 <= k -> e + k <= d ->
  den b d <= num a d -> 2 ^ k * den b e <= num a e.
Proof.
  intros Ha Hb Hk He H.
  pose proof (scale a b e d ltac:(lia)) as Hs.
  pose proof (num_pos a d Ha). pose proof (den_pos b d Hb).
  pose proof (num_pos a e Ha). pose proof (den_pos b e Hb).
  assert (Hp : 2 ^ k <= 2 ^ (d - e)) by (apply Z.pow_le_mono_r; lia).
  assert (0 < 2 ^ k) by (apply Z.pow_pos_nonneg; lia).
  apply (Z.mul_le_mono_pos_r _ _ (den b d)); [lia|].
  rewrite Hs.
  transitivity (2 ^ (d - e) * (den b d * den b e)); [nia|].
  apply Z.mul_le_mono_nonneg_l; [lia|]. nia.
Qed.

Lemma below_pow a b d e k :
  0 < a -> 0 < b -> 0 <= k -> d <= e + k ->
  num a d < den b d -> num a e < 2 ^ k * den b e.
Proof.
  intros Ha Hb Hk He H.
  pose proof (num_pos a d Ha). pose proof (den_pos b d Hb).
  pose proof (num_pos a e Ha). pose proof (den_pos b e Hb).
  assert (0 < 2 ^ k) by (apply Z.pow_pos_nonneg; lia).
  destruct (Z_le_gt_dec e d) as [Hle|Hgt].
  - pose proof (scale a b e d Hle) as Hs.
    assert (Hp : 2 ^ (d - e) <= 2 ^ k) by (apply Z.pow_le_mono_r; lia).
    assert (0 < 2 ^ (d - e)) by (apply Z.pow_pos_nonneg; lia).
    apply (Z.mul_lt_mono_pos_r (den b d)); [lia|].
    rewrite Hs.
    apply Z.lt_le_trans with (2 ^ (d - e) * (den b d * den b e)).
    + apply Z.mul_lt_mono_pos_l; [lia|]. nia.
    + nia.
  - pose proof (scale a b d e ltac:(lia)) as Hs.
    assert (1 <= 2 ^ (e - d)) by (apply (Z.pow_le_mono_r 2 0); lia).
    assert (num a e * den b d < den b e * den b d) by nia.
    assert (num a e < den b e) by nia.
    nia.
Qed.

Lemma log2_bounds a : 0 < a -> 2 ^ Z.log2 a <= a < 2 ^ (Z.log2 a + 1).
Proof. intros H. pose proof (Z.log2_spec a H). lia. Qed.

Lemma pow_below a b la lb e :
  0 < a -> 0 < b -> 0 <= la -> 0 <= lb ->
  a < 2 ^ la -> 2 ^ lb <= b -> la - lb <= e -> num a e < den b e.
Proof.
  intros Ha Hb Hla Hlb H1 H2 He. unfold num, den.
  pose proof (pow2_pos e). pose proof (pow2_pos (- e)).
  apply Z.lt_le_trans with (2 ^ la * 2 ^ Z.max 0 (- e)); [nia|].
  apply Z.le_trans with (2 ^ lb * 2 ^ Z.max 0 e); [|nia].
  rewrite <- !Z.pow_add_r by lia. apply Z.pow_le_mono_r; lia.
Qed.

Lemma pow_above a b la lb e :
  0 < a -> 0 < b -> 0 <= la -> 0 <= lb ->
  2 ^ la <= a -> b < 2 ^ lb -> e <= la - lb -> den b e <= num a e.
Proof.
  intros Ha Hb Hla Hlb H1 H2 He. unfold num, den.
  pose proof (pow2_pos e). pose proof (pow2_pos (- e)).
  apply Z.le_trans with (2 ^ lb * 2 ^ Z.max 0 e); [nia|].
  apply Z.le_trans with (2 ^ la * 2 ^ Z.max 0 (- e)); [|nia].
  rewrite <- !Z.pow_add_r by lia. apply Z.pow_le_mono_r; lia.
Qed.

(** The magnitude is what its name says. *)
Lemma mag_spec a b :
  0 < a -> 0 < b ->
  den b (mag a b - 1) <= num a (mag a b - 1) /\ num a (mag a b) < den b (mag a b).
Proof.
  intros Ha Hb. unfold mag.
  pose proof (log2_bounds a Ha) as [La Ua].
  pose proof (log2_bounds b Hb) as [Lb Ub].
  pose proof (Z.log2_nonneg a). pose proof (Z.log2_nonneg b).
  set (t := Z.log2 a - Z.log2 b).
  assert (Hlo : den b (t - 1) <= num a (t - 1))
    by (apply (pow_above a b (Z.log2 a) (Z.log2 b + 1)); lia).
  assert (Hhi : num a (t + 1) < den b (t + 1))
    by (apply (pow_below a b (Z.log2 a + 1) (Z.log2 b)); lia).
  destruct (den b t <=? num a t) eqn:E.
  - replace (t + 1 - 1) with t by lia. split; [lia | exact Hhi].
  - split; [exact Hlo | lia].
Qed.

Lemma above_mono a1 b1 a2 b2 e :
  0 < a1 -> 0 < b1 -> 0 < a2 -> 0 < b2 -> a1 * b2 <= a2 * b1 ->
  den b1 e <= num a1 e -> den b2 e <= num a2 e.
Proof.
  intros Ha1 Hb1 Ha2 Hb2 H. unfold num, den.
  pose proof (pow2_pos e). pose proof (pow2_pos (- e)).
  set (P := 2 ^ Z.max 0 e) in *. set (N := 2 ^ Z.max 0 (- e)) in *.
  intros Hab.
  apply (Z.mul_le_mono_pos_r _ _ b1); [lia|].
  transitivity (b2 * (a1 * N)); [nia|].
  transitivity ((a1 * b2) * N); [lia|].
  transitivity ((a2 * b1) * N); [|lia].
  apply Z.mul_le_mono_nonneg_r; lia.
Qed.

Lemma mag_mono a1 b1 a2 b2 :
  0 < a1 -> 0 < b1 -> 0 < a2 -> 0 < b2 -> a1 * b2 <= a2 * b1 ->
  mag a1 b1 <= mag a2 b2.
Proof.
  intros Ha1 Hb1 Ha2 Hb2 H.
  destruct (mag_spec a1 b1 Ha1 Hb1) as [L1 U1].
  destruct (mag_spec a2 b2 Ha2 Hb2) as [L2 U2].
  destruct (Z_le_gt_dec (mag a1 b1) (mag a2 b2)) as [Hle|Hgt]; [exact Hle|].
  exfalso.
  pose proof (above_mono a1 b1 a2 b2 _ Ha1 Hb1 Ha2 Hb2 H L1) as L.
  pose proof (above_pow a2 b2 (mag a1 b1 - 1) (mag a2 b2) 0
                Ha2 Hb2 ltac:(lia) ltac:(lia) L) as L'.
  rewrite Z.pow_0_r in L'. lia.
Qed.

Lemma fexp_ge d : emin <= fexp d.
Proof. unfold fexp. lia. Qed.

Lemma fexp_mono d d' : d <= d' -> fexp d <= fexp d'.
Proof. unfold fexp. lia. Qed.

Lemma raw_bounds a b :
  0 < a -> 0 < b ->
  0 <= raw a b <= 2 ^ prec /\
  (emin < fexp (mag a b) -> 2 ^ (prec - 1) <= raw a b).
Proof.
  intros Ha Hb. unfold raw.
  destruct (mag_spec a b Ha Hb) as [L U].
  set (d := mag a b) in *. set (e := fexp d).
  pose proof (num_pos a e Ha). pose proof (den_pos b e Hb).
  repeat split.
  - apply rne_ge; lia.
  - apply rne_le; [lia|].
    pose proof (below_pow a b d e prec Ha Hb ltac:(unfold prec; lia)
                  ltac:(unfold e, fexp; lia) U). lia.
  - intros He. apply rne_ge; [lia|].
    apply (above_pow a b (d - 1) e (prec - 1) Ha Hb);
      [unfold prec; lia | unfold e, fexp, prec in *; lia | exact L].
Qed.

Lemma round_me_units a b :
  units (round_me a b).1 (round_me a b).2
  = units (raw a b) (fexp (mag a b)).
Proof.
  unfold round_me. fold (raw a b).
  destruct (raw a b =? 2 ^ prec) eqn:E; [|reflexivity].
  apply Z.eqb_eq in E. rewrite E. simpl fst. simpl snd. unfold units.
  pose proof (fexp_ge (mag a b)).
  replace (fexp (mag a b) + 1 - emin) with (1 + (fexp (mag a b) - emin)) by lia.
  rewrite Z.pow_add_r by lia.
  replace (2 ^ prec) with (2 ^ (prec - 1) * 2 ^ 1) by reflexivity. ring.
Qed.

Lemma round_me_bounds a b :
  0 < a -> 0 < b ->
  0 <= (round_me a b).1 < 2 ^ prec /\
  emin <= (round_me a b).2 /\
  (emin < (round_me a b).2 -> 2 ^ (prec - 1) <= (round_me a b).1).
Proof.
  intros Ha Hb. destruct (raw_bounds a b Ha Hb) as [[R0 R1] R2].
  pose proof (fexp_ge (mag a b)) as He.
  unfold round_me. fold (raw a b).
  destruct (raw a b =? 2 ^ prec) eqn:E; simpl fst; simpl snd.
  - assert (2 ^ (prec - 1) = 4503599627370496) by reflexivity.
    assert (2 ^ prec = 9007199254740992) by reflexivity.
    repeat split; lia.
  - apply Z.eqb_neq in E. repeat split; lia.
Qed.

(** Rounding is monotone: a larger fraction rounds to a float that is not
    smaller. *)
Lemma round_me_mono a1 b1 a2 b2 :
  0 < a1 -> 0 < b1 -> 0 < a2 -> 0 < b2 -> a1 * b2 <= a2 * b1 ->
  units (round_me a1 b1).1 (round_me a1 b1).2
  <= units (round_me a2 b2).1 (round_me a2 b2).2.
Proof.
  intros Ha1 Hb1 Ha2 Hb2 H. rewrite !round_me_units.
  pose proof (mag_mono a1 b1 a2 b2 Ha1 Hb1 Ha2 Hb2 H) as Hd.
  pose proof (fexp_mono _ _ Hd) as He.
  destruct (raw_bounds a1 b1 Ha1 Hb1) as [[R0 R1] _].
  destruct (raw_bounds a2 b2 Ha2 Hb2) as [[S0 _] S2].
  pose proof (fexp_ge (mag a1 b1)) as G1.
  unfold raw in *.
  remember (fexp (mag a1 b1)) as e1 eqn:E1.
  remember (fexp (mag a2 b2)) as e2 eqn:E2.
  unfold units.
  destruct (Z.eq_dec e1 e2) as [Heq|Hne].
  - subst e2. rewrite <- Heq.
    apply Z.mul_le_mono_nonneg_r; [apply Z.pow_nonneg; lia|].
    apply rne_mono; [apply den_pos; lia | apply den_pos; lia|].
    unfold num, den.
    pose proof (pow2_pos e1). pose proof (pow2_pos (- e1)).
    set (P := 2 ^ Z.max 0 e1) in *. set (N := 2 ^ Z.max 0 (- e1)) in *.
    transitivity ((a1 * b2) * (N * P)); [lia|].
    transitivity ((a2 * b1) * (N * P)); [|lia].
    apply Z.mul_le_mono_nonneg_r; nia.
  - assert (Hlt : e1 < e2) by lia.
    specialize (S2 ltac:(lia)).
    transitivity (2 ^ prec * 2 ^ (e1 - emin)).
    { apply Z.mul_le_mono_nonneg_r; [apply Z.pow_nonneg; lia | lia]. }
    transitivity (2 ^ (prec - 1) * 2 ^ (e2 - emin)).
    { rewrite <- !Z.pow_add_r by (unfold prec; lia).
      apply Z.pow_le_mono_r; unfold prec; lia. }
    apply Z.mul_le_mono_nonneg_r; [apply Z.pow_nonneg; lia | lia].
Qed.

End RoundFacts.

(** ** The operations on floats *)

Module OpFacts.
Import Float RoundFacts.

Lemma top_split : top = 2 ^ (prec - 1) * 2 ^ (emax - prec + 1 - emin).
Proof. reflexivity. Qed.

Lemma units_nonneg m e : 0 <= m -> 0 <= units m e.
Proof. intros H. unfold units. pose proof (Z.pow_nonneg 2 (e - emin)). nia. Qed.

(** A rounding overflows exactly when its value reaches [2 ^ emax]. *)
Lemma round_me_overflow a b :
  0 < a -> 0 < b ->
  (emax - prec <? (round_me a b).2) = true
  <-> top <= units (round_me a b).1 (round_me a b).2.
Proof.
  intros Ha Hb. destruct (round_me_bounds a b Ha Hb) as [[M0 M1] [E0 M2]].
  set (m := (round_me a b).1) in *. set (e := (round_me a b).2) in *.
  unfold units. rewrite Z.ltb_lt. split.
  - intros He. specialize (M2 ltac:(unfold emin, emax, prec in *; lia)).
    rewrite top_split.
    assert (2 ^ (emax - prec + 1 - emin) <= 2 ^ (e - emin))
      by (apply Z.pow_le_mono_r; unfold emin, emax, prec in *; lia).
    assert (0 < 2 ^ (emax - prec + 1 - emin)) by reflexivity.
    assert (0 < 2 ^ (prec - 1)) by reflexivity.
    nia.
  - intros Ht. destruct (Z_lt_le_dec (emax - prec) e) as [Hlt|Hle]; [exact Hlt|].
    exfalso.
    assert (2 ^ (e - emin) <= 2 ^ (emax - prec - emin))
      by (apply Z.pow_le_mono_r; unfold emin, emax, prec in *; lia).
    assert (0 < 2 ^ (e - emin)) by (apply Z.pow_pos_nonneg; lia).
    assert (top = 2 ^ prec * 2 ^ (emax - prec - emin)) by reflexivity.
    assert (0 < 2 ^ (emax - prec - emin)) by reflexivity.
    nia.
Qed.

(** The value of a rounding, in units, capped at the infinite one. *)
Lemma ulps_round a b :
  ulps (round false a b)
  = Z.min (units (round_me (Zpos a) (Zpos b)).1 (round_me (Zpos a) (Zpos b)).2) top.
Proof.
  pose proof (round_me_bounds (Zpos a) (Zpos b) ltac:(lia) ltac:(lia))
    as [[M0 M1] [E0 M2]].
  pose proof (round_me_overflow (Zpos a) (Zpos b) ltac:(lia) ltac:(lia)) as Ho.
  unfold round.
  destruct (round_me (Zpos a) (Zpos b)) as [m e]. simpl fst in *. simpl snd in *.
  destruct m as [|p|p]; [| |lia].
  - simpl. unfold units. rewrite Z.mul_0_l. reflexivity.
  - destruct (emax - prec <? e) eqn:E.
    + simpl. fold top. apply proj1 in Ho. specialize (Ho eq_refl). lia.
    + simpl.
      assert (~ top <= units (Zpos p) e) by (intros Ht; apply Ho in Ht; congruence).
      lia.
Qed.

Lemma round_mono a1 b1 a2 b2 :
  (Zpos a1 * Zpos b2 <= Zpos a2 * Zpos b1) ->
  ulps (round false a1 b1) <= ulps (round false a2 b2).
Proof.
  intros H. rewrite !ulps_round.
  pose proof (round_me_mono (Zpos a1) (Zpos b1) (Zpos a2) (Zpos b2)
                ltac:(lia) ltac:(lia) ltac:(lia) ltac:(lia) H).
  lia.
Qed.

Lemma round_nonneg a b : nonneg (round false a b).
Proof.
  pose proof (round_me_bounds (Zpos a) (Zpos b) ltac:(lia) ltac:(lia))
    as [_ [E0 _]].
  unfold round. destruct (round_me (Zpos a) (Zpos b)) as [m e]. simpl in E0.
  destruct m; simpl; try reflexivity.
  destruct (emax - prec <? e); simpl; auto.
Qed.

Lemma ulps_nonneg x : nonneg x -> 0 <= ulps x.
Proof.
  destruct x as [s|s| |s m e]; simpl; try contradiction.
  - lia.
  - intros ->. apply Z.pow_nonneg. lia.
  - intros [-> _]. apply units_nonneg. lia.
Qed.

(** The three kinds of non-negative floats, told apart by their units. *)
Lemma nonneg_cases x :
  nonneg x ->
  (x = S754_zero false /\ ulps x = 0) \/
  (exists m e, x = S754_finite false m e /\ emin <= e /\ 0 < ulps x) \/
  (x = S754_infinity false /\ ulps x = top).
Proof.
  destruct x as [s|s| |s m e]; simpl; try contradiction.
  - intros ->. now left.
  - intros ->. right. right. split; reflexivity.
  - intros [-> He]. right. left. exists m, e. repeat split; try assumption.
    unfold units. assert (0 < 2 ^ (e - emin)) by (apply Z.pow_pos_nonneg; lia).
    nia.
Qed.

Lemma ulps_round_lt_top a b :
  ulps (round false a b) < top ->
  round false a b = S754_zero false \/
  exists m e, round false a b = S754_finite false m e /\ emin <= e.
Proof.
  intros H. destruct (nonneg_cases _ (round_nonneg a b))
    as [[E _]|[(m & e & E & He & _)|[_ E]]]; [now left| |lia].
  right. eauto.
Qed.

(** [int] of a float that is not negative is its number of whole units. *)
Lemma int_units x :
  nonneg x -> ulps x < top -> int x = Ok (ulps x / 2 ^ (- emin)).
Proof.
  intros Hn Ht. destruct (nonneg_cases x Hn)
    as [[-> _]|[(m & e & -> & He & _)|[_ E]]]; [reflexivity| |lia].
  unfold int, ulps, units. f_equal.
  pose proof (eq_refl : emin = -1074) as Hemin.
  destruct (0 <=? e) eqn:E0.
  - apply Z.leb_le in E0.
    replace (e - emin) with (e + - emin) by lia.
    rewrite Z.pow_add_r by lia.
    rewrite Z.mul_assoc, Z.div_mul; [reflexivity|].
    apply Z.pow_nonzero; lia.
  - apply Z.leb_gt in E0.
    replace (2 ^ (- emin)) with (2 ^ (- e) * 2 ^ (e - emin)).
    + rewrite Z.div_mul_cancel_r; [reflexivity| |]; apply Z.pow_nonzero; lia.
    + rewrite <- Z.pow_add_r by lia. f_equal. lia.
Qed.

(** *** The operations as roundings of fractions *)

Lemma positive_finite_ulps x : positive_finite x -> 0 < ulps x.
Proof.
  intros (m & e & -> & He). simpl. unfold units.
  assert (0 < 2 ^ (e - emin)) by (apply Z.pow_pos_nonneg; lia). nia.
Qed.

Lemma of_Z_round k : 0 < k -> of_Z k = round false (Z.to_pos k) 1.
Proof. destruct k; try lia. reflexivity. Qed.

Lemma frac_transfer A B A' B' X Y X' Y' :
  0 < B -> 0 < B' -> 0 < Y -> 0 < Y' ->
  A * Y = X * B -> A' * Y' = X' * B' -> X * Y' <= X' * Y ->
  A * B' <= A' * B.
Proof.
  intros HB HB' HY HY' E E' H.
  apply (Z.mul_le_mono_pos_r _ _ (Y * Y')); [nia|].
  replace (A * B' * (Y * Y')) with ((A * Y) * (B' * Y')) by ring.
  replace (A' * B * (Y * Y')) with ((A' * Y') * (B * Y)) by ring.
  rewrite E, E'.
  replace (X * B * (B' * Y')) with ((X * Y') * (B * B')) by ring.
  replace (X' * B' * (B * Y)) with ((X' * Y) * (B * B')) by ring.
  apply Z.mul_le_mono_nonneg_r; nia.
Qed.

(** [x / y] is the rounding of a fraction [A / B] equal to
    [ulps x / ulps y]. *)
Lemma div_round x y :
  positive_finite x -> positive_finite y ->
  exists A B, div x y = round false A B /\
              Zpos A * ulps y = ulps x * Zpos B.
Proof.
  intros (mx & ex & -> & Hx) (my & ey & -> & Hy).
  exists (Z.to_pos (num (Zpos mx) (ey - ex))),
         (Z.to_pos (num (Zpos my) (ex - ey))).
  split; [reflexivity|].
  rewrite !Z2Pos.id by (apply num_pos; lia).
  simpl ulps. unfold units, num.
  replace (Z.pos mx * 2 ^ Z.max 0 (- (ey - ex)) * (Z.pos my * 2 ^ (ey - emin)))
    with (Z.pos mx * Z.pos my * (2 ^ Z.max 0 (- (ey - ex)) * 2 ^ (ey - emin)))
    by ring.
  replace (Z.pos mx * 2 ^ (ex - emin) * (Z.pos my * 2 ^ Z.max 0 (- (ex - ey))))
    with (Z.pos mx * Z.pos my * (2 ^ (ex - emin) * 2 ^ Z.max 0 (- (ex - ey))))
    by ring.
  rewrite <- !Z.pow_add_r by lia. do 2 f_equal. lia.
Qed.

(** [x * y] is the rounding of a fraction [A / B] equal to
    [ulps x * ulps y / 2 ^ (- emin) / 2 ^ (- emin)]. *)
Lemma mul_round x y :
  positive_finite x -> positive_finite y ->
  exists A B, mul x y = round false A B /\
              Zpos A * (2 ^ (- emin) * 2 ^ (- emin))
              = ulps x * ulps y * Zpos B.
Proof.
  intros (mx & ex & -> & Hx) (my & ey & -> & Hy).
  exists (Z.to_pos (num (Zpos (mx * my)) (- (ex + ey)))),
         (Z.to_pos (den 1 (- (ex + ey)))).
  split; [reflexivity|].
  rewrite !Z2Pos.id by (try apply num_pos; try apply den_pos; lia).
  simpl ulps. unfold units, num, den. rewrite Pos2Z.inj_mul.
  pose proof (eq_refl : emin = -1074) as Hemin.
  replace (Z.pos mx * Z.pos my * 2 ^ Z.max 0 (- - (ex + ey))
           * (2 ^ (- emin) * 2 ^ (- emin)))
    with (Z.pos mx * Z.pos my
          * (2 ^ Z.max 0 (- - (ex + ey)) * 2 ^ (- emin) * 2 ^ (- emin)))
    by ring.
  replace (Z.pos mx * 2 ^ (ex - emin) * (Z.pos my * 2 ^ (ey - emin))
           * (1 * 2 ^ Z.max 0 (- (ex + ey))))
    with (Z.pos mx * Z.pos my
          * (2 ^ (ex - emin) * 2 ^ (ey - emin) * 2 ^ Z.max 0 (- (ex + ey))))
    by ring.
  rewrite <- !Z.pow_add_r by lia. do 2 f_equal. lia.
Qed.

Lemma div_bounded x y c d :
  positive_finite x -> positive_finite y ->
  ulps x * Zpos d <= Zpos c * ulps y ->
  ulps (div x y) <= ulps (round false c d).
Proof.
  intros Hx Hy H. destruct (div_round x y Hx Hy) as (A & B & -> & E).
  pose proof (positive_finite_ulps y Hy).
  apply round_mono.
  apply (frac_transfer _ _ _ _ (ulps x) (ulps y) (Zpos c * ulps y) (Zpos d * ulps y));
    try lia; try nia.
Qed.

Lemma div_mono x x' y :
  positive_finite x -> positive_finite x' -> positive_finite y ->
  ulps x <= ulps x' -> ulps (div x y) <= ulps (div x' y).
Proof.
  intros Hx Hx' Hy H.
  destruct (div_round x y Hx Hy) as (A & B & -> & E).
  destruct (div_round x' y Hx' Hy) as (A' & B' & -> & E').
  pose proof (positive_finite_ulps y Hy).
  apply round_mono.
  apply (frac_transfer _ _ _ _ (ulps x) (ulps y) (ulps x') (ulps y));
    try lia; try nia.
Qed.

Lemma mul_bounded x y c :
  positive_finite x -> positive_finite y ->
  ulps x * ulps y <= Zpos c * (2 ^ (- emin) * 2 ^ (- emin)) ->
  ulps (mul x y) <= ulps (round false c 1).
Proof.
  intros Hx Hy H. destruct (mul_round x y Hx Hy) as (A & B & -> & E).
  apply round_mono.
  assert (HU : 0 < 2 ^ (- emin) * 2 ^ (- emin)) by reflexivity.
  set (U := 2 ^ (- emin) * 2 ^ (- emin)) in *.
  apply (Z.mul_le_mono_pos_r _ _ U); [lia|].
  replace (Z.pos A * 1 * U) with (Z.pos A * U) by ring. rewrite E.
  replace (Z.pos c * Z.pos B * U) with (Z.pos c * U * Z.pos B) by ring.
  apply Z.mul_le_mono_nonneg_r; lia.
Qed.

Lemma mul_mono x x' y :
  positive_finite x -> positive_finite x' -> positive_finite y ->
  ulps x <= ulps x' -> ulps (mul x y) <= ulps (mul x' y).
Proof.
  intros Hx Hx' Hy H.
  destruct (mul_round x y Hx Hy) as (A & B & -> & E).
  destruct (mul_round x' y Hx' Hy) as (A' & B' & -> & E').
  pose proof (positive_finite_ulps x Hx). pose proof (positive_finite_ulps y Hy).
  apply round_mono.
  assert (HU : 0 < 2 ^ (- emin) * 2 ^ (- emin)) by reflexivity.
  set (U := 2 ^ (- emin) * 2 ^ (- emin)) in *.
  apply (Z.mul_le_mono_pos_r _ _ U); [lia|].
  replace (Z.pos A * Z.pos B' * U) with (Z.pos A * U * Z.pos B') by ring.
  replace (Z.pos A' * Z.pos B * U) with (Z.pos A' * U * Z.pos B) by ring.
  rewrite E, E'.
  replace (ulps x * ulps y * Z.pos B * Z.pos B')
    with (ulps x * (ulps y * Z.pos B * Z.pos B')) by ring.
  replace (ulps x' * ulps y * Z.pos B' * Z.pos B)
    with (ulps x' * (ulps y * Z.pos B * Z.pos B')) by ring.
  apply Z.mul_le_mono_nonneg_r; nia.
Qed.

(** *** The percentage *)

Lemma ulps_one : ulps (round false 1 1) = unit1.
Proof. vm_compute. reflexivity. Qed.

Lemma ulps_85 : ulps (round false 85 1) = 85 * unit1.
Proof. vm_compute. reflexivity. Qed.

Lemma ulps_limit : ulps (round false (Z.to_pos limit) 1) = limit * unit1.
Proof. vm_compute. reflexivity. Qed.

Lemma ulps_85_limit : ulps (round false (Z.to_pos (85 * limit)) 1) = 85 * limit * unit1.
Proof. vm_compute. reflexivity. Qed.

Lemma limit_below_top : 85 * limit * unit1 < top.
Proof. vm_compute. reflexivity. Qed.

Lemma unit1_pos : 0 < unit1.
Proof. reflexivity. Qed.

Lemma limit_pos : 0 < limit.
Proof. reflexivity. Qed.

Lemma of_Z_finite k :
  0 < k <= limit ->
  positive_finite (of_Z k) /\ unit1 <= ulps (of_Z k) <= limit * unit1.
Proof.
  intros [H0 H1]. rewrite (of_Z_round k H0).
  assert (L : unit1 <= ulps (round false (Z.to_pos k) 1)).
  { rewrite <- ulps_one. apply round_mono. rewrite Z2Pos.id; lia. }
  assert (U : ulps (round false (Z.to_pos k) 1) <= limit * unit1).
  { rewrite <- ulps_limit. apply round_mono.
    rewrite !Z2Pos.id by (try exact limit_pos; lia). lia. }
  split; [|lia].
  pose proof unit1_pos. pose proof limit_below_top. pose proof limit_pos.
  destruct (nonneg_cases _ (round_nonneg (Z.to_pos k) 1))
    as [[_ E]|[(m & e & E & He & _)|[_ E]]]; [lia| |nia].
  exists m, e. split; assumption.
Qed.

Lemma of_Z_85 : positive_finite (of_Z 85) /\ ulps (of_Z 85) = 85 * unit1.
Proof.
  split; [|vm_compute; reflexivity].
  eexists _, _. split; [reflexivity|]. vm_compute. discriminate.
Qed.

Lemma quotient_cases k n :
  0 < k <= limit -> 0 < n <= limit ->
  (div (of_Z k) (of_Z n) = S754_zero false \/
   positive_finite (div (of_Z k) (of_Z n))) /\
  ulps (div (of_Z k) (of_Z n)) <= limit * unit1.
Proof.
  intros Hk Hn.
  destruct (of_Z_finite k Hk) as [Fk [Lk Uk]].
  destruct (of_Z_finite n Hn) as [Fn [Ln Un]].
  pose proof unit1_pos. pose proof limit_below_top. pose proof limit_pos.
  assert (B : ulps (div (of_Z k) (of_Z n)) <= limit * unit1).
  { rewrite <- ulps_limit. apply div_bounded; try assumption.
    rewrite Z2Pos.id by lia. nia. }
  split; [|exact B].
  destruct (div_round _ _ Fk Fn) as (A & B' & E & _). rewrite E in *.
  destruct (ulps_round_lt_top A B' ltac:(nia)) as [Hz|(m & e & Hf & He)].
  - now left.
  - right. exists m, e. split; assumption.
Qed.

Lemma scaled_bounds k n :
  0 < k <= limit -> 0 < n <= limit ->
  nonneg (scaled k n) /\ 0 <= ulps (scaled k n) <= 85 * limit * unit1.
Proof.
  intros Hk Hn. unfold scaled.
  destruct (quotient_cases k n Hk Hn) as [[Hz|Hf] B].
  - rewrite Hz. pose proof unit1_pos. pose proof limit_pos.
    split; [reflexivity|]. simpl ulps. nia.
  - destruct of_Z_85 as [F85 U85].
    destruct (mul_round _ _ Hf F85) as (A & B' & E & _).
    assert (Hb : ulps (mul (div (of_Z k) (of_Z n)) (of_Z 85)) <= 85 * limit * unit1).
    { rewrite <- ulps_85_limit. apply mul_bounded; try assumption.
      rewrite U85, Z2Pos.id by reflexivity. fold unit1.
      pose proof unit1_pos. nia. }
    rewrite E in *. split; [apply round_nonneg|].
    split; [apply ulps_nonneg, round_nonneg | exact Hb].
Qed.

Lemma scaled_mono k k' n :
  0 < k -> k <= k' -> k' <= limit -> 0 < n <= limit ->
  ulps (scaled k n) <= ulps (scaled k' n).
Proof.
  intros H0 H1 H2 Hn. unfold scaled.
  destruct (of_Z_finite k ltac:(lia)) as [Fk _].
  destruct (of_Z_finite k' ltac:(lia)) as [Fk' _].
  destruct (of_Z_finite n Hn) as [Fn _].
  assert (Hq : ulps (div (of_Z k) (of_Z n)) <= ulps (div (of_Z k') (of_Z n))).
  { apply div_mono; try assumption.
    rewrite (of_Z_round k), (of_Z_round k') by lia.
    apply round_mono. rewrite !Z2Pos.id by lia. lia. }
  destruct of_Z_85 as [F85 U85].
  destruct (quotient_cases k n ltac:(lia) Hn) as [[Hz|Hf] _];
    destruct (quotient_cases k' n ltac:(lia) Hn) as [[Hz'|Hf'] _].
  - rewrite Hz, Hz'. lia.
  - rewrite Hz. destruct (mul_round _ _ Hf' F85) as (A & B' & E & _).
    rewrite E. apply (ulps_nonneg _ (round_nonneg A B')).
  - pose proof (positive_finite_ulps _ Hf). rewrite Hz' in Hq. simpl in Hq. lia.
  - apply mul_mono; assumption.
Qed.

Lemma scaled_le_85 k n :
  0 < k -> k <= n -> n <= limit -> ulps (scaled k n) <= 85 * unit1.
Proof.
  intros H0 H1 H2. unfold scaled.
  destruct (of_Z_finite k ltac:(lia)) as [Fk _].
  destruct (of_Z_finite n ltac:(lia)) as [Fn _].
  pose proof unit1_pos.
  assert (Hq : ulps (div (of_Z k) (of_Z n)) <= unit1).
  { rewrite <- ulps_one. apply div_bounded; try assumption.
    rewrite (of_Z_round k), (of_Z_round n) by lia.
    pose proof (round_mono (Z.to_pos k) 1 (Z.to_pos n) 1) as Hm.
    rewrite !Z2Pos.id in Hm by lia. specialize (Hm ltac:(lia)). lia. }
  destruct of_Z_85 as [F85 U85].
  destruct (quotient_cases k n ltac:(lia) ltac:(lia)) as [[Hz|Hf] _].
  - rewrite Hz. simpl ulps. lia.
  - rewrite <- ulps_85. apply mul_bounded; try assumption.
    rewrite U85. fold unit1. pose proof (positive_finite_ulps _ Hf). nia.
Qed.

End OpFacts.

(** ** The percentage *)

Module PercentFacts.
Import Float RoundFacts OpFacts PlotNAME.

(** Within the limit the percentage is computed without an exception, and
    is ten more than the whole part of [(k / n) * 85]. *)
Lemma percent_value k n :
  0 < k <= limit -> 0 < n <= limit ->
  percent k n = Ok (10 + ulps (scaled k n) / unit1).
Proof.
  intros Hk Hn.
  destruct (scaled_bounds k n Hk Hn) as [Hnn [_ Hb]].
  pose proof limit_below_top.
  pose proof (int_units (scaled k n) Hnn ltac:(lia)) as Hi.
  destruct (of_Z_finite k Hk) as [(mk & ek & Ek & _) _].
  destruct (of_Z_finite n Hn) as [(mn & en & En & _) _].
  unfold percent, float_of_int, truediv. unfold scaled in *.
  rewrite En, Ek in *. cbn [rbind is_zero]. rewrite Hi. reflexivity.
Qed.

Lemma percent_mono k k' n p p' :
  0 < k -> k <= k' -> k' <= limit -> 0 < n <= limit ->
  percent k n = Ok p -> percent k' n = Ok p' -> p <= p'.
Proof.
  intros H0 H1 H2 Hn.
  rewrite (percent_value k n), (percent_value k' n) by lia.
  intros [= <-] [= <-].
  pose proof (scaled_mono k k' n H0 H1 H2 Hn).
  pose proof unit1_pos.
  assert (ulps (scaled k n) / unit1 <= ulps (scaled k' n) / unit1)
    by (apply Z.div_le_mono; lia).
  lia.
Qed.

Lemma percent_range k n p :
  0 < k <= limit -> 0 < n <= limit -> percent k n = Ok p ->
  10 <= p /\ (k <= n -> p <= 95).
Proof.
  intros Hk Hn. rewrite (percent_value k n Hk Hn). intros [= <-].
  destruct (scaled_bounds k n Hk Hn) as [_ [H0 _]].
  pose proof unit1_pos.
  split.
  - assert (0 <= ulps (scaled k n) / unit1) by (apply Z.div_pos; lia). lia.
  - intros Hkn. pose proof (scaled_le_85 k n ltac:(lia) Hkn ltac:(lia)).
    assert (ulps (scaled k n) / unit1 <= 85 * unit1 / unit1)
      by (apply Z.div_le_mono; lia).
    rewrite Z.div_mul in * by lia. lia.
Qed.



End PercentFacts.

(** ** Running the handler's computations *)

Module Run.
Import Float PercentFacts PlotNAME PlotProps.

Lemma bind_ok {A B} (m : M A) (k : A -> M B) st a st1 :
  m st = (Ok a, st1) -> bind m k st = k a st1.
Proof. intros H. unfold bind. now rewrite H. Qed.

Lemma bind_raise {A B} (m : M A) (k : A -> M B) st e st1 :
  m st = (Raise e, st1) -> bind m k st = (Raise e, st1).
Proof. intros H. unfold bind. now rewrite H. Qed.

Section Always.
Context (R : state -> state -> Prop) `{!Reflexive R, !Transitive R}.

Lemma always_ret {A} (a : A) : always R (ret a).
Proof. intros st r st' [= <- <-]. reflexivity. Qed.

Lemma always_raise {A} e : always R (@raise A e).
Proof. intros st r st' [= <- <-]. reflexivity. Qed.

Lemma always_lift {A} (x : result A) : always R (lift x).
Proof. intros st r st' [= <- <-]. reflexivity. Qed.

Lemma always_get {A} (f : state -> A) : always R (get f).
Proof. intros st r st' [= <- <-]. reflexivity. Qed.

Lemma always_bind {A B} (m : M A) (k : A -> M B) :
  always R m -> (forall a, always R (k a)) -> always R (bind m k).
Proof.
  intros Hm Hk st r st'. unfold bind.
  destruct (m st) as [[a|e] st1] eqn:E.
  - intros H. transitivity st1; [eapply Hm | eapply Hk]; eassumption.
  - intros [= <- <-]. eapply Hm; eassumption.
Qed.

Lemma always_for_each {A} (l : list A) (body : A -> M unit) :
  (forall x, always R (body x)) -> always R (for_each l body).
Proof.
  intros Hb. induction l as [|x l IH]; simpl.
  - apply always_ret.
  - apply always_bind; [apply Hb | intros _; exact IH].
Qed.

End Always.

(** *** The progress lines *)

Lemma progress_ok st newper :
  percent (plots_made st + 1) (tot_plots st) = Ok newper ->
  progress st
  = (Ok tt,
     if oldper st =? newper then with_plots_made (plots_made st + 1) st
     else with_oldper newper
            (with_status (fun s => (s ++ [("Plotting", newper)])%list)
               (with_plots_made (plots_made st + 1) st))).
Proof.
  intros H. unfold progress, bind, get, modify, lift, update_status, ret.
  simpl. rewrite H. destruct (oldper st =? newper); reflexivity.
Qed.

Lemma progress_raise st e :
  percent (plots_made st + 1) (tot_plots st) = Raise e ->
  progress st = (Raise e, with_plots_made (plots_made st + 1) st).
Proof.
  intros H. unfold progress, bind, get, modify, lift. simpl. now rewrite H.
Qed.

Lemma render_unfold w j st :
  render w j st = progress (with_log (fun l => (l ++ [log_of w j])%list) st).
Proof.
  unfold render, log_of, bind, logger, modify.
  destruct (drawMap w j); reflexivity.
Qed.

Lemma last_snoc {A} (l : list A) (x : A) : last (l ++ [x]) = Some x.
Proof. induction l as [|y [|z l] IH]; simpl in *; auto. Qed.


End Run.

(** ** The progress report while the groups are plotted *)

Module Progress.
Import Float PercentFacts PlotNAME PlotProps Run.

#[export] Instance steady_refl : Reflexive steady.
Proof. intros st. unfold steady. split; [reflexivity|]. split; [lia|auto]. Qed.

#[export] Instance steady_trans : Transitive steady.
Proof.
  intros s1 s2 s3 (T1 & P1 & G1) (T2 & P2 & G2). unfold steady.
  split; [congruence|]. split; [lia|].
  intros Hp Hl Hg. apply G2; [lia | lia |]. apply G1; [lia | lia | exact Hg].
Qed.

#[export] Instance same_counters_refl : Reflexive same_counters.
Proof. intros st. unfold same_counters. auto. Qed.

#[export] Instance same_counters_trans : Transitive same_counters.
Proof.
  intros s1 s2 s3 (A1 & B1 & C1 & D1) (A2 & B2 & C2 & D2).
  unfold same_counters. repeat split; congruence.
Qed.

Lemma same_counters_steady st st' : same_counters st st' -> steady st st'.
Proof.
  intros (A & B & C & D). unfold steady, good, percents.
  rewrite A, B, C, D. split; [reflexivity|]. split; [lia|auto].
Qed.

(** The operations on the temporary directories leave the counters. *)
Lemma with_tmpfs_same f st : same_counters st (with_tmpfs f st).
Proof. repeat split. Qed.

Lemma listdir_same d : always same_counters (listdir d).
Proof.
  intros st r st'. unfold listdir, bind, get.
  destruct (tmpfs st !! d); intros [= <- <-]; reflexivity.
Qed.

Lemma rmtree_same d : always same_counters (rmtree d).
Proof.
  intros st r st'. unfold rmtree, bind, get, modify, raise.
  destruct (tmpfs st !! d); intros [= <- <-];
    [apply with_tmpfs_same | reflexivity].
Qed.

Lemma copy_same f d : always same_counters (copy f d).
Proof.
  intros st r st'. unfold copy, bind, get, modify, raise.
  destruct (tmpfs st !! d); intros [= <- <-];
    [apply with_tmpfs_same | reflexivity].
Qed.

Lemma mkdtemp_same : always same_counters mkdtemp.
Proof.
  intros st r st'. unfold mkdtemp, bind, get, modify, ret.
  intros [= <- <-]. apply with_tmpfs_same.
Qed.

Lemma group_files_same entries : forall groups,
  always same_counters (group_files entries groups).
Proof.
  induction entries as [|f entries IH]; intros groups; simpl.
  - apply always_ret; apply _.
  - destruct (negb (Str.endswith "txt" f)); [apply IH|].
    apply always_bind; try apply _; [apply always_lift; apply _|].
    intros g. destruct (groups !! g).
    + apply always_bind; try apply _; [apply copy_same | intros _; apply IH].
    + apply always_bind; try apply _; [apply mkdtemp_same|]. intros d.
      apply always_bind; try apply _; [apply copy_same | intros _; apply IH].
Qed.

(** One render keeps the report good. *)
Lemma render_steady w j : always steady (render w j).
Proof.
  intros st r st'. rewrite render_unfold.
  set (st0 := with_log (fun l => (l ++ [log_of w j])%list) st).
  destruct (percent (plots_made st0 + 1) (tot_plots st0)) as [newper|e] eqn:E.
  - rewrite (progress_ok st0 newper E). intros [= <- <-].
    change (plots_made st0) with (plots_made st) in *.
    change (tot_plots st0) with (tot_plots st) in *.
    change (oldper st0) with (oldper st).
    unfold steady.
    assert (Hsplit :
      forall X : state,
        X = (if oldper st =? newper
             then with_plots_made (plots_made st + 1) st0
             else with_oldper newper
                    (with_status (fun s => (s ++ [("Plotting", newper)])%list)
                       (with_plots_made (plots_made st + 1) st0))) ->
        tot_plots X = tot_plots st /\
        plots_made st <= plots_made X /\
        (plots_made X <= tot_plots st -> tot_plots st <= limit -> good st -> good X)).
    { intros X ->. destruct (oldper st =? newper) eqn:Eo; simpl;
        (split; [reflexivity|]); (split; [lia|]);
        intros Hp Hl (S1 & S2 & S3 & S4 & S5 & S6 & S7);
        destruct (percent_range (plots_made st + 1) (tot_plots st) newper
                    ltac:(lia) ltac:(lia) E) as [R1 R2];
        specialize (R2 Hp);
        assert (Hle : oldper st <= newper)
          by (destruct (Z.eq_dec (plots_made st) 0) as [Hz|Hnz];
              [rewrite (S6 Hz); lia
              | apply (percent_mono (plots_made st) (plots_made st + 1)
                         (tot_plots st)); try lia;
                [apply S7; lia | exact E]]).
      - apply Z.eqb_eq in Eo. unfold good, percents in *. simpl.
        repeat split; try assumption; try lia. intros _. congruence.
      - unfold good, percents in *. simpl. rewrite fmap_app. simpl.
        repeat split; try lia.
        + apply StronglySorted_app_2; [|assumption|repeat constructor].
          intros x1 x2 H1 H2. apply list_elem_of_singleton in H2. subst x2.
          rewrite Forall_forall in S3. specialize (S3 x1 H1). lia.
        + apply Run.last_snoc.
        + apply Forall_app. split.
          * eapply Forall_impl; [exact S3|]. simpl. intros; lia.
          * repeat constructor. lia.
        + intros _. exact E. }
    apply Hsplit. reflexivity.
  - rewrite (progress_raise st0 e E). intros [= <- <-]. unfold steady. simpl.
    split; [reflexivity|]. split; [lia|].
    intros Hp Hl (S1 & S2 & S3 & S4 & S5 & S6 & S7). exfalso.
    change (plots_made st0) with (plots_made st) in E.
    change (tot_plots st0) with (tot_plots st) in E.
    rewrite (percent_value (plots_made st + 1) (tot_plots st)) in E by lia.
    discriminate.
Qed.

Lemma plot_files_steady w q mode d entries :
  always steady (plot_files w q mode d entries).
Proof.
  induction entries as [|f entries IH]; simpl.
  - apply always_ret; apply _.
  - destruct (Str.contains "_group" f && Str.endswith ".txt" f); [|exact IH].
    destruct (String.eqb mode "day").
    { apply always_bind; try apply _; [apply render_steady | intros _; exact IH]. }
    destruct (String.eqb mode "NA"); [|exact IH].
    destruct (timestamp q) as [t|].
    + destruct (bool_decide (t ∈ timestamps w f)); [apply render_steady | exact IH].
    + apply always_bind; try apply _; [|intros _; exact IH].
      apply always_for_each; try apply _. intros c. apply render_steady.
Qed.

Lemma always_weaken {A} (R R' : state -> state -> Prop) (m : M A) :
  (forall st st', R st st' -> R' st st') -> always R m -> always R' m.
Proof. intros H Hm st r st' E. apply H. eapply Hm. exact E. Qed.

Lemma plot_group_steady w q mode item : always steady (plot_group w q mode item).
Proof.
  unfold plot_group.
  apply always_bind; try apply _.
  { destruct (negb (String.eqb mode "NA")).
    - eapply always_weaken; [apply same_counters_steady | apply listdir_same].
    - apply always_ret; apply _. }
  intros s. apply always_bind; try apply _.
  - destruct (String.eqb mode "week").
    { apply always_for_each; try apply _. intros week.
      destruct (Z.of_nat (length (sumWeek w s week)) =? 0);
        [apply always_ret; apply _ | apply render_steady]. }
    destruct (String.eqb mode "month").
    { apply always_for_each; try apply _. intros month.
      destruct (Z.of_nat (length (sumMonth w s month)) =? 0);
        [apply always_ret; apply _ | apply render_steady]. }
    destruct (String.eqb mode "all"); [apply render_steady|].
    apply always_bind; try apply _.
    + eapply always_weaken; [apply same_counters_steady | apply listdir_same].
    + intros entries. apply plot_files_steady.
  - intros _. eapply always_weaken; [apply same_counters_steady | apply rmtree_same].
Qed.

Lemma plot_groups_steady w q mode groups :
  always steady (plot_groups w q mode groups).
Proof.
  unfold plot_groups. apply always_for_each; try apply _.
  intros item. apply plot_group_steady.
Qed.

End Progress.

(** ** The progress report of a whole request *)

Module Handler.
Import Float PercentFacts PlotNAME PlotProps Run Progress.

Lemma package_same w q : always same_counters (package w q).
Proof.
  intros st r st'. unfold package.
  destruct (outdir_entries w) as [entries|]; [|intros [= <- <-]; reflexivity].
  destruct (Z.of_nat (length entries) =? 1).
  - destruct (entries !! 0%nat); intros [= <- <-]; reflexivity.
  - unfold bind, modify, ret. intros [= <- <-]. repeat split.
Qed.

Lemma sorted_snoc (l : list Z) (x : Z) :
  StronglySorted Z.le l -> Forall (fun p => p <= x) l ->
  StronglySorted Z.le (l ++ [x]).
Proof.
  intros Hs Hf. apply StronglySorted_app_2; [|exact Hs|repeat constructor].
  intros x1 x2 H1 H2. apply list_elem_of_singleton in H2. subst x2.
  rewrite Forall_forall in Hf. exact (Hf x1 H1).
Qed.

Lemma lookup_percent (l : list (string * Z)) i msg p :
  l !! i = Some (msg, p) -> p ∈ l.*2.
Proof.
  intros Hi. apply list_elem_of_fmap. exists (msg, p).
  split; [reflexivity|]. eapply list_elem_of_lookup_2; exact Hi.
Qed.

(** C3, as the code has it.  In a plot request whose render attempts, drawn
    or failed, do not outnumber the expected total, the percentages
    reported do not decrease, whether the handler returns or raises, and
    100 is reported only by the final 'done' update, sent after the
    packager has returned the output. *)
Theorem status_percentages_monotone (w : world) (q : request)
    (fs : gmap nat (list string)) (r : result output) (st' : state) :
  _handler w q (initial fs) = (r, st') ->
  plots_made st' <= tot_plots st' -> tot_plots st' <= limit ->
  StronglySorted Z.le (percents st') /\
  (forall i msg, status st' !! i = Some (msg, 100) ->
     msg = "done" /\ S i = length (status st') /\
     exists out st1 st2,
       r = Ok out /\ package w q st1 = (Ok out, st2) /\
       status st' = (status st2 ++ [("done", 100)])%list).
Proof.
  intros H. unfold _handler in H.
  unfold bind at 1 in H. unfold lift in H.
  destruct (check_bbox q) as [[]|e].
  2: { injection H as <- <-. intros _ _. split; [constructor|].
       intros i msg Hi. simpl in Hi. rewrite lookup_nil in Hi. discriminate. }
  destruct (Z.of_nat (length (glob_group_txt (outputs w))) =? 0).
  { injection H as <- <-. intros _ _. split; [constructor|].
    intros i msg Hi. simpl in Hi. rewrite lookup_nil in Hi. discriminate. }
  cbn [bind update_status modify get ret] in H.
  set (st1 := with_tot_plots (num_dates w)
                (with_status (fun s => (s ++ [("Processed plot parameters", 5)])%list)
                   (initial fs))) in *.
  set (mode := match timestamp q with Some _ => "NA" | None => summarise q end) in *.
  unfold bind at 1 in H.
  destruct (group_files (outputs w) ∅ st1) as [[groups|e] st2] eqn:Eg;
    pose proof (group_files_same _ _ _ _ _ Eg) as (G1 & G2 & G3 & G4).
  2: { injection H as <- <-. intros _ _. unfold percents. rewrite G1. simpl.
       split; [repeat constructor|].
       intros [|i] msg Hi; simpl in Hi; [discriminate|].
       rewrite lookup_nil in Hi. discriminate. }
  cbn [bind update_status modify get ret] in H.
  set (st3 := with_oldper 10 _) in H.
  assert (Hgood : good st3).
  { unfold good, percents, st3. simpl. rewrite G1. simpl.
    repeat split; try lia; try (repeat constructor; lia). }
  unfold bind at 1 in H.
  destruct (plot_groups w q mode groups st3) as [[[]|e] st4] eqn:Ep;
    pose proof (plot_groups_steady _ _ _ _ _ _ _ Ep) as (T1 & T2 & T3).
  2: { injection H as <- <-. intros Hp Hl. rewrite T1 in Hp, Hl.
       destruct (T3 Hp Hl Hgood) as (S1 & S2 & S3 & S4 & _).
       split; [exact S1|]. intros i msg Hi. exfalso.
       apply lookup_percent in Hi. fold (percents st4) in Hi.
       rewrite Forall_forall in S3. specialize (S3 _ Hi). lia. }
  cbn [bind update_status modify get ret] in H.
  set (st5 := with_status _ st4) in H.
  unfold bind at 1 in H.
  destruct (package w q st5) as [[out|e] st6] eqn:Ek;
    pose proof (package_same _ _ _ _ _ Ek) as (K1 & K2 & K3 & K4).
  - cbn [bind update_status modify get ret] in H. injection H as <- <-.
    cbn [plots_made tot_plots with_status]. rewrite K3, K2.
    cbn [plots_made tot_plots with_status st5]. rewrite T1.
    intros Hp Hl. destruct (T3 Hp Hl Hgood) as (S1 & S2 & S3 & S4 & _).
    assert (S5 : Forall (fun p => p <= 95) (percents st4)).
    { eapply Forall_impl; [exact S3|]. simpl. intros; lia. }
    assert (E6 : status st6 = (status st4 ++ [("Formatting output", 95)])%list)
      by (rewrite K1; reflexivity).
    unfold percents in *. cbn [status with_status]. rewrite E6.
    split.
    + rewrite !fmap_app. simpl. apply sorted_snoc; [apply sorted_snoc; assumption|].
      apply Forall_app. split; [|repeat constructor; lia].
      eapply Forall_impl; [exact S5|]. simpl. intros; lia.
    + intros i msg Hi.
      apply lookup_app_Some in Hi as [Hl'|[Hlen Hr]].
      * exfalso. apply lookup_percent in Hl'. rewrite fmap_app in Hl'.
        apply elem_of_app in Hl' as [Hl'|Hl'].
        -- rewrite Forall_forall in S5. specialize (S5 _ Hl'). lia.
        -- simpl in Hl'. apply list_elem_of_singleton in Hl'. lia.
      * destruct (i - length (status st4 ++ [("Formatting output", 95%Z)]))%nat
          as [|n] eqn:En; simpl in Hr; [|rewrite lookup_nil in Hr; discriminate].
        injection Hr as <-. split; [reflexivity|]. split.
        -- rewrite !length_app in *. simpl in *. lia.
        -- exists out, st5, st6. repeat split; [exact Ek|].
           rewrite E6. reflexivity.
  - injection H as <- <-. rewrite K3, K2.
    cbn [plots_made tot_plots with_status st5]. rewrite T1.
    intros Hp Hl. destruct (T3 Hp Hl Hgood) as (S1 & S2 & S3 & S4 & _).
    assert (S5 : Forall (fun p => p <= 95) (percents st4)).
    { eapply Forall_impl; [exact S3|]. simpl. intros; lia. }
    unfold percents in *. rewrite K1. cbn [status with_status st5].
    split.
    + rewrite fmap_app. simpl. apply sorted_snoc; assumption.
    + intros i msg Hi. exfalso. apply lookup_percent in Hi.
      rewrite fmap_app in Hi. apply elem_of_app in Hi as [Hi|Hi].
      * rewrite Forall_forall in S5. specialize (S5 _ Hi). lia.
      * simpl in Hi. apply list_elem_of_singleton in Hi. lia.
Qed.

End Handler.

(** ** The staging directories *)

Module Cleanup.
Import Float PercentFacts PlotNAME PlotProps Run Progress.









Lemma listdir_ok d entries st :
  tmpfs st !! d = Some entries -> listdir d st = (Ok entries, st).
Proof. intros H. unfold listdir, bind, get, ret. now rewrite H. Qed.



End Cleanup.

(** ** The grouper *)

Module Grouper.
Import PlotNAME PlotProps Run Progress.

(** The group of a file is the digit at offset 14. *)
Lemma py_int_char c : Str.py_int (String c EmptyString) = Str.digit_val c.
Proof.
  destruct c as [[] [] [] [] [] [] [] []]; vm_compute; reflexivity.
Qed.

Lemma group_number_digit f g :
  group_number f = Ok g <->
  exists c, Str.index f 14 = Some c /\ Str.digit_val c = Some g.
Proof.
  unfold group_number. destruct (Str.index f 14) as [c|] eqn:Ei.
  - rewrite py_int_char. destruct (Str.digit_val c) as [d|] eqn:Ed.
    + split.
      * intros [= <-]. exists c. auto.
      * intros (c' & Hc & Hd). f_equal. congruence.
    + split; [discriminate|]. intros (c' & Hc & Hd). congruence.
  - split; [discriminate|]. intros (c' & Hc & _). discriminate.
Qed.

Lemma fog_skip g f rest :
  Str.endswith "txt" f = false ->
  files_of_group g (f :: rest) = files_of_group g rest.
Proof. intros H. unfold files_of_group. simpl. now rewrite H. Qed.

Lemma fog_same g f rest :
  Str.endswith "txt" f = true -> group_number f = Ok g ->
  files_of_group g (f :: rest) = f :: files_of_group g rest.
Proof.
  intros H1 H2. unfold files_of_group. simpl. rewrite H1, H2. simpl.
  now rewrite Z.eqb_refl.
Qed.

Lemma fog_other g g0 f rest :
  group_number f = Ok g0 -> g <> g0 ->
  files_of_group g (f :: rest) = files_of_group g rest.
Proof.
  intros H1 H2. unfold files_of_group. simpl. rewrite H1.
  destruct (g0 =? g) eqn:E; [apply Z.eqb_eq in E; congruence|].
  now rewrite andb_false_r.
Qed.

Lemma copy_ok f d l st :
  tmpfs st !! d = Some l ->
  copy f d st = (Ok tt, with_tmpfs (insert d (add_entry f l)) st).
Proof. intros H. unfold copy, bind, get, modify. now rewrite H. Qed.

Lemma mkdtemp_ok st :
  mkdtemp st
  = (Ok (fresh (dom (tmpfs st))),
     with_tmpfs (insert (fresh (dom (tmpfs st))) []) st).
Proof. reflexivity. Qed.

(** One file with a group number: the file is copied into the directory of
    its group, which is made if the group is new. *)
Lemma group_step f g0 rest groups st :
  Str.endswith "txt" f = true -> group_number f = Ok g0 ->
  grouped groups (tmpfs st) ->
  exists groups1 st1 d0,
    group_files (f :: rest) groups st = group_files rest groups1 st1 /\
    grouped groups1 (tmpfs st1) /\
    groups1 !! g0 = Some d0 /\
    (forall g, g <> g0 -> groups1 !! g = groups !! g) /\
    tmpfs st1
    = <[d0 := add_entry f (default [] (tmpfs st !! d0))]> (tmpfs st) /\
    (groups !! g0 = Some d0 \/ groups !! g0 = None /\ tmpfs st !! d0 = None).
Proof.
  intros Htxt Hg [Gex Ginj]. simpl. rewrite Htxt. simpl.
  unfold bind at 1, lift. rewrite Hg.
  destruct (groups !! g0) as [d0|] eqn:Eg.
  - destruct (Gex g0 d0 Eg) as [l0 El].
    exists groups, (with_tmpfs (insert d0 (add_entry f l0)) st), d0.
    split; [|split; [|split; [|split; [|split]]]].
    + now rewrite (bind_ok _ _ _ _ _ (copy_ok f d0 l0 st El)).
    + split.
      * intros g d H. simpl. destruct (decide (d = d0)) as [->|Hne].
        -- rewrite lookup_insert_eq. eauto.
        -- rewrite lookup_insert_ne by congruence. eauto.
      * exact Ginj.
    + exact Eg.
    + reflexivity.
    + simpl. rewrite El. reflexivity.
    + now left.
  - set (d0 := fresh (dom (tmpfs st))).
    assert (Hfresh : tmpfs st !! d0 = None).
    { apply not_elem_of_dom. apply is_fresh. }
    exists (<[g0 := d0]> groups),
      (with_tmpfs (insert d0 (add_entry f [])) (with_tmpfs (insert d0 []) st)), d0.
    split; [|split; [|split; [|split; [|split]]]].
    + rewrite (bind_ok _ _ _ _ _ (mkdtemp_ok st)). fold d0.
      rewrite (bind_ok _ _ _ _ _ (copy_ok f d0 [] (with_tmpfs (insert d0 []) st)
                                    (lookup_insert_eq _ _ _))).
      reflexivity.
    + split.
      * intros g d H. simpl. destruct (decide (d = d0)) as [->|Hne].
        -- rewrite lookup_insert_eq. eauto.
        -- rewrite !lookup_insert_ne by congruence.
           destruct (decide (g = g0)) as [->|Hg0].
           ++ rewrite lookup_insert_eq in H. congruence.
           ++ rewrite lookup_insert_ne in H by congruence. eauto.
      * intros g g' d H H'.
        destruct (decide (g = g0)) as [->|Hg0], (decide (g' = g0)) as [->|Hg0'];
          try reflexivity.
        -- rewrite lookup_insert_eq in H. rewrite lookup_insert_ne in H' by congruence.
           injection H as <-. destruct (Gex g' d0 H') as [l Hl]. congruence.
        -- rewrite lookup_insert_eq in H'. rewrite lookup_insert_ne in H by congruence.
           injection H' as <-. destruct (Gex g d0 H) as [l Hl]. congruence.
        -- rewrite lookup_insert_ne in H, H' by congruence. eauto.
    + apply lookup_insert_eq.
    + intros g Hne. apply lookup_insert_ne. congruence.
    + simpl. rewrite Hfresh. simpl. apply insert_insert_eq.
    + right. split; [reflexivity | exact Hfresh].
Qed.

Lemma add_entry_new f l : f ∉ l -> add_entry f l = (l ++ [f])%list.
Proof.
  intros H. unfold add_entry. rewrite bool_decide_eq_false_2; [reflexivity|exact H].
Qed.

(** The grouper on entries whose output files all have a group number. *)
Lemma group_files_ok entries : forall groups st,
  grouped groups (tmpfs st) ->
  NoDup entries ->
  (forall f g d l, f ∈ entries -> groups !! g = Some d ->
                   tmpfs st !! d = Some l -> f ∉ l) ->
  (forall f, f ∈ entries -> Str.endswith "txt" f = true ->
             exists g, group_number f = Ok g) ->
  exists groups' st',
    group_files entries groups st = (Ok groups', st') /\
    grouped groups' (tmpfs st') /\
    (forall g d, groups !! g = Some d -> groups' !! g = Some d) /\
    (forall g, is_Some (groups' !! g) <->
               is_Some (groups !! g) \/
               exists f, f ∈ entries /\ Str.endswith "txt" f = true /\
                         group_number f = Ok g) /\
    (forall g d, groups' !! g = Some d ->
       tmpfs st' !! d
       = Some (default [] (tmpfs st !! d) ++ files_of_group g entries)%list) /\
    (forall g d, groups' !! g = Some d -> groups !! g = None ->
                 tmpfs st !! d = None) /\
    (forall d, (forall g, groups' !! g <> Some d) ->
               tmpfs st' !! d = tmpfs st !! d).
Proof.
  induction entries as [|f rest IH]; intros groups st G Hnd Hfresh Hall.
  - exists groups, st. split; [reflexivity|]. split; [exact G|].
    split; [auto|]. split; [|split; [|split]].
    + intros g. split; [auto|]. intros [H|(f & Hf & _)]; [exact H|].
      apply elem_of_nil in Hf. contradiction.
    + intros g d H. destruct G as [Gex _]. destruct (Gex g d H) as [l Hl].
      rewrite Hl. simpl. now rewrite app_nil_r.
    + intros g d H H'. congruence.
    + reflexivity.
  - apply NoDup_cons in Hnd as [Hnotin Hnd].
    destruct (Str.endswith "txt" f) eqn:Etxt.
    + destruct (Hall f ltac:(left) Etxt) as [g0 Hg0].
      destruct (group_step f g0 rest groups st Etxt Hg0 G)
        as (groups1 & st1 & d0 & Erun & G1 & Hd0 & Hother & Hfs & Hcase).
      assert (Hl0 : f ∉ default [] (tmpfs st !! d0)).
      { destruct Hcase as [Hc|[_ Hc]].
        - destruct (tmpfs st !! d0) as [l0|] eqn:El0; simpl; [|apply not_elem_of_nil].
          eapply Hfresh; [left | exact Hc | exact El0].
        - rewrite Hc. simpl. apply not_elem_of_nil. }
      rewrite (add_entry_new _ _ Hl0) in Hfs.
      assert (Hsub : forall g d, groups !! g = Some d -> groups1 !! g = Some d).
      { intros g d H. destruct (decide (g = g0)) as [->|Hne].
        - destruct Hcase as [Hc|[Hc _]]; congruence.
        - now rewrite (Hother g Hne). }
      destruct (IH groups1 st1 G1 Hnd) as
        (groups' & st' & Erun' & G' & Hsub' & Hdom' & Hcont' & Hnew' & Hrest').
      { intros f' g d l Hf' Hg Hd. rewrite Hfs in Hd.
        destruct (decide (d = d0)) as [->|Hne].
        - rewrite lookup_insert_eq in Hd. injection Hd as <-.
          intros Hin. apply elem_of_app in Hin as [Hin|Hin].
          + destruct Hcase as [Hc|[_ Hc]].
            * destruct (tmpfs st !! d0) as [l0|] eqn:El0; simpl in Hin;
                [|apply elem_of_nil in Hin; contradiction].
              exact (Hfresh f' g0 d0 l0 ltac:(right; exact Hf') Hc El0 Hin).
            * rewrite Hc in Hin. simpl in Hin. apply elem_of_nil in Hin. contradiction.
          + apply list_elem_of_singleton in Hin. subst f'. contradiction.
        - rewrite lookup_insert_ne in Hd by congruence.
          assert (g <> g0) by (intros ->; congruence).
          rewrite (Hother g) in Hg by assumption.
          exact (Hfresh f' g d l ltac:(right; exact Hf') Hg Hd). }
      { intros f' Hf'. apply Hall. now right. }
      exists groups', st'. split; [rewrite Erun; exact Erun'|].
      split; [exact G'|]. split; [auto|]. split; [|split; [|split]].
      * intros g. rewrite Hdom'. split.
        -- intros [H|(f' & Hf' & Ht & Hg)].
           ++ destruct (decide (g = g0)) as [->|Hne].
              ** right. exists f. split; [left|]. auto.
              ** left. now rewrite <- (Hother g Hne).
           ++ right. exists f'. split; [now right|]. auto.
        -- intros [[d H]|(f' & Hf' & Ht & Hg)].
           ++ left. exists d. auto.
           ++ apply elem_of_cons in Hf' as [->|Hf'].
              ** left. assert (g = g0) by congruence. subst g. eauto.
              ** right. exists f'. auto.
      * intros g d H. rewrite (Hcont' g d H), Hfs.
        destruct G' as [_ Ginj'].
        destruct (decide (d = d0)) as [->|Hne].
        -- assert (g = g0) by (eapply Ginj'; [exact H | apply Hsub'; exact Hd0]).
           subst g. rewrite (fog_same g0 f rest Etxt Hg0), lookup_insert_eq.
           simpl default. rewrite <- app_assoc. reflexivity.
        -- rewrite lookup_insert_ne by congruence.
           assert (g <> g0).
           { intros ->. rewrite (Hsub' g0 d0 Hd0) in H. congruence. }
           now rewrite (fog_other g g0 f rest Hg0).
      * intros g d H Hnone. destruct (decide (g = g0)) as [->|Hne].
        -- rewrite (Hsub' g0 d0 Hd0) in H. injection H as <-.
           destruct Hcase as [Hc|[_ Hc]]; [congruence | exact Hc].
        -- pose proof (Hnew' g d H ltac:(rewrite (Hother g Hne); exact Hnone)) as Hn.
           rewrite Hfs in Hn. destruct (decide (d = d0)) as [->|Hd].
           ++ rewrite lookup_insert_eq in Hn. discriminate.
           ++ now rewrite lookup_insert_ne in Hn by congruence.
      * intros d Hd. rewrite (Hrest' d Hd), Hfs.
        apply lookup_insert_ne. intros ->. apply (Hd g0). apply Hsub', Hd0.
    + destruct (IH groups st G Hnd) as
        (groups' & st' & Erun' & G' & Hsub' & Hdom' & Hcont' & Hnew' & Hrest').
      { intros f' g d l Hf'. apply Hfresh. now right. }
      { intros f' Hf'. apply Hall. now right. }
      exists groups', st'. split; [simpl; rewrite Etxt; exact Erun'|].
      split; [exact G'|]. split; [exact Hsub'|]. split; [|split; [|split]].
      * intros g. rewrite Hdom'. split.
        -- intros [H|(f' & Hf' & Ht & Hg)]; [now left|].
           right. exists f'. split; [now right|]. auto.
        -- intros [H|(f' & Hf' & Ht & Hg)]; [now left|].
           apply elem_of_cons in Hf' as [->|Hf']; [congruence|].
           right. exists f'. auto.
      * intros g d H. rewrite (Hcont' g d H), (fog_skip g f rest Etxt). reflexivity.
      * exact Hnew'.
      * exact Hrest'.
Qed.

(** The grouper on entries with an output file that has no group number:
    the error of the first such file. *)
Lemma group_files_raise entries : forall groups st,
  grouped groups (tmpfs st) ->
  (exists f, f ∈ entries /\ Str.endswith "txt" f = true /\
             exists e, group_number f = Raise e) ->
  exists f e st',
    f ∈ entries /\ Str.endswith "txt" f = true /\ group_number f = Raise e /\
    group_files entries groups st = (Raise e, st').
Proof.
  induction entries as [|f rest IH]; intros groups st G (f0 & Hf0 & Ht0 & e0 & He0).
  - apply elem_of_nil in Hf0. contradiction.
  - destruct (Str.endswith "txt" f) eqn:Etxt.
    + destruct (group_number f) as [g0|e] eqn:Eg.
      * destruct (group_step f g0 rest groups st Etxt Eg G)
          as (groups1 & st1 & d0 & Erun & G1 & _).
        apply elem_of_cons in Hf0 as [->|Hf0]; [congruence|].
        destruct (IH groups1 st1 G1 ltac:(eauto 6)) as (f' & e & st' & H1 & H2 & H3 & H4).
        exists f', e, st'. rewrite Erun. repeat split; auto. now right.
      * exists f, e, st. repeat split; [left | exact Etxt | exact Eg |].
        simpl. rewrite Etxt. simpl. unfold bind, lift. now rewrite Eg.
    + apply elem_of_cons in Hf0 as [->|Hf0]; [congruence|].
      destruct (IH groups st G ltac:(eauto 6)) as (f' & e & st' & H1 & H2 & H3 & H4).
      exists f', e, st'. simpl. rewrite Etxt. simpl. repeat split; auto. now right.
Qed.

(** *** The order in which the groups are plotted *)

#[export] Instance item_le_trans : Transitive item_le.
Proof. intros x y z. unfold item_le. lia. Qed.

#[export] Instance item_le_total : Total item_le.
Proof. intros x y. unfold item_le. lia. Qed.

Lemma strictly_sorted (l : list (Z * nat)) :
  StronglySorted item_le l -> NoDup l.*1 -> StronglySorted item_lt l.
Proof.
  induction 1 as [|x l Hs IH Hf]; simpl; intros Hnd; [constructor|].
  apply NoDup_cons in Hnd as [Hx Hnd]. constructor; [apply IH, Hnd|].
  rewrite Forall_forall in *. intros y Hy. specialize (Hf y Hy).
  unfold item_le, item_lt in *.
  assert (x.1 <> y.1).
  { intros E. apply Hx. rewrite E. apply list_elem_of_fmap. eauto. }
  lia.
Qed.

Lemma sorted_items_ascending (groups : gmap Z nat) :
  StronglySorted item_lt (sorted_items groups) /\
  sorted_items groups ≡ₚ map_to_list groups.
Proof.
  unfold sorted_items.
  pose proof (merge_sort_Permutation item_le (map_to_list groups)) as Hp.
  split; [|exact Hp].
  apply strictly_sorted; [apply StronglySorted_merge_sort; apply _|].
  rewrite Hp. apply NoDup_fst_map_to_list.
Qed.

(** C5, as the code has it.  The group of an output file is the decimal
    digit at offset 14 of its name.  When every entry that ends in 'txt' has
    one, the grouper returns a map with exactly the groups that occur; each
    group has a directory of its own, new and holding exactly the files of
    the group, no other directory is touched, and the groups are plotted in
    ascending order.  When an entry that ends in 'txt' has no digit there,
    the grouper raises.  Three files named so that the digit is at offset
    14 yield two groups, group 1 with two files and group 2 with one. *)
Theorem grouping_by_offset (entries : list string) (st : state) :
  NoDup entries ->
  (forall f g,
     group_number f = Ok g <->
     exists c, Str.index f 14 = Some c /\ Str.digit_val c = Some g) /\
  ((forall f, f ∈ entries -> Str.endswith "txt" f = true ->
              exists g, group_number f = Ok g) ->
   exists groups st',
     group_files entries ∅ st = (Ok groups, st') /\
     (forall g, is_Some (groups !! g) <->
                exists f, f ∈ entries /\ Str.endswith "txt" f = true /\
                          group_number f = Ok g) /\
     (forall g d, groups !! g = Some d ->
        tmpfs st !! d = None /\
        tmpfs st' !! d = Some (files_of_group g entries)) /\
     (forall g g' d, groups !! g = Some d -> groups !! g' = Some d -> g = g') /\
     (forall d, (forall g, groups !! g <> Some d) ->
                tmpfs st' !! d = tmpfs st !! d) /\
     StronglySorted item_lt (sorted_items groups) /\
     sorted_items groups ≡ₚ map_to_list groups) /\
  ((exists f, f ∈ entries /\ Str.endswith "txt" f = true /\
              exists e, group_number f = Raise e) ->
   exists f e st',
     f ∈ entries /\ Str.endswith "txt" f = true /\ group_number f = Raise e /\
     group_files entries ∅ st = (Raise e, st')) /\
  (fst (group_files ["TestRun1_group1_a.txt"; "TestRun1_group1_b.txt";
                     "TestRun1_group2_a.txt"] ∅ (initial ∅))
   = Ok {[1 := 0%nat; 2 := 1%nat]} /\
   tmpfs (snd (group_files ["TestRun1_group1_a.txt"; "TestRun1_group1_b.txt";
                            "TestRun1_group2_a.txt"] ∅ (initial ∅)))
   = {[0%nat := ["TestRun1_group1_a.txt"; "TestRun1_group1_b.txt"];
       1%nat := ["TestRun1_group2_a.txt"]]}).
Proof.
  intros Hnd. split; [exact group_number_digit|]. split; [|split].
  - intros Hall.
    assert (G0 : grouped ∅ (tmpfs st)).
    { split; intros *; rewrite lookup_empty; discriminate. }
    destruct (group_files_ok entries ∅ st G0 Hnd) as
      (groups & st' & Erun & [Gex Ginj] & _ & Hdom & Hcont & Hnew & Hrest).
    { intros f g d l _ H. rewrite lookup_empty in H. discriminate. }
    { exact Hall. }
    exists groups, st'. split; [exact Erun|].
    split; [|split; [|split; [|split; [exact Hrest | apply sorted_items_ascending]]]].
    + intros g. rewrite Hdom. split; [|auto].
      intros [[d H]|H]; [rewrite lookup_empty in H; discriminate | exact H].
    + intros g d H. pose proof (Hnew g d H (lookup_empty _)) as Hn.
      split; [exact Hn|]. rewrite (Hcont g d H), Hn. reflexivity.
    + exact Ginj.
  - apply group_files_raise. split; intros *; rewrite lookup_empty; discriminate.
  - split; vm_compute; reflexivity.
Qed.

End Grouper.

(** ** The plot process on sample requests *)

Section PlotInstances.
Import Float PlotNAME PlotProps PlotSamples Run Progress Handler Cleanup Grouper.

(** Six renders for an expected total of six. *)
Lemma status_percentages_monotone_witness :
  StronglySorted Z.le
    (percents (snd (_handler (two_groups 3 (Some ["a.png"; "b.png"]))
                             whole_globe (initial ∅)))).
Proof.
  refine (proj1 (status_percentages_monotone
                   (two_groups 3 (Some ["a.png"; "b.png"])) whole_globe ∅
                   _ _ (surjective_pairing _) _ _)).
  - vm_compute. discriminate.
  - vm_compute. discriminate.
Defined.

(** C3 as stated fails: six renders for an expected total of four, and the
    percentage goes up to 137 and back to 95. *)
Lemma status_percentages_decrease :
  percents (snd (_handler (two_groups 2 (Some ["a.png"; "b.png"]))
                          whole_globe (initial ∅)))
  = [5; 10; 31; 52; 73; 95; 116; 137; 95; 100] /\
  ~ StronglySorted Z.le
      (percents (snd (_handler (two_groups 2 (Some ["a.png"; "b.png"]))
                               whole_globe (initial ∅)))).
Proof.
  assert (E : percents (snd (_handler (two_groups 2 (Some ["a.png"; "b.png"]))
                          whole_globe (initial ∅)))
              = [5; 10; 31; 52; 73; 95; 116; 137; 95; 100])
    by (vm_compute; reflexivity).
  split; [exact E|]. rewrite E. intros H.
  change [5; 10; 31; 52; 73; 95; 116; 137; 95; 100]
    with ([5; 10; 31; 52; 73; 95; 116; 137] ++ [95; 100])%list in H.
  pose proof (StronglySorted_app_1_elem_of _ _ _ 137 95 H) as Hle.
  assert (H1 : 137 ∈ [5; 10; 31; 52; 73; 95; 116; 137])
    by (rewrite !elem_of_cons; tauto).
  assert (H2 : 95 ∈ [95; 100]) by (rewrite !elem_of_cons; tauto).
  specialize (Hle H1 H2). lia.
Qed.

Lemma grouping_by_offset_witness :
  exists groups st',
    group_files (outputs (two_groups 3 None)) ∅ (initial ∅) = (Ok groups, st') /\
    (forall g d, groups !! g = Some d ->
       tmpfs st' !! d = Some (files_of_group g (outputs (two_groups 3 None)))).
Proof.
  assert (Hnd : NoDup (outputs (two_groups 3 None))).
  { simpl. repeat (apply NoDup_cons; split; [|]); try apply NoDup_nil_2;
      rewrite ?elem_of_cons, ?elem_of_nil; intros H;
      repeat destruct H as [H|H]; try discriminate H; exact H. }
  destruct (proj1 (proj2 (grouping_by_offset (outputs (two_groups 3 None))
                            (initial ∅) Hnd)))
    as (groups & st' & Erun & _ & Hcont & _).
  - simpl. intros f Hf _. rewrite !elem_of_cons, elem_of_nil in Hf.
    destruct Hf as [->|[->|[->|[]]]]; eexists; reflexivity.
  - exists groups, st'. split; [exact Erun|]. intros g d H. apply (Hcont g d H).
Defined.

(** C5 as stated fails: in the three names of the example the character at
    offset 14 is the [x] of [txt], and the grouper raises. *)
Lemma spec_names_are_not_grouped :
  fst (group_files (outputs spec_names) ∅ (initial ∅))
  = Raise (Exception "Cannot identify groupnumber x") /\
  fst (_handler spec_names whole_globe (initial ∅))
  = Raise (Exception "Cannot identify groupnumber x").
Proof. split; vm_compute; reflexivity. Qed.



End PlotInstances.
(** ** Decimal writing *)

Module DecimalFacts.
Import Str StrFacts.







End DecimalFacts.

(** ** RunNAME.translate_elevation, the ranges it accepts *)

Section ElevationRanges.
Import Str StrFacts DecimalFacts RunNAME.





Lemma translate_ranges_iff l rs :
  translate_ranges l = Ok rs <->
  Forall2 (fun s r => translate_elevation s = Ok r) l rs.
Proof.
  revert rs. induction l as [|s l IH]; intros rs; simpl.
  - split; [intros [= <-]; constructor | intros H; inversion H; reflexivity].
  - destruct (translate_elevation s) as [r|e] eqn:Es; simpl.
    + destruct (translate_ranges l) as [rs'|e] eqn:El; simpl.
      * split.
        -- intros [= <-]. constructor; [exact Es | now apply IH].
        -- intros H. inversion H as [|? r0 ? rs0 H1 H2]; subst.
           apply IH in H2. congruence.
      * split; [discriminate|].
        intros H. inversion H as [|? r0 ? rs0 H1 H2]; subst.
        apply IH in H2. discriminate.
    + split; [discriminate|].
      intros H. inversion H; subst. congruence.
Qed.

(** X3.  The loop over the elevation ranges succeeds exactly when every
    range is accepted, and then returns the translated ranges one for one in
    the order given, each with [0 <= mini < maxi]. *)
Theorem translate_ranges_pointwise (l : list string) (rs : list (Z * Z)) :
  (translate_ranges l = Ok rs <->
   Forall2 (fun s r => translate_elevation s = Ok r) l rs) /\
  (translate_ranges l = Ok rs ->
   length rs = length l /\ Forall (fun r => 0 <= r.1 < r.2) rs).
Proof.
  split; [apply translate_ranges_iff|].
  intros H. apply translate_ranges_iff in H. split.
  - symmetry. eapply Forall2_length. exact H.
  - induction H as [|s [a b] l rs Hs _ IH]; constructor; [|exact IH].
    simpl. destruct (translate_elevation_ok_inv s a b Hs)
      as (p1 & p2 & Hsp & Ha & _ & Hlt).
    pose proof (split_no_sep "-" s) as Hf. rewrite Hsp in Hf.
    apply Forall_cons in Hf as [H1 _]. simpl in H1.
    pose proof (py_int_nonneg p1 a H1 Ha). lia.
Qed.

Lemma translate_ranges_pointwise_witness :
  length [(0, 100); (100, 500)] = length ["0-100"; "100-500"] /\
  Forall (fun r : Z * Z => 0 <= r.1 < r.2) [(0, 100); (100, 500)].
Proof.
  apply (proj2 (translate_ranges_pointwise ["0-100"; "100-500"]
                  [(0, 100); (100, 500)])).
  reflexivity.
Defined.

(** X4.  The loop over the elevation ranges fails with the error of the
    first range that is refused: the ranges before it are accepted, and
    those after it are not looked at. *)
Theorem translate_ranges_first_error (l : list string) (e : exn) :
  translate_ranges l = Raise e <->
  exists pre s post,
    l = (pre ++ s :: post)%list /\
    Forall (fun x => exists r, translate_elevation x = Ok r) pre /\
    translate_elevation s = Raise e.
Proof.
  induction l as [|s l IH]; simpl.
  - split; [discriminate|]. intros (pre & s & post & H & _).
    destruct pre; discriminate.
  - destruct (translate_elevation s) as [r|e'] eqn:Es; simpl.
    + destruct (translate_ranges l) as [rs'|e'] eqn:El; simpl.
      * split; [discriminate|].
        intros (pre & s' & post & H & Hpre & Hs').
        destruct pre as [|x pre]; simpl in H; injection H as <- ->.
        -- congruence.
        -- apply Forall_cons in Hpre as [_ Hpre].
           assert (Ok rs' = Raise e) as HH by (apply IH; eauto 6). discriminate.
      * split.
        -- intros [= <-]. destruct (proj1 IH eq_refl) as (pre & s' & post & -> & Hpre & Hs').
           exists (s :: pre), s', post. repeat split; auto.
           constructor; eauto.
        -- intros (pre & s' & post & H & Hpre & Hs').
           destruct pre as [|x pre]; simpl in H; injection H as <- ->.
           ++ congruence.
           ++ apply Forall_cons in Hpre as [_ Hpre].
              apply IH. eauto 6.
    + split.
      * intros [= <-]. exists [], s, l. repeat split; auto.
      * intros (pre & s' & post & H & Hpre & Hs').
        destruct pre as [|x pre]; simpl in H; injection H as <- ->.
        -- congruence.
        -- apply Forall_cons in Hpre as [[r Hr] _]. congruence.
Qed.

End ElevationRanges.

(** ** RunNAME: what validation accepts and how it fails *)

Section RunAcceptance.
Import Str StrFacts Datetime RunNAME.

Lemma check_bbox_ok_iff req :
  check_bbox req = Ok tt <->
  Float.ltb (min_lon req) Float.m180 = false /\
  Float.gtb (max_lon req) Float.p180 = false /\
  Float.ltb (min_lat req) Float.m90 = false /\
  Float.gtb (max_lat req) Float.p90 = false.
Proof.
  unfold check_bbox.
  destruct (Float.ltb (min_lon req) Float.m180),
    (Float.gtb (max_lon req) Float.p180),
    (Float.ltb (min_lat req) Float.m90),
    (Float.gtb (max_lat req) Float.p90);
    split; try discriminate; try tauto;
    intros (H1 & H2 & H3 & H4); discriminate.
Qed.

Lemma check_bbox_invalid req e :
  check_bbox req = Raise e -> exists m, e = InvalidParameterValue m.
Proof.
  unfold check_bbox.
  repeat match goal with |- context [if ?c then _ else _] => destruct c end;
    intros [= <-]; eauto.
Qed.

Lemma check_dates_ok_iff s e :
  check_dates s e = Ok tt <->
  0 <= e + days 1 <= Datetime.max /\ s < e + days 1 /\ e + days 1 - s < days 93.
Proof.
  unfold check_dates, add, sub.
  destruct (0 <=? e + days 1) eqn:E1, (e + days 1 <=? Datetime.max) eqn:E2;
    simpl; try (split; [discriminate | lia]).
  rewrite !Z.geb_leb.
  destruct (e + days 1 <=? s) eqn:E3; [split; [discriminate | lia]|].
  destruct (days 93 <=? e + days 1 - s) eqn:E4; [split; [discriminate | lia]|].
  split; [lia | reflexivity].
Qed.

Lemma check_dates_errors s e x :
  check_dates s e = Raise x ->
  (exists m, x = InvalidParameterValue m) \/
  x = OverflowError "date value out of range" /\
  ~ 0 <= e + days 1 <= Datetime.max.
Proof.
  unfold check_dates, add, sub.
  destruct (0 <=? e + days 1) eqn:E1, (e + days 1 <=? Datetime.max) eqn:E2;
    simpl; try (intros [= <-]; right; split; [reflexivity | lia]).
  destruct (s >=? e + days 1); [intros [= <-]; eauto|].
  destruct (e + days 1 - s >=? days 93); [intros [= <-]; eauto | discriminate].
Qed.

Lemma check_time_ok_iff f t :
  check_time f t = Ok tt <-> t <= (if String.eqb f "days" then 20 else 20 * 24).
Proof.
  unfold check_time. destruct (String.eqb f "days").
  - destruct (t >? 20) eqn:E; split; try discriminate; try reflexivity; lia.
  - destruct (t >? 20 * 24) eqn:E; split; try discriminate; try reflexivity; lia.
Qed.

Lemma check_time_invalid f t e :
  check_time f t = Raise e -> e = InvalidParameterValue MsgTwentyDays.
Proof.
  unfold check_time.
  repeat match goal with |- context [if ?c then _ else _] => destruct c end;
    congruence.
Qed.

Lemma translate_elevation_errors s e :
  translate_elevation s = Raise e ->
  (exists m, e = InvalidParameterValue m) \/
  e = ValueError "too many values to unpack (expected 2)" /\
  (1 < count "-" s)%nat.
Proof.
  unfold translate_elevation.
  destruct (mem "-" s) eqn:Em; simpl; [|intros [= <-]; eauto].
  pose proof (split_length "-" s) as Hl.
  apply mem_count in Em.
  destruct (split "-" s) as [|p1 [|p2 [|p3 ps]]]; simpl in *; try lia.
  - destruct (py_int p1); [destruct (py_int p2)|]; try (intros [= <-]; eauto).
    repeat match goal with |- context [if ?c then _ else _] => destruct c end;
      try discriminate; intros [= <-]; eauto.
  - intros [= <-]. right. split; [reflexivity | lia].
Qed.

Lemma translate_ranges_errors l e :
  translate_ranges l = Raise e ->
  (exists m, e = InvalidParameterValue m) \/
  e = ValueError "too many values to unpack (expected 2)" /\
  exists s, s ∈ l /\ (1 < count "-" s)%nat.
Proof.
  induction l as [|s l IH]; simpl; [discriminate|].
  destruct (translate_elevation s) as [r|e'] eqn:Es; simpl.
  - destruct (translate_ranges l) as [rs'|e'] eqn:El; simpl; [discriminate|].
    intros [= <-]. destruct (IH eq_refl) as [H | (H & s' & Hs' & Hc)]; [now left|].
    right. split; [exact H|]. exists s'. split; [now right | exact Hc].
  - intros [= <-]. destruct (translate_elevation_errors s e' Es) as [H | [H Hc]];
      [now left|].
    right. split; [exact H|]. exists s. split; [now left | exact Hc].
Qed.

(** X5.  Validation accepts a request exactly when every elevation range is
    accepted, no bound of the box is beyond its limit, the day after the end
    date exists, the start lies before it and less than 93 days before it,
    and the time is at most 20 days, or 480 of any other unit; the
    parameters returned are the inputs with the translated ranges and the
    domain.  A time of zero or below is accepted. *)
Theorem validate_accepts_iff (req : request) (p : params) :
  validate req = Ok p <->
  Forall2 (fun s r => translate_elevation s = Ok r) (elevationOut req) (ranges p) /\
  inputs p = req /\ domain p = make_domains req /\
  Float.ltb (min_lon req) Float.m180 = false /\
  Float.gtb (max_lon req) Float.p180 = false /\
  Float.ltb (min_lat req) Float.m90 = false /\
  Float.gtb (max_lat req) Float.p90 = false /\
  0 <= enddate req + days 1 <= Datetime.max /\
  startdate req < enddate req + days 1 /\
  enddate req + days 1 - startdate req < days 93 /\
  time req <= (if String.eqb (timeFmt req) "days" then 20 else 20 * 24).
Proof.
  unfold validate. split.
  - destruct (translate_ranges (elevationOut req)) as [rs|] eqn:Er; [|discriminate].
    cbn [rbind].
    destruct (check_bbox req) as [[]|] eqn:Eb; [|discriminate]. cbn [rbind].
    destruct (check_dates (startdate req) (enddate req)) as [[]|] eqn:Ed;
      [|discriminate]. cbn [rbind].
    destruct (check_time (timeFmt req) (time req)) as [[]|] eqn:Et;
      [|discriminate]. cbn [rbind].
    intros [= <-]. simpl.
    apply translate_ranges_iff in Er. apply check_bbox_ok_iff in Eb.
    apply check_dates_ok_iff in Ed. apply check_time_ok_iff in Et. tauto.
  - intros (Hr & Hi & Hd & B1 & B2 & B3 & B4 & D1 & D2 & D3 & Ht).
    apply translate_ranges_iff in Hr. rewrite Hr. cbn [rbind].
    rewrite (proj2 (check_bbox_ok_iff req)) by tauto. cbn [rbind].
    rewrite (proj2 (check_dates_ok_iff _ _)) by tauto. cbn [rbind].
    rewrite (proj2 (check_time_ok_iff _ _) Ht). cbn [rbind].
    destruct p; simpl in *; subst; reflexivity.
Qed.

(** X6.  Validation reports the first failure in the order elevation
    ranges, bounding box, dates, time: an error of a later test is reported
    only when every earlier test has passed. *)
Theorem validate_reports_first_failure (req : request) (e : exn) :
  validate req = Raise e <->
  translate_ranges (elevationOut req) = Raise e \/
  (exists rs, translate_ranges (elevationOut req) = Ok rs) /\
  (check_bbox req = Raise e \/
   check_bbox req = Ok tt /\
   (check_dates (startdate req) (enddate req) = Raise e \/
    check_dates (startdate req) (enddate req) = Ok tt /\
    check_time (timeFmt req) (time req) = Raise e)).
Proof.
  unfold validate.
  destruct (translate_ranges (elevationOut req)) as [rs|e1]; cbn [rbind].
  2: { split; [intros [= ->]; now left|].
       intros [H | [[rs H] _]]; [congruence | discriminate]. }
  destruct (check_bbox req) as [[]|e2]; cbn [rbind].
  2: { split; [intros [= ->]; right; split; eauto|].
       intros [H | [_ [H | [H _]]]]; try discriminate; congruence. }
  destruct (check_dates (startdate req) (enddate req)) as [[]|e3]; cbn [rbind].
  2: { split; [intros [= ->]; right; split; eauto|].
       intros [H | [_ [H | [_ [H | [H _]]]]]]; try discriminate; congruence. }
  destruct (check_time (timeFmt req) (time req)) as [[]|e4]; cbn [rbind].
  - split; [discriminate|].
    intros [H | [_ [H | [_ [H | [_ H]]]]]]; discriminate.
  - split; [intros [= ->]; right; split; eauto 6|].
    intros [H | [_ [H | [_ [H | [_ H]]]]]]; try discriminate; congruence.
Qed.

(** X7.  Validation leaves with an error that is not the client-facing
    [InvalidParameterValue] in two cases only: the [ValueError] of the
    unpacking, when an elevation range has more than one dash, and the
    [OverflowError] of the date sum, when the ranges and the box pass and
    the day after the end date is beyond the last date of the calendar; and
    in that second case it always does. *)
Theorem validate_uncaught_errors (req : request) (e : exn) :
  (validate req = Raise e ->
   (exists m, e = InvalidParameterValue m) \/
   e = ValueError "too many values to unpack (expected 2)" /\
   (exists s, s ∈ elevationOut req /\ (1 < count "-" s)%nat) \/
   e = OverflowError "date value out of range" /\
   (exists rs, translate_ranges (elevationOut req) = Ok rs) /\
   check_bbox req = Ok tt /\
   ~ 0 <= enddate req + days 1 <= Datetime.max) /\
  ((exists rs, translate_ranges (elevationOut req) = Ok rs) ->
   check_bbox req = Ok tt ->
   Datetime.max < enddate req + days 1 ->
   validate req = Raise (OverflowError "date value out of range")).
Proof.
  split.
  - unfold validate.
    destruct (translate_ranges (elevationOut req)) as [rs|e1] eqn:Er;
      cbn [rbind].
    2: { intros [= <-]. apply translate_ranges_errors in Er as [H | H]; auto. }
    destruct (check_bbox req) as [[]|e2] eqn:Eb; cbn [rbind].
    2: { intros [= <-]. apply check_bbox_invalid in Eb. auto. }
    destruct (check_dates (startdate req) (enddate req)) as [[]|e3] eqn:Ed;
      cbn [rbind].
    2: { intros [= <-]. apply check_dates_errors in Ed as [H | [H Hn]]; eauto 10. }
    destruct (check_time (timeFmt req) (time req)) as [[]|e4] eqn:Et;
      cbn [rbind]; [discriminate|].
    intros [= <-]. apply check_time_invalid in Et. eauto.
  - intros [rs Hr] Hb Hd. unfold validate. rewrite Hr, Hb. cbn [rbind].
    unfold check_dates, add.
    destruct (enddate req + days 1 <=? Datetime.max) eqn:E; [lia|].
    rewrite andb_false_r. reflexivity.
Qed.

End RunAcceptance.

Section RunAcceptanceInstances.
Import Datetime RunNAME RunSamples.

(** The defaults, with an end date in the last day of the calendar. *)
Lemma validate_uncaught_errors_witness :
  validate {| title := "Last day";
              longitude := S754_zero false;
              latitude := S754_zero false;
              elevation := 10;
              runBackwards := true;
              time := 1;
              timeFmt := "days";
              min_lon := Float.m180;
              max_lon := Float.p180;
              min_lat := Float.m90;
              max_lat := Float.p90;
              elevationOut := ["0-100"];
              resolution := S754_finite false 4503599627370496 (-54);
              timestamp := "3-hourly";
              dailytime := None;
              dailyreleaselen := None;
              startdate := Datetime.max - days 30;
              enddate := Datetime.max |}
  = Raise (OverflowError "date value out of range").
Proof.
  apply (proj2 (validate_uncaught_errors _ (OverflowError "date value out of range"))).
  - exists [(0, 100)]. reflexivity.
  - reflexivity.
  - reflexivity.
Defined.

End RunAcceptanceInstances.

Section Domains.
Import RunNAME.

(** X8.  The domain handed on always has four entries, the latitudes as
    given at the first and third place, and its longitudes are either the
    two given or the two narrowed ones; it never spans from -180 to 180. *)
Theorem make_domains_never_full_span (r : request) :
  exists lo hi,
    make_domains r = [min_lat r; lo; max_lat r; hi] /\
    (lo = min_lon r /\ hi = max_lon r \/
     lo = Float.m179_875 /\ hi = Float.p179_9) /\
    Float.eqb lo Float.m180 && Float.eqb hi Float.p180 = false.
Proof.
  unfold make_domains. simpl.
  destruct (Float.eqb (min_lon r) Float.m180 && Float.eqb (max_lon r) Float.p180)
    eqn:E.
  - exists Float.m179_875, Float.p179_9. simpl. auto.
  - exists (min_lon r), (max_lon r). auto.
Qed.

End Domains.

(** ** The plot handler, stage by stage *)

Module Stages.
Import Float PlotNAME PlotProps PlotStages Run Progress Handler.

Lemma length_zero {A} (l : list A) : (Z.of_nat (length l) =? 0) = true <-> l = [].
Proof. destruct l; simpl; split; try reflexivity; discriminate. Qed.


(** The handler ends in one of the six ways. *)
Lemma handler_outcome w q st r st' :
  _handler w q st = (r, st') -> outcome w q st r st'.
Proof.
  unfold _handler. fold (mode_of q).
  unfold bind at 1. unfold lift.
  destruct (check_bbox q) as [[]|e] eqn:Eb.
  2: { intros [= <- <-]. now constructor. }
  destruct (Z.of_nat (length (glob_group_txt (outputs w))) =? 0) eqn:Ef.
  { apply length_zero in Ef. intros [= <- <-]. now constructor. }
  assert (Hf : glob_group_txt (outputs w) <> []).
  { intros H. apply length_zero in H. congruence. }
  cbn [bind update_status modify get ret]. fold (after_parameters w st).
  unfold bind at 1.
  destruct (group_files (outputs w) ∅ (after_parameters w st))
    as [[groups|e] st2] eqn:Eg.
  2: { intros [= <- <-]. now apply EndGrouping. }
  cbn [bind update_status modify get ret]. fold (before_plotting groups st2).
  unfold bind at 1.
  destruct (plot_groups w q (mode_of q) groups (before_plotting groups st2))
    as [[[]|e] st4] eqn:Ep.
  2: { intros [= <- <-]. now apply (EndPlotting w q st groups st2). }
  cbn [bind update_status modify get ret]. fold (after_plotting st4).
  unfold bind at 1.
  destruct (package w q (after_plotting st4)) as [[out|e] st6] eqn:Ek.
  - cbn [bind update_status modify get ret]. fold (finished st6).
    intros [= <- <-]. now apply (EndDone w q st groups st2 st4).
  - intros [= <- <-]. now apply (EndPackaging w q st groups st2 st4).
Qed.



(** *** Which exceptions the stages raise *)




Lemma never_invalid_raise {A} e : internal e -> never_invalid (@raise A e).
Proof. intros H st e' st' [= <- <-]. exact H. Qed.




















End Stages.

(** ** The temporary directories of a whole request *)

Module Directories.
Import Float PlotNAME PlotProps PlotStages Run Progress Handler Grouper Stages.

Lemma bind_ok_inv {A B} (m : M A) (k : A -> M B) st b st' :
  bind m k st = (Ok b, st') ->
  exists a st1, m st = (Ok a, st1) /\ k a st1 = (Ok b, st').
Proof.
  unfold bind. destruct (m st) as [[a|e] st1]; [eauto | discriminate].
Qed.

Lemma always_for_each_in {A} (R : state -> state -> Prop)
    `{!Reflexive R, !Transitive R} (l : list A) (body : A -> M unit) :
  (forall x, x ∈ l -> always R (body x)) -> always R (for_each l body).
Proof.
  induction l as [|x l IH]; simpl; intros Hb.
  - apply always_ret; assumption.
  - apply always_bind; try assumption.
    + apply Hb. now left.
    + intros _. apply IH. intros y Hy. apply Hb. now right.
Qed.

#[export] Instance removes_within_refl D : Reflexive (removes_within D).
Proof. intros st d. now left. Qed.

#[export] Instance removes_within_trans D : Transitive (removes_within D).
Proof.
  intros s1 s2 s3 H1 H2 d.
  destruct (H2 d) as [E2|[Hd E2]]; [|now right].
  destruct (H1 d) as [E1|[Hd E1]]; [left | right; split; [exact Hd|]]; congruence.
Qed.

Lemma removes_within_mono D D' st st' :
  (forall d, d ∈ D -> d ∈ D') -> removes_within D st st' -> removes_within D' st st'.
Proof. intros Hs H d. destruct (H d) as [E|[Hd E]]; [now left | right; auto]. Qed.

Lemma keeps_removes D st st' : tmpfs st' = tmpfs st -> removes_within D st st'.
Proof. intros E d. left. now rewrite E. Qed.

(** The progress lines, the log and the packager leave the directories. *)
Lemma render_keeps w j st r st' :
  render w j st = (r, st') -> tmpfs st' = tmpfs st.
Proof.
  rewrite render_unfold.
  set (st0 := with_log _ st).
  destruct (percent (plots_made st0 + 1) (tot_plots st0)) as [p|e] eqn:E.
  - rewrite (progress_ok st0 p E). intros [= <- <-].
    destruct (_ =? _); reflexivity.
  - rewrite (progress_raise st0 e E). intros [= <- <-]. reflexivity.
Qed.

Lemma package_keeps w q st r st' :
  package w q st = (r, st') -> tmpfs st' = tmpfs st.
Proof.
  unfold package. destruct (outdir_entries w) as [entries|];
    [|intros [= <- <-]; reflexivity].
  destruct (Z.of_nat (length entries) =? 1).
  - destruct (entries !! 0%nat); intros [= <- <-]; reflexivity.
  - unfold bind, modify, ret. intros [= <- <-]. reflexivity.
Qed.

Lemma render_removes D w j : always (removes_within D) (render w j).
Proof. intros st r st' H. apply keeps_removes. eapply render_keeps, H. Qed.

Lemma listdir_removes D d : always (removes_within D) (listdir d).
Proof.
  intros st r st'. unfold listdir, bind, get, ret, raise.
  destruct (tmpfs st !! d); intros [= <- <-]; reflexivity.
Qed.

Lemma rmtree_removes d : always (removes_within [d]) (rmtree d).
Proof.
  intros st r st'. unfold rmtree, bind, get, modify, raise.
  destruct (tmpfs st !! d); intros [= <- <-]; [|reflexivity].
  intros d'. simpl. destruct (decide (d' = d)) as [->|Hne].
  - right. split; [now left | apply lookup_delete_eq].
  - left. now apply lookup_delete_ne.
Qed.

Lemma plot_files_removes D w q mode d entries :
  always (removes_within D) (plot_files w q mode d entries).
Proof.
  induction entries as [|f entries IH]; simpl.
  - apply always_ret; apply _.
  - destruct (Str.contains "_group" f && Str.endswith ".txt" f); [|exact IH].
    destruct (String.eqb mode "day").
    { apply always_bind; try apply _; [apply render_removes | intros _; exact IH]. }
    destruct (String.eqb mode "NA"); [|exact IH].
    destruct (timestamp q) as [t|].
    + destruct (bool_decide (t ∈ timestamps w f)); [apply render_removes | exact IH].
    + apply always_bind; try apply _; [|intros _; exact IH].
      apply always_for_each; try apply _. intros c. apply render_removes.
Qed.

(** The plotting of a group touches the directory of the group only. *)
Lemma plot_group_removes w q mode item :
  always (removes_within [item.2]) (plot_group w q mode item).
Proof.
  unfold plot_group.
  apply always_bind; try apply _.
  { destruct (negb (String.eqb mode "NA"));
      [apply listdir_removes | apply always_ret; apply _]. }
  intros s. apply always_bind; try apply _; [|intros _; apply rmtree_removes].
  destruct (String.eqb mode "week").
  { apply always_for_each; try apply _. intros week.
    destruct (Z.of_nat (length (sumWeek w s week)) =? 0);
      [apply always_ret; apply _ | apply render_removes]. }
  destruct (String.eqb mode "month").
  { apply always_for_each; try apply _. intros month.
    destruct (Z.of_nat (length (sumMonth w s month)) =? 0);
      [apply always_ret; apply _ | apply render_removes]. }
  destruct (String.eqb mode "all"); [apply render_removes|].
  apply always_bind; try apply _; [apply listdir_removes|].
  intros entries. apply plot_files_removes.
Qed.

Lemma plot_items_removes w q mode (items : list (Z * nat)) :
  always (removes_within items.*2) (for_each items (plot_group w q mode)).
Proof.
  apply always_for_each_in; try apply _. intros x Hx.
  eapply always_weaken; [|apply plot_group_removes].
  intros st st'. apply removes_within_mono. intros d Hd.
  apply list_elem_of_singleton in Hd. subst d.
  apply list_elem_of_fmap. eauto.
Qed.

(** A group that was plotted to the end has lost its directory. *)
Lemma plot_group_ok_removed w q mode item st st' :
  plot_group w q mode item st = (Ok tt, st') -> tmpfs st' !! item.2 = None.
Proof.
  unfold plot_group. intros H.
  apply bind_ok_inv in H as (s & st1 & _ & H).
  apply bind_ok_inv in H as (u & st2 & _ & H).
  unfold rmtree, bind, get, modify, raise in H.
  destruct (tmpfs st2 !! item.2); [|discriminate].
  injection H as <-. simpl. apply lookup_delete_eq.
Qed.

Lemma plot_items_ok_removed w q mode (items : list (Z * nat)) : forall st st',
  for_each items (plot_group w q mode) st = (Ok tt, st') ->
  forall d, d ∈ items.*2 -> tmpfs st' !! d = None.
Proof.
  induction items as [|x items IH]; simpl; intros st st' H d Hd.
  - apply elem_of_nil in Hd. contradiction.
  - apply bind_ok_inv in H as ([] & st1 & H1 & H2).
    destruct (decide (d ∈ items.*2)) as [Hin|Hout].
    + eapply IH; eassumption.
    + apply elem_of_cons in Hd as [->|Hd]; [|contradiction].
      destruct (plot_items_removes w q mode items _ _ _ H2 x.2) as [E|[_ E]];
        [|exact E].
      rewrite E. eapply plot_group_ok_removed, H1.
Qed.

(** *** The directories of the grouper *)

Lemma staged_start fs : staged fs ∅ fs.
Proof.
  split; [split|split]; intros *; try (rewrite lookup_empty; discriminate).
  reflexivity.
Qed.

Lemma staged_existing fs0 groups fs d :
  staged fs0 groups fs -> is_Some (fs0 !! d) -> fs !! d = fs0 !! d.
Proof.
  intros (_ & Hnew & Hrest) [l Hl]. apply Hrest. intros g Hg.
  rewrite (Hnew g d Hg) in Hl. discriminate.
Qed.

Lemma staged_step fs0 f g0 rest groups st :
  Str.endswith "txt" f = true -> group_number f = Ok g0 ->
  staged fs0 groups (tmpfs st) ->
  exists groups1 st1,
    group_files (f :: rest) groups st = group_files rest groups1 st1 /\
    staged fs0 groups1 (tmpfs st1) /\
    is_Some (groups1 !! g0) /\
    (forall g, is_Some (groups !! g) -> is_Some (groups1 !! g)).
Proof.
  intros Htxt Hg (G & Hnew & Hrest).
  destruct (group_step f g0 rest groups st Htxt Hg G)
    as (groups1 & st1 & d0 & Erun & G1 & Hd0 & Hother & Hfs & Hcase).
  exists groups1, st1. split; [exact Erun|]. split; [|split].
  - split; [exact G1|]. split.
    + intros g d H. destruct (decide (g = g0)) as [->|Hne].
      * assert (d = d0) as -> by congruence.
        destruct Hcase as [Hc | [Hc Hn]]; [eapply Hnew, Hc|].
        rewrite <- (Hrest d0); [exact Hn|].
        intros g Hgd. destruct G as [Gex _]. destruct (Gex g d0 Hgd). congruence.
      * rewrite (Hother g Hne) in H. eapply Hnew, H.
    + intros d Hd. assert (d <> d0) by (intros ->; eapply Hd, Hd0).
      rewrite Hfs, lookup_insert_ne by congruence. apply Hrest.
      intros g Hgd. destruct (decide (g = g0)) as [->|Hne].
      * destruct Hcase as [Hc | [Hc _]]; congruence.
      * apply (Hd g). now rewrite (Hother g Hne).
  - eauto.
  - intros g [d Hgd]. destruct (decide (g = g0)) as [->|Hne]; [eauto|].
    rewrite (Hother g Hne). eauto.
Qed.

(** Whatever the grouper's outcome, its directories are staged. *)
Lemma group_files_staged fs0 entries : forall groups st r st',
  staged fs0 groups (tmpfs st) ->
  group_files entries groups st = (r, st') ->
  exists groups',
    staged fs0 groups' (tmpfs st') /\
    (forall groups'', r = Ok groups'' -> groups'' = groups').
Proof.
  induction entries as [|f rest IH]; intros groups st r st' S H.
  - injection H as <- <-. exists groups. split; [exact S|]. congruence.
  - destruct (Str.endswith "txt" f) eqn:Etxt.
    + destruct (group_number f) as [g0|e] eqn:Eg.
      * destruct (staged_step fs0 f g0 rest groups st Etxt Eg S)
          as (groups1 & st1 & Erun & S1 & _).
        rewrite Erun in H. eapply IH; eassumption.
      * simpl in H. rewrite Etxt in H. simpl in H.
        unfold bind, lift in H. rewrite Eg in H. injection H as <- <-.
        exists groups. split; [exact S | discriminate].
    + simpl in H. rewrite Etxt in H. simpl in H. eapply IH; eassumption.
Qed.

(** The directories after the loop over the groups, whatever its outcome:
    those that were there before the request are as they were. *)
Lemma plotting_keeps_existing fs0 w q mode groups st r st' :
  staged fs0 groups (tmpfs st) ->
  plot_groups w q mode groups st = (r, st') ->
  forall d, is_Some (fs0 !! d) -> tmpfs st' !! d = fs0 !! d.
Proof.
  intros S H d Hd. unfold plot_groups in H.
  destruct (plot_items_removes w q mode _ _ _ _ H d) as [E|[Hin E]].
  - rewrite E. eapply staged_existing; eassumption.
  - exfalso. apply list_elem_of_fmap in Hin as ([g d'] & -> & Hin).
    destruct (sorted_items_ascending groups) as [_ Hp].
    rewrite Hp in Hin. apply elem_of_map_to_list in Hin.
    destruct S as (_ & Hnew & _). destruct Hd as [l Hl]. simpl in Hl.
    rewrite (Hnew g d' Hin) in Hl. discriminate.
Qed.

(** And when the loop returns, they are all there is. *)
Lemma plotting_ok_restores fs0 w q mode groups st st' :
  staged fs0 groups (tmpfs st) ->
  plot_groups w q mode groups st = (Ok tt, st') ->
  tmpfs st' = fs0.
Proof.
  intros S H. apply map_eq. intros d. unfold plot_groups in H.
  destruct (sorted_items_ascending groups) as [_ Hp].
  destruct (decide (d ∈ (sorted_items groups).*2)) as [Hin|Hout].
  - rewrite (plot_items_ok_removed w q mode _ _ _ H d Hin).
    apply list_elem_of_fmap in Hin as ([g d'] & -> & Hin).
    rewrite Hp in Hin. apply elem_of_map_to_list in Hin.
    destruct S as (_ & Hnew & _). symmetry. eapply Hnew, Hin.
  - destruct (plot_items_removes w q mode _ _ _ _ H d) as [E|[Hin _]];
      [|contradiction].
    rewrite E. destruct S as (_ & _ & Hrest). apply Hrest.
    intros g Hg. apply Hout. apply list_elem_of_fmap. exists (g, d).
    split; [reflexivity|]. rewrite Hp. now apply elem_of_map_to_list.
Qed.

(** X10.  When the plot handler returns a result, the temporary
    directories are exactly those there were before the request: every
    staging directory it made has been removed, and no other directory has
    been touched. *)
Theorem handler_restores_temporary_directories
    (w : world) (q : request) (st st' : state) (out : output) :
  _handler w q st = (Ok out, st') -> tmpfs st' = tmpfs st.
Proof.
  intros H. apply handler_outcome in H.
  inversion H as [ | | | | | groups st2 st4 out' st6 Hb Hf Hg Hp Hk]; subst.
  destruct (group_files_staged (tmpfs st) (outputs w) ∅ (after_parameters w st) _ _
                (staged_start (tmpfs st)) Hg)
    as (groups' & S & Heq).
  rewrite <- (Heq groups eq_refl) in S.
  apply (plotting_ok_restores (tmpfs st)) in Hp; [|exact S].
  apply package_keeps in Hk. simpl in *. congruence.
Qed.

Lemma handler_restores_temporary_directories_witness :
  tmpfs (snd (_handler (PlotSamples.two_groups 2 None) PlotSamples.whole_globe
                (initial {[7%nat := ["kept.txt"]]})))
  = tmpfs (initial {[7%nat := ["kept.txt"]]}).
Proof.
  apply (handler_restores_temporary_directories
           (PlotSamples.two_groups 2 None) PlotSamples.whole_globe
           (initial {[7%nat := ["kept.txt"]]})
           (snd (_handler (PlotSamples.two_groups 2 None) PlotSamples.whole_globe
                   (initial {[7%nat := ["kept.txt"]]})))
           {| data_format := Some FORMATS_TEXT;
              data := Some "No plots created, check input options";
              file := None |}).
  vm_compute. reflexivity.
Defined.

(** X11.  Whatever the outcome of the plot handler, a temporary directory
    that was there before the request is still there with the entries it
    had: the handler removes and fills only directories it made itself. *)
Theorem handler_keeps_existing_directories
    (w : world) (q : request) (st st' : state) (r : result output) (d : nat) :
  _handler w q st = (r, st') ->
  is_Some (tmpfs st !! d) -> tmpfs st' !! d = tmpfs st !! d.
Proof.
  intros H Hd. apply handler_outcome in H.
  inversion H as [e Hb | Hb Hf | e st1 Hb Hf Hg | groups st2 e st1 Hb Hf Hg Hp
                  | groups st2 st4 e st1 Hb Hf Hg Hp Hk
                  | groups st2 st4 out st6 Hb Hf Hg Hp Hk]; subst;
    try reflexivity.
  - destruct (group_files_staged (tmpfs st) (outputs w) ∅ (after_parameters w st) _ _
                (staged_start (tmpfs st)) Hg)
      as (groups' & S & _).
    eapply staged_existing; eassumption.
  - destruct (group_files_staged (tmpfs st) (outputs w) ∅ (after_parameters w st) _ _
                (staged_start (tmpfs st)) Hg)
      as (groups' & S & Heq).
    rewrite <- (Heq groups eq_refl) in S.
    exact (plotting_keeps_existing (tmpfs st) w q (mode_of q) groups
             (before_plotting groups st2) _ _ S Hp d Hd).
  - destruct (group_files_staged (tmpfs st) (outputs w) ∅ (after_parameters w st) _ _
                (staged_start (tmpfs st)) Hg)
      as (groups' & S & Heq).
    rewrite <- (Heq groups eq_refl) in S.
    apply package_keeps in Hk. rewrite Hk. simpl.
    exact (plotting_keeps_existing (tmpfs st) w q (mode_of q) groups
             (before_plotting groups st2) _ _ S Hp d Hd).
  - destruct (group_files_staged (tmpfs st) (outputs w) ∅ (after_parameters w st) _ _
                (staged_start (tmpfs st)) Hg)
      as (groups' & S & Heq).
    rewrite <- (Heq groups eq_refl) in S.
    apply package_keeps in Hk. simpl. rewrite Hk. simpl.
    exact (plotting_keeps_existing (tmpfs st) w q (mode_of q) groups
             (before_plotting groups st2) _ _ S Hp d Hd).
Qed.

Lemma handler_keeps_existing_directories_witness :
  tmpfs (snd (_handler PlotSamples.spec_names PlotSamples.whole_globe
                (initial {[7%nat := ["kept.txt"]]}))) !! 7%nat
  = tmpfs (initial {[7%nat := ["kept.txt"]]}) !! 7%nat.
Proof.
  apply (handler_keeps_existing_directories
           PlotSamples.spec_names PlotSamples.whole_globe
           (initial {[7%nat := ["kept.txt"]]})
           (snd (_handler PlotSamples.spec_names PlotSamples.whole_globe
                   (initial {[7%nat := ["kept.txt"]]})))
           (fst (_handler PlotSamples.spec_names PlotSamples.whole_globe
                   (initial {[7%nat := ["kept.txt"]]})))).
  - vm_compute. reflexivity.
  - exists ["kept.txt"]. vm_compute. reflexivity.
Defined.

End Directories.

(** ** The grouper when a file has no group number *)

Module GroupingFailure.
Import PlotNAME PlotProps PlotStages Run Progress Handler Grouper Stages Directories.






End GroupingFailure.

(** ** The log and the updates of a whole request *)

Module Reports.
Import Float PlotNAME PlotProps PlotStages Run Progress Handler Grouper Stages
  Directories.

#[export] Instance only_directories_refl : Reflexive only_directories.
Proof. intros st. unfold only_directories. auto 10. Qed.

#[export] Instance only_directories_trans : Transitive only_directories.
Proof.
  intros s1 s2 s3 (A1 & B1 & C1 & D1 & E1 & F1) (A2 & B2 & C2 & D2 & E2 & F2).
  unfold only_directories. repeat split; congruence.
Qed.

Lemma with_tmpfs_only f st : only_directories st (with_tmpfs f st).
Proof. repeat split. Qed.

Lemma listdir_only d : always only_directories (listdir d).
Proof.
  intros st r st'. unfold listdir, bind, get.
  destruct (tmpfs st !! d); intros [= <- <-]; reflexivity.
Qed.

Lemma rmtree_only d : always only_directories (rmtree d).
Proof.
  intros st r st'. unfold rmtree, bind, get, modify, raise.
  destruct (tmpfs st !! d); intros [= <- <-];
    [apply with_tmpfs_only | reflexivity].
Qed.

Lemma copy_only f d : always only_directories (copy f d).
Proof.
  intros st r st'. unfold copy, bind, get, modify, raise.
  destruct (tmpfs st !! d); intros [= <- <-];
    [apply with_tmpfs_only | reflexivity].
Qed.

Lemma mkdtemp_only : always only_directories mkdtemp.
Proof.
  intros st r st'. unfold mkdtemp, bind, get, modify, ret.
  intros [= <- <-]. apply with_tmpfs_only.
Qed.

Lemma group_files_only entries : forall groups,
  always only_directories (group_files entries groups).
Proof.
  induction entries as [|f entries IH]; intros groups; simpl.
  - apply always_ret; apply _.
  - destruct (negb (Str.endswith "txt" f)); [apply IH|].
    apply always_bind; try apply _; [apply always_lift; apply _|].
    intros g. destruct (groups !! g).
    + apply always_bind; try apply _; [apply copy_only | intros _; apply IH].
    + apply always_bind; try apply _; [apply mkdtemp_only|]. intros d.
      apply always_bind; try apply _; [apply copy_only | intros _; apply IH].
Qed.

Lemma package_log w q st r st' : package w q st = (r, st') -> log st' = log st.
Proof.
  unfold package. destruct (outdir_entries w) as [entries|];
    [|intros [= <- <-]; reflexivity].
  destruct (Z.of_nat (length entries) =? 1).
  - destruct (entries !! 0%nat); intros [= <- <-]; reflexivity.
  - unfold bind, modify, ret. intros [= <- <-]. reflexivity.
Qed.

(** A relation that every render and every operation on the directories
    keeps is kept by the plotting of the groups. *)
Section Plotting.
Context (R : state -> state -> Prop) `{!Reflexive R, !Transitive R}.
Context (w : world).
Hypothesis render_R : forall j, always R (render w j).
Hypothesis only_R : forall st st', only_directories st st' -> R st st'.

Lemma plot_files_R q mode d entries : always R (plot_files w q mode d entries).
Proof.
  induction entries as [|f entries IH]; simpl.
  - apply always_ret; assumption.
  - destruct (Str.contains "_group" f && Str.endswith ".txt" f); [|exact IH].
    destruct (String.eqb mode "day").
    { apply always_bind; try assumption; [apply render_R | intros _; exact IH]. }
    destruct (String.eqb mode "NA"); [|exact IH].
    destruct (timestamp q) as [t|].
    + destruct (bool_decide (t ∈ timestamps w f)); [apply render_R | exact IH].
    + apply always_bind; try assumption; [|intros _; exact IH].
      apply always_for_each; try assumption. intros c. apply render_R.
Qed.

Lemma plot_group_R q mode item : always R (plot_group w q mode item).
Proof.
  unfold plot_group.
  apply always_bind; try assumption.
  { destruct (negb (String.eqb mode "NA")).
    - eapply always_weaken; [exact only_R | apply listdir_only].
    - apply always_ret; assumption. }
  intros s. apply always_bind; try assumption.
  - destruct (String.eqb mode "week").
    { apply always_for_each; try assumption. intros week.
      destruct (Z.of_nat (length (sumWeek w s week)) =? 0);
        [apply always_ret; assumption | apply render_R]. }
    destruct (String.eqb mode "month").
    { apply always_for_each; try assumption. intros month.
      destruct (Z.of_nat (length (sumMonth w s month)) =? 0);
        [apply always_ret; assumption | apply render_R]. }
    destruct (String.eqb mode "all"); [apply render_R|].
    apply always_bind; try assumption.
    + eapply always_weaken; [exact only_R | apply listdir_only].
    + intros entries. apply plot_files_R.
  - intros _. eapply always_weaken; [exact only_R | apply rmtree_only].
Qed.

Lemma plot_groups_R q mode groups : always R (plot_groups w q mode groups).
Proof.
  unfold plot_groups. apply always_for_each; try assumption.
  intros item. apply plot_group_R.
Qed.

End Plotting.

(** *** Every render is logged and counted *)

#[export] Instance counted_refl w : Reflexive (counted w).
Proof.
  intros st. exists []. rewrite app_nil_r. simpl. split; [reflexivity|].
  split; [lia | constructor].
Qed.

#[export] Instance counted_trans w : Transitive (counted w).
Proof.
  intros s1 s2 s3 (n1 & L1 & P1 & F1) (n2 & L2 & P2 & F2).
  exists (n1 ++ n2)%list. rewrite L2, L1, P2, P1, length_app, app_assoc.
  split; [reflexivity|]. split; [lia | now apply Forall_app].
Qed.

Lemma only_counted w st st' : only_directories st st' -> counted w st st'.
Proof.
  intros (_ & L & _ & P & _). exists []. rewrite app_nil_r, L, P. simpl.
  split; [reflexivity|]. split; [lia | constructor].
Qed.

Lemma render_counted w j : always (counted w) (render w j).
Proof.
  intros st r st'. rewrite render_unfold.
  set (st0 := with_log _ st).
  destruct (percent (plots_made st0 + 1) (tot_plots st0)) as [p|e] eqn:E.
  - rewrite (progress_ok st0 p E). intros [= <- <-].
    exists [log_of w j]. destruct (_ =? _); simpl;
      (split; [reflexivity|]; split; [lia | repeat constructor; eauto]).
  - rewrite (progress_raise st0 e E). intros [= <- <-].
    exists [log_of w j]. simpl.
    split; [reflexivity|]. split; [lia | repeat constructor; eauto].
Qed.

(** X13.  At the end of a plot request, however it ends, the number of
    plots made is the number of lines in the log, and every line tells how
    one call of [drawMap] ended: each call is logged and counted once,
    whether it drew the plot or failed. *)
Theorem handler_counts_every_render
    (w : world) (q : request) (fs : gmap nat (list string))
    (r : result output) (st' : state) :
  _handler w q (initial fs) = (r, st') ->
  plots_made st' = Z.of_nat (length (log st')) /\
  Forall (fun l => exists j, l = if drawMap w j then Plotted j else Failed j)
         (log st').
Proof.
  intros H. apply handler_outcome in H.
  assert (Hplot : forall groups st2 r4 st4,
            group_files (outputs w) ∅ (after_parameters w (initial fs))
            = (Ok groups, st2) ->
            plot_groups w q (mode_of q) groups (before_plotting groups st2)
            = (r4, st4) ->
            plots_made st4 = Z.of_nat (length (log st4)) /\
            Forall (fun l => exists j, l = log_of w j) (log st4)).
  { intros groups st2 r4 st4 Hg Hp.
    apply group_files_only in Hg as (_ & L & _).
    apply (plot_groups_R (counted w) w (render_counted w) (only_counted w)) in Hp
      as (new & L4 & P4 & F4).
    simpl in L4, P4. rewrite L in L4. simpl in L4.
    rewrite L4, P4. split; [reflexivity | exact F4]. }
  inversion H as [e Hb | Hb Hf | e st1 Hb Hf Hg | groups st2 e st1 Hb Hf Hg Hp
                  | groups st2 st4 e st1 Hb Hf Hg Hp Hk
                  | groups st2 st4 out st6 Hb Hf Hg Hp Hk]; subst.
  - split; [reflexivity | constructor].
  - split; [reflexivity | constructor].
  - apply group_files_only in Hg as (_ & L & _ & P & _).
    rewrite L, P. split; [reflexivity | constructor].
  - eapply Hplot; eassumption.
  - destruct (Hplot _ _ _ _ Hg Hp) as [P F].
    pose proof (package_log _ _ _ _ _ Hk) as L.
    apply package_same in Hk as (_ & _ & K & _).
    simpl in L, K. rewrite L, K. auto.
  - destruct (Hplot _ _ _ _ Hg Hp) as [P F].
    pose proof (package_log _ _ _ _ _ Hk) as L.
    apply package_same in Hk as (_ & _ & K & _).
    simpl in *. rewrite L, K. auto.
Qed.

(** *** No update repeats the percentage before it *)

Lemma last_default (x y z : Z) l : List.last (z :: l) x = List.last (z :: l) y.
Proof.
  revert z. induction l as [|u l IH]; intros z; [reflexivity|].
  change (List.last (u :: l) x = List.last (u :: l) y). apply IH.
Qed.

Lemma last_cons (x y : Z) l : List.last (y :: l) x = List.last l y.
Proof.
  destruct l as [|z l]; [reflexivity|].
  change (List.last (z :: l) x = List.last (z :: l) y). apply last_default.
Qed.

Lemma no_repeat_app x l1 l2 :
  no_repeat x l1 -> no_repeat (List.last l1 x) l2 -> no_repeat x (l1 ++ l2).
Proof.
  revert x. induction l1 as [|y l1 IH]; intros x; simpl; [auto|].
  intros [Hxy H1] H2. split; [exact Hxy|]. apply IH; [exact H1|].
  now rewrite <- (last_cons x).
Qed.

Lemma last_app_default (x : Z) l1 l2 :
  List.last (l1 ++ l2) x = List.last l2 (List.last l1 x).
Proof.
  revert x. induction l1 as [|y l1 IH]; intros x; [reflexivity|].
  rewrite <- app_comm_cons, !last_cons. apply IH.
Qed.

#[export] Instance reported_refl : Reflexive reported.
Proof.
  intros st. exists []. rewrite app_nil_r. simpl.
  repeat split; try reflexivity. constructor.
Qed.

#[export] Instance reported_trans : Transitive reported.
Proof.
  intros s1 s2 s3 (n1 & S1 & F1 & N1 & O1) (n2 & S2 & F2 & N2 & O2).
  exists (n1 ++ n2)%list. rewrite S2, S1, app_assoc.
  split; [reflexivity|]. split; [now apply Forall_app|].
  rewrite fmap_app. split.
  - apply no_repeat_app; [exact N1|]. now rewrite <- O1.
  - rewrite last_app_default, <- O1. exact O2.
Qed.

Lemma only_reported st st' : only_directories st st' -> reported st st'.
Proof.
  intros (S & _ & _ & _ & O & _). exists []. rewrite app_nil_r. simpl.
  repeat split; try assumption. constructor.
Qed.

Lemma render_reported w j : always reported (render w j).
Proof.
  intros st r st'. rewrite render_unfold.
  set (st0 := with_log _ st).
  destruct (percent (plots_made st0 + 1) (tot_plots st0)) as [p|e] eqn:E.
  - rewrite (progress_ok st0 p E).
    destruct (_ =? _) eqn:Eo; intros [= <- <-].
    + exists []. simpl. rewrite app_nil_r.
      repeat split; try reflexivity. constructor.
    + apply Z.eqb_neq in Eo. exists [("Plotting", p)]. simpl.
      repeat split; try reflexivity; [repeat constructor | exact Eo].
  - rewrite (progress_raise st0 e E). intros [= <- <-].
    exists []. simpl. rewrite app_nil_r.
    repeat split; try reflexivity. constructor.
Qed.

(** X14.  When the plot handler returns a result, the updates it has sent
    are 'Processed plot parameters' at 5, 'Plotting' at 10, then only
    'Plotting' updates, none with the percentage of the update before it,
    then 'Formatting output' at 95 and 'done' at 100. *)
Theorem handler_status_sequence
    (w : world) (q : request) (st st' : state) (out : output) :
  _handler w q st = (Ok out, st') ->
  exists plotting,
    status st'
    = (status st ++ [("Processed plot parameters", 5); ("Plotting", 10)]
       ++ plotting ++ [("Formatting output", 95); ("done", 100)])%list /\
    Forall (fun u => u.1 = "Plotting") plotting /\
    no_repeat 10 plotting.*2.
Proof.
  intros H. apply handler_outcome in H.
  inversion H as [ | | | | | groups st2 st4 out' st6 Hb Hf Hg Hp Hk]; subst.
  apply group_files_only in Hg as (S2 & _).
  apply (plot_groups_R reported w (render_reported w) only_reported) in Hp
    as (new & S4 & F4 & N4 & _).
  apply package_same in Hk as (S6 & _).
  exists new. split; [|split; assumption].
  simpl in *. rewrite S6, S4, S2. simpl.
  rewrite <- !app_assoc. reflexivity.
Qed.

Lemma handler_status_sequence_witness :
  exists plotting,
    status (snd (_handler (PlotSamples.two_groups 3 None) PlotSamples.whole_globe
                   (initial ∅)))
    = (status (initial ∅)
       ++ [("Processed plot parameters", 5); ("Plotting", 10)]
       ++ plotting ++ [("Formatting output", 95); ("done", 100)])%list /\
    Forall (fun u => u.1 = "Plotting") plotting /\
    no_repeat 10 plotting.*2.
Proof.
  apply (handler_status_sequence
           (PlotSamples.two_groups 3 None) PlotSamples.whole_globe (initial ∅)
           (snd (_handler (PlotSamples.two_groups 3 None) PlotSamples.whole_globe
                   (initial ∅)))
           {| data_format := Some FORMATS_TEXT;
              data := Some "No plots created, check input options";
              file := None |}).
  vm_compute. reflexivity.
Defined.

End Reports.

(** ** A request for which no plot is expected *)

Module NoTotal.
Import Float PlotNAME PlotProps PlotStages Run Progress Handler Grouper Stages
  Directories Reports.

Lemma sfr_keep {A} w st (r : result A) st' :
  tot_plots st' = tot_plots st -> plots_made st' = plots_made st ->
  log st' = log st -> status st' = status st ->
  stops_at_first_render w st r st'.
Proof. intros T P L S Ht Hp. left. rewrite T, P, L, S. auto. Qed.

Lemma sfr_only {A} w (m : M A) :
  always only_directories m ->
  forall st r st', m st = (r, st') -> stops_at_first_render w st r st'.
Proof.
  intros Hm st r st' H. destruct (Hm _ _ _ H) as (S & L & T & P & _).
  now apply sfr_keep.
Qed.

Lemma sfr_bind {A B} w (m : M A) (k : A -> M B) :
  (forall st r st', m st = (r, st') -> stops_at_first_render w st r st') ->
  (forall a st r st', k a st = (r, st') -> stops_at_first_render w st r st') ->
  forall st r st', bind m k st = (r, st') -> stops_at_first_render w st r st'.
Proof.
  intros Hm Hk st r st'. unfold bind.
  destruct (m st) as [[a|e] st1] eqn:E; intros H Ht Hp.
  - destruct (Hm _ _ _ E Ht Hp) as [(T1 & P1 & L1 & S1) | (Hr & _)];
      [|discriminate].
    destruct (Hk _ _ _ _ H T1 P1) as [(T2 & P2 & L2 & S2) | (Hr & T2 & P2 & S2 & j & L2)].
    + left. repeat split; congruence.
    + right. split; [exact Hr|]. repeat split; try congruence.
      exists j. congruence.
  - injection H as <- <-.
    destruct (Hm _ _ _ E Ht Hp) as [Hkeep | (Hr & Hrest)]; [now left|].
    right. split; [congruence | exact Hrest].
Qed.

Lemma sfr_ret {A} w (a : A) st r st' :
  ret a st = (r, st') -> stops_at_first_render w st r st'.
Proof. intros [= <- <-]. now apply sfr_keep. Qed.

Lemma sfr_for_each {A} w (l : list A) (body : A -> M unit) :
  (forall x st r st', body x st = (r, st') -> stops_at_first_render w st r st') ->
  forall st r st', for_each l body st = (r, st') ->
                   stops_at_first_render w st r st'.
Proof.
  intros Hb. induction l as [|x l IH]; simpl.
  - apply sfr_ret.
  - apply sfr_bind; [apply Hb | intros _; exact IH].
Qed.

(** One plot of none expected: the division fails. *)
Lemma percent_one_of_none : percent 1 0 = Raise ZeroDivisionError.
Proof. vm_compute. reflexivity. Qed.

Lemma sfr_render w j st r st' :
  render w j st = (r, st') -> stops_at_first_render w st r st'.
Proof.
  rewrite render_unfold. intros H Ht Hp. right.
  set (st0 := with_log _ st) in H.
  assert (E : percent (plots_made st0 + 1) (tot_plots st0) = Raise ZeroDivisionError).
  { simpl. rewrite Ht, Hp. exact percent_one_of_none. }
  rewrite (progress_raise st0 _ E) in H. injection H as <- <-.
  simpl. rewrite Hp. repeat split; try assumption; try reflexivity.
  exists j. reflexivity.
Qed.

Lemma sfr_plot_files w q mode d entries : forall st r st',
  plot_files w q mode d entries st = (r, st') ->
  stops_at_first_render w st r st'.
Proof.
  induction entries as [|f entries IH]; simpl.
  - apply sfr_ret.
  - destruct (Str.contains "_group" f && Str.endswith ".txt" f); [|exact IH].
    destruct (String.eqb mode "day").
    { apply sfr_bind; [apply sfr_render | intros _; exact IH]. }
    destruct (String.eqb mode "NA"); [|exact IH].
    destruct (timestamp q) as [t|].
    + destruct (bool_decide (t ∈ timestamps w f)); [apply sfr_render | exact IH].
    + apply sfr_bind; [|intros _; exact IH].
      apply sfr_for_each. intros c. apply sfr_render.
Qed.

Lemma sfr_plot_group w q mode item : forall st r st',
  plot_group w q mode item st = (r, st') -> stops_at_first_render w st r st'.
Proof.
  unfold plot_group. apply sfr_bind.
  { destruct (negb (String.eqb mode "NA"));
      [apply sfr_only, listdir_only | apply sfr_ret]. }
  intros s. apply sfr_bind; [|intros _; apply sfr_only, rmtree_only].
  destruct (String.eqb mode "week").
  { apply sfr_for_each. intros week.
    destruct (Z.of_nat (length (sumWeek w s week)) =? 0);
      [apply sfr_ret | apply sfr_render]. }
  destruct (String.eqb mode "month").
  { apply sfr_for_each. intros month.
    destruct (Z.of_nat (length (sumMonth w s month)) =? 0);
      [apply sfr_ret | apply sfr_render]. }
  destruct (String.eqb mode "all"); [apply sfr_render|].
  apply sfr_bind; [apply sfr_only, listdir_only|].
  intros entries. apply sfr_plot_files.
Qed.

Lemma sfr_plot_groups w q mode groups : forall st r st',
  plot_groups w q mode groups st = (r, st') -> stops_at_first_render w st r st'.
Proof.
  unfold plot_groups. apply sfr_for_each. intros item. apply sfr_plot_group.
Qed.

(** X15.  When [get_num_dates] answers 0, the plot handler cannot report a
    single plot: either no call of [drawMap] is made at all, or the first
    call, drawn or failed, is followed by the [ZeroDivisionError] of the
    progress computation, with which the handler leaves after the updates
    at 5 and 10. *)
Theorem no_expected_plots_first_render_fails
    (w : world) (q : request) (st st' : state) (r : result output) :
  num_dates w = 0 ->
  _handler w q st = (r, st') ->
  log st' = log st \/
  r = Raise ZeroDivisionError /\
  (exists j, log st' = (log st ++ [if drawMap w j then Plotted j else Failed j])%list) /\
  status st'
  = (status st ++ [("Processed plot parameters", 5); ("Plotting", 10)])%list.
Proof.
  intros Hn H. apply handler_outcome in H.
  assert (Hplot : forall groups st2 (r4 : result unit) st4,
            group_files (outputs w) ∅ (after_parameters w st) = (Ok groups, st2) ->
            plot_groups w q (mode_of q) groups (before_plotting groups st2)
            = (r4, st4) ->
            log st4 = log st \/
            r4 = Raise ZeroDivisionError /\
            (exists j, log st4 = (log st ++ [log_of w j])%list) /\
            status st4
            = (status st ++ [("Processed plot parameters", 5); ("Plotting", 10)])%list).
  { intros groups st2 r4 st4 Hg Hp.
    apply group_files_only in Hg as (S2 & L2 & T2 & _).
    simpl in S2, L2, T2.
    destruct (sfr_plot_groups _ _ _ _ _ _ _ Hp) as [(_ & _ & L & _) | (Hr & _ & _ & S & j & L)].
    - simpl. rewrite T2, Hn. lia.
    - reflexivity.
    - left. simpl in L. congruence.
    - right. split; [exact Hr|]. simpl in L, S. split.
      + exists j. congruence.
      + rewrite S, S2, <- app_assoc. reflexivity. }
  inversion H as [e Hb | Hb Hf | e st1 Hb Hf Hg | groups st2 e st1 Hb Hf Hg Hp
                  | groups st2 st4 e st1 Hb Hf Hg Hp Hk
                  | groups st2 st4 out st6 Hb Hf Hg Hp Hk]; subst.
  - now left.
  - now left.
  - left. apply group_files_only in Hg as (_ & L & _). exact L.
  - destruct (Hplot _ _ _ _ Hg Hp) as [L | (Hr & Hj & S)]; [now left|].
    right. split; [congruence|]. split; assumption.
  - left. destruct (Hplot _ _ _ _ Hg Hp) as [L | (Hr & _)]; [|discriminate].
    apply package_log in Hk. simpl in Hk. congruence.
  - left. destruct (Hplot _ _ _ _ Hg Hp) as [L | (Hr & _)]; [|discriminate].
    apply package_log in Hk. simpl in *. congruence.
Qed.

End NoTotal.

(** ** A requested timestamp *)

Module Timestamp.
Import PlotNAME PlotProps PlotStages Run.

(** X16.  With a timestamp requested, the loop over the files of a group
    draws one plot at most: the timestamp from the first entry, in the
    order of the listing, that is an output file and has it among its
    columns; the entries after it are not opened. *)
Theorem plot_files_timestamp_first_match
    (w : world) (q : request) (d : nat) (entries : list string)
    (t : string) (st : state) :
  timestamp q = Some t ->
  plot_files w q "NA" d entries st
  = match List.find
            (fun f => Str.contains "_group" f && Str.endswith ".txt" f
                      && bool_decide (t ∈ timestamps w f)) entries with
    | Some f => render w (JTimestamp d f t) st
    | None => (Ok tt, st)
    end.
Proof.
  intros Ht. induction entries as [|f entries IH]; simpl; [reflexivity|].
  rewrite Ht.
  destruct (Str.contains "_group" f && Str.endswith ".txt" f); simpl;
    [|exact IH].
  destruct (bool_decide (t ∈ timestamps w f)); [reflexivity | exact IH].
Qed.

End Timestamp.

(** ** The percentage when every expected plot is made *)

Module Complete.
Import Float RoundFacts OpFacts PercentFacts PlotNAME.

Lemma scaled_one : ulps (mul (round false 1 1) (of_Z 85)) = 85 * unit1.
Proof. vm_compute. reflexivity. Qed.

(** X17.  When the number of plots made reaches the number expected, the
    percentage is exactly 95, whatever that number is: the quotient is the
    float 1 and the product the float 85, with no rounding. *)
Theorem percent_complete (n : Z) :
  0 < n <= limit -> percent n n = Ok 95.
Proof.
  intros Hn. rewrite (percent_value n n Hn Hn).
  pose proof unit1_pos.
  assert (E : ulps (scaled n n) = 85 * unit1).
  { apply Z.le_antisymm; [apply scaled_le_85; lia|].
    unfold scaled.
    destruct (of_Z_finite n Hn) as [Fn _].
    destruct of_Z_85 as [F85 _].
    destruct (quotient_cases n n Hn Hn) as [[Hz|Hf] _].
    - exfalso.
      destruct (div_round _ _ Fn Fn) as (A & B & E & Hab).
      pose proof (positive_finite_ulps _ Fn).
      assert (A = B) by nia. subst B.
      pose proof (round_mono 1 1 A A ltac:(lia)) as Hm.
      rewrite ulps_one, <- E, Hz in Hm. simpl in Hm. lia.
    - rewrite <- scaled_one. apply mul_mono; try assumption.
      + eexists _, _. split; [reflexivity|]. vm_compute. discriminate.
      + destruct (div_round _ _ Fn Fn) as (A & B & E & Hab).
        pose proof (positive_finite_ulps _ Fn).
        assert (A = B) by nia. subst B.
        rewrite E. apply round_mono. lia. }
  rewrite E, Z.div_mul by lia. reflexivity.
Qed.

Lemma percent_complete_witness : percent 7 7 = Ok 95.
Proof. apply percent_complete. vm_compute. split; [reflexivity | discriminate]. Defined.

End Complete.

(** ** The plot process on further sample requests *)

Section PlotCaseInstances.
Import PlotNAME PlotProps PlotStages PlotSamples PlotCases.


Lemma handler_counts_every_render_witness :
  plots_made (snd (_handler (two_groups 3 None) whole_globe (initial ∅)))
  = Z.of_nat (length (log (snd (_handler (two_groups 3 None) whole_globe
                                  (initial ∅))))) /\
  Forall (fun l => exists j,
            l = if drawMap (two_groups 3 None) j then Plotted j else Failed j)
         (log (snd (_handler (two_groups 3 None) whole_globe (initial ∅)))).
Proof.
  apply (Reports.handler_counts_every_render
           (two_groups 3 None) whole_globe ∅
           (fst (_handler (two_groups 3 None) whole_globe (initial ∅)))).
  vm_compute. reflexivity.
Defined.

Lemma no_expected_plots_first_render_fails_witness :
  log (snd (_handler (two_groups 0 None) whole_globe (initial ∅)))
  = log (initial ∅) \/
  fst (_handler (two_groups 0 None) whole_globe (initial ∅))
  = Raise ZeroDivisionError /\
  (exists j,
     log (snd (_handler (two_groups 0 None) whole_globe (initial ∅)))
     = (log (initial ∅)
        ++ [if drawMap (two_groups 0 None) j then Plotted j else Failed j])%list) /\
  status (snd (_handler (two_groups 0 None) whole_globe (initial ∅)))
  = (status (initial ∅)
     ++ [("Processed plot parameters", 5); ("Plotting", 10)])%list.
Proof.
  apply (NoTotal.no_expected_plots_first_render_fails
           (two_groups 0 None) whole_globe (initial ∅)).
  - reflexivity.
  - vm_compute. reflexivity.
Defined.

Lemma plot_files_timestamp_first_match_witness :
  plot_files (two_groups 2 None) (at_timestamp "01/01/2021 03:00 UTC") "NA" 0%nat
    ["TestRun1_group1_a.txt"; "TestRun1_group1_b.txt"] (initial ∅)
  = render (two_groups 2 None)
      (JTimestamp 0%nat "TestRun1_group1_a.txt" "01/01/2021 03:00 UTC")
      (initial ∅).
Proof.
  exact (Timestamp.plot_files_timestamp_first_match
           (two_groups 2 None) (at_timestamp "01/01/2021 03:00 UTC") 0%nat
           ["TestRun1_group1_a.txt"; "TestRun1_group1_b.txt"]
           "01/01/2021 03:00 UTC" (initial ∅) eq_refl).
Defined.

End PlotCaseInstances.
(** ** PlotNAME: the parameters of the run *)

Module InputsFacts.
Import Str StrFacts PlotInputs.

Example rstrip_line : rstrip ("title: a b  " +:+ String "010" "") = "title: a b".
Proof. reflexivity. Qed.

Example split_str_samples :
  split_str ": " "a: b: c" = ["a"; "b"; "c"] /\
  split_str ": " "a::  b" = ["a:"; " b"] /\
  split_str ": " "ab" = ["ab"] /\
  split_str ": " "a: " = ["a"; ""] /\
  split_str ": " "" = [""].
Proof. repeat split. Qed.

Lemma split_at_nonempty sep skip s : split_at sep skip s <> [].
Proof.
  revert skip. induction s as [|a s IH]; intros skip; simpl; [discriminate|].
  destruct skip as [|n]; [|apply IH].
  destruct (startswith sep (String a s)); [discriminate|].
  destruct (split_at sep 0 s); discriminate.
Qed.

(** A string has a second piece exactly when the separator occurs in it. *)
Lemma split_str_second sep s :
  sep <> EmptyString ->
  is_Some (split_str sep s !! 1%nat) <-> contains sep s = true.
Proof.
  intros Hsep. unfold split_str. induction s as [|a s IH].
  - simpl. destruct sep; [congruence|]. simpl.
    split; [intros [x Hx]; discriminate | discriminate].
  - cbn [split_at contains].
    destruct (startswith sep (String a s)) eqn:E.
    + simpl. pose proof (split_at_nonempty sep (String.length sep - 1) s).
      destruct (split_at sep (String.length sep - 1) s); [contradiction|].
      split; [reflexivity | eauto].
    + simpl. pose proof (split_at_nonempty sep 0 s).
      destruct (split_at sep 0 s) as [|p ps]; [contradiction|].
      exact IH.
Qed.

Lemma entry_of_some_iff l :
  is_Some (entry_of l) <-> contains ": " (rstrip l) = true.
Proof.
  rewrite <- (split_str_second ": " (rstrip l)) by discriminate.
  unfold entry_of. destruct (split_str ": " (rstrip l)) as [|k [|v ps]]; simpl;
    split; intros [x Hx]; try discriminate; eauto.
Qed.

Lemma read_lines_cons l lines inputs :
  read_lines (l :: lines) inputs
  = match entry_of l with
    | Some (key, value) => read_lines lines (<[key := value]> inputs)
    | None => Raise (IndexError "list index out of range")
    end.
Proof.
  simpl. unfold entry_of.
  destruct (split_str ": " (rstrip l)) as [|k [|v ps]]; reflexivity.
Qed.

Lemma rstrip_all_space s : all_space s = true -> rstrip s = EmptyString.
Proof.
  induction s as [|a s IH]; simpl; [reflexivity|].
  intros H. apply andb_true_iff in H as [Ha Hs]. now rewrite (IH Hs), Ha.
Qed.

Lemma rstrip_app_space s t : all_space t = true -> rstrip (s +:+ t) = rstrip s.
Proof.
  intros Ht. induction s as [|a s IH]; simpl.
  - now apply rstrip_all_space.
  - now rewrite IH.
Qed.

Lemma rstrip_app_keep s t :
  rstrip t <> EmptyString -> rstrip (s +:+ t) = s +:+ rstrip t.
Proof.
  intros Ht. induction s as [|a s IH]; simpl; [reflexivity|].
  rewrite IH. change (String a s +:+ rstrip t) with (String a (s +:+ rstrip t)).
  destruct (s +:+ rstrip t) eqn:E; [|reflexivity].
  destruct s; simpl in E; [contradiction | discriminate].
Qed.

(** X18.  The loop over the lines of [user_input_parameters.txt] returns
    exactly when every line, without the white space at its end, contains
    the separator ': '; with any other line it raises [IndexError], and so
    it does for a file with a blank line. *)
Theorem read_lines_fails_iff
    (lines : list string) (inputs : gmap string string) :
  ((exists m, read_lines lines inputs = Ok m) <->
   Forall (fun l => contains ": " (rstrip l) = true) lines) /\
  (~ Forall (fun l => contains ": " (rstrip l) = true) lines ->
   read_lines lines inputs = Raise (IndexError "list index out of range")) /\
  (forall l, l ∈ lines -> all_space l = true ->
   read_lines lines inputs = Raise (IndexError "list index out of range")).
Proof.
  assert (Hcases : forall lines inputs,
            Forall (fun l => contains ": " (rstrip l) = true) lines /\
            (exists m, read_lines lines inputs = Ok m) \/
            ~ Forall (fun l => contains ": " (rstrip l) = true) lines /\
            read_lines lines inputs = Raise (IndexError "list index out of range")).
  { clear. induction lines as [|l lines IH]; intros inputs.
    - left. split; [constructor | eexists; reflexivity].
    - rewrite read_lines_cons.
      pose proof (entry_of_some_iff l) as He.
      destruct (entry_of l) as [[k v]|].
      + destruct (IH (<[k := v]> inputs)) as [[HF Hm] | [HF Hr]].
        * left. split; [constructor; [apply He; eauto | exact HF] | exact Hm].
        * right. split; [|exact Hr]. intros H. inversion H; auto.
      + right. split; [|reflexivity]. intros H. inversion H as [|? ? Hc _]; subst.
        apply He in Hc as [x Hx]. discriminate. }
  destruct (Hcases lines inputs) as [[HF Hm] | [HF Hr]].
  - split; [tauto|]. split; [tauto|].
    intros l Hl Hs. rewrite Forall_forall in HF. specialize (HF l Hl).
    rewrite (rstrip_all_space l Hs) in HF. discriminate.
  - split; [|auto]. split; [|tauto].
    intros [m Hm]. congruence.
Qed.

Lemma read_lines_fails_iff_witness :
  read_lines ["title: Run 1"; ""; "timestamp: 3-hourly"] ∅
  = Raise (IndexError "list index out of range").
Proof.
  apply (proj2 (proj2 (read_lines_fails_iff
                         ["title: Run 1"; ""; "timestamp: 3-hourly"] ∅)) "").
  - right. left.
  - reflexivity.
Defined.

(** X19.  When the loop over the lines returns, the parameters hold for
    each key the value of the last line that gives the key, and no key that
    no line gives. *)
Theorem read_lines_last_wins
    (lines : list string) (m : gmap string string) (k v : string) :
  read_lines lines ∅ = Ok m ->
  (m !! k = Some v <->
   exists pre l post,
     lines = (pre ++ l :: post)%list /\ entry_of l = Some (k, v) /\
     Forall (fun l' => forall v', entry_of l' <> Some (k, v')) post).
Proof.
  assert (Hgen : forall lines inputs m,
            read_lines lines inputs = Ok m ->
            (m !! k = Some v <->
             (exists pre l post,
                lines = (pre ++ l :: post)%list /\ entry_of l = Some (k, v) /\
                Forall (fun l' => forall v', entry_of l' <> Some (k, v')) post) \/
             inputs !! k = Some v /\
             Forall (fun l' => forall v', entry_of l' <> Some (k, v')) lines)).
  { clear. induction lines as [|l lines IH]; intros inputs m.
    - intros [= <-]. split.
      + intros H. right. split; [exact H | constructor].
      + intros [(pre & l & post & H & _) | [H _]]; [|exact H].
        destruct pre; discriminate.
    - rewrite read_lines_cons.
      destruct (entry_of l) as [[k0 v0]|] eqn:El; [|discriminate].
      intros H. rewrite (IH _ _ H). split.
      + intros [(pre & l' & post & -> & He & HF) | [Hk HF]].
        * left. exists (l :: pre), l', post. auto.
        * destruct (decide (k0 = k)) as [->|Hne].
          -- rewrite lookup_insert_eq in Hk. injection Hk as ->.
             left. exists [], l, lines. auto.
          -- rewrite lookup_insert_ne in Hk by exact Hne.
             right. split; [exact Hk|]. constructor; [|exact HF].
             intros v'. congruence.
      + intros [(pre & l' & post & Hl & He & HF) | [Hk HF]].
        * destruct pre as [|x pre]; simpl in Hl; injection Hl as <- ->.
          -- right. assert (k0 = k /\ v0 = v) as [-> ->] by (split; congruence).
             split; [apply lookup_insert_eq | exact HF].
          -- left. exists pre, l', post. auto.
        * inversion HF as [|? ? Hl HF']; subst. right.
          split; [|exact HF'].
          rewrite lookup_insert_ne; [exact Hk|]. intros ->. eapply Hl, El. }
  intros H. rewrite (Hgen _ _ _ H). split; [|auto].
  intros [H1 | [H1 _]]; [exact H1|]. rewrite lookup_empty in H1. discriminate.
Qed.

Lemma read_lines_last_wins_witness :
  exists m : gmap string string,
    read_lines ["title: first"; "time: 1"; "title: second"] ∅ = Ok m /\
    m !! "title" = Some "second".
Proof.
  exists (<["title" := "second"]> (<["time" := "1"]> (<["title" := "first"]> ∅))).
  split; [reflexivity|].
  apply (proj2 (read_lines_last_wins
                  ["title: first"; "time: 1"; "title: second"] _
                  "title" "second" eq_refl)).
  exists ["title: first"; "time: 1"], "title: second", [].
  repeat split; constructor.
Defined.

(** *** Lines as they are written *)

Lemma append_assoc (s t u : string) : (s +:+ t) +:+ u = s +:+ t +:+ u.
Proof.
  induction s as [|a s IH]; [reflexivity|].
  change (String a ((s +:+ t) +:+ u) = String a (s +:+ t +:+ u)).
  now rewrite IH.
Qed.

Lemma split_str_written k v :
  contains ": " k = false ->
  split_str ": " (k +:+ ": " +:+ v) = k :: split_str ": " v.
Proof.
  unfold split_str. induction k as [|a k IH]; intros Hk.
  - reflexivity.
  - cbn [contains] in Hk. apply orb_false_iff in Hk as [Hs Hk].
    change ((String a k) +:+ ": " +:+ v) with (String a (k +:+ ": " +:+ v)).
    cbn [split_at].
    assert (E : startswith ": " (String a (k +:+ ": " +:+ v)) = false).
    { cbn [startswith] in Hs |- *.
      destruct (Ascii.eqb ":" a); [|reflexivity]. cbn [andb] in Hs |- *.
      destruct k as [|b k]; [reflexivity|].
      change (String b k +:+ ": " +:+ v) with (String b (k +:+ ": " +:+ v)).
      cbn [startswith] in Hs |- *.
      destruct (Ascii.eqb " " b); [discriminate | reflexivity]. }
    rewrite E, (IH Hk). reflexivity.
Qed.

Lemma split_str_none sep s :
  sep <> EmptyString -> contains sep s = false -> split_str sep s = [s].
Proof.
  intros Hsep. unfold split_str. induction s as [|a s IH]; [reflexivity|].
  cbn [contains split_at]. intros H. apply orb_false_iff in H as [Hs Hc].
  rewrite Hs, (IH Hc). reflexivity.
Qed.

(** X20.  A line written as key, ': ', value and a line end, with a key
    that does not contain ': ' and a value that is not empty and does not
    end in white space, gives the key the value up to the first ': ' in
    it: a value without ': ' is read back whole, a value with one is cut
    there. *)
Theorem read_lines_written (k v : string) (inputs : gmap string string) :
  contains ": " k = false -> v <> EmptyString -> rstrip v = v ->
  read_lines [k +:+ ": " +:+ v +:+ String "010" ""] inputs
  = Ok (<[k := hd EmptyString (split_str ": " v)]> inputs) /\
  (contains ": " v = false ->
   read_lines [k +:+ ": " +:+ v +:+ String "010" ""] inputs
   = Ok (<[k := v]> inputs)).
Proof.
  intros Hk Hv Hr.
  assert (E : rstrip (k +:+ ": " +:+ v +:+ String "010" "") = k +:+ ": " +:+ v).
  { replace (k +:+ ": " +:+ v +:+ String "010" "")
      with ((k +:+ ": " +:+ v) +:+ String "010" "").
    2: { now rewrite !append_assoc. }
    rewrite rstrip_app_space by reflexivity.
    change (k +:+ ": " +:+ v) with (k +:+ (": " +:+ v)).
    rewrite rstrip_app_keep.
    - f_equal. change (": " +:+ v) with (String ":" (String " " v)).
      change (String ":" (String " " v)) with (": " +:+ v).
      rewrite (rstrip_app_keep ": " v); congruence.
    - change (": " +:+ v) with (String ":" (String " " v)). simpl.
      destruct (rstrip v); discriminate. }
  assert (Hgen : read_lines [k +:+ ": " +:+ v +:+ String "010" ""] inputs
                 = Ok (<[k := hd EmptyString (split_str ": " v)]> inputs)).
  { cbn [read_lines]. rewrite E, (split_str_written k v Hk).
    pose proof (split_at_nonempty ": " 0 v) as Hne. unfold split_str in *.
    destruct (split_at ": " 0 v) as [|p ps]; [contradiction | reflexivity]. }
  split; [exact Hgen|].
  intros Hc. rewrite Hgen, (split_str_none ": " v) by (discriminate || exact Hc).
  reflexivity.
Qed.

Lemma read_lines_written_witness :
  read_lines ["title" +:+ ": " +:+ "Run: test" +:+ String "010" ""] ∅
  = Ok (<["title" := hd EmptyString (split_str ": " "Run: test")]> ∅) /\
  (contains ": " "Run: test" = false ->
   read_lines ["title" +:+ ": " +:+ "Run: test" +:+ String "010" ""] ∅
   = Ok (<["title" := "Run: test"]> ∅)).
Proof.
  apply (read_lines_written "title" "Run: test" ∅).
  - reflexivity.
  - discriminate.
  - reflexivity.
Defined.

End InputsFacts.
(** ** PlotNAME: the bounds handed to the plotting *)

Module BoundsFacts.
Import Float PlotInputs PlotNAME.

Lemma digits2_bound (m : positive) : Zpos m < 2 ^ Zpos (digits2_pos m).
Proof.
  induction m as [m IH|m IH|]; simpl digits2_pos;
    rewrite ?Pos2Z.inj_succ, ?Z.pow_succ_r by lia; lia.
Qed.

(** The mantissa and the exponent of a float of the format. *)
Lemma binary64_finite s m e :
  binary64 (S754_finite s m e) -> Zpos m < 2 ^ 53 /\ -1074 <= e.
Proof.
  unfold binary64, valid_binary, bounded, canonical_mantissa.
  intros H. apply andb_true_iff in H as [H _].
  apply Z.eqb_eq in H. unfold SpecFloat.fexp, SpecFloat.emin in H.
  change (3 - emax - prec) with (-1074) in H. change prec with 53 in H.
  pose proof (digits2_bound m) as Hd.
  split; [|lia].
  assert (Zpos (digits2_pos m) <= 53) by lia.
  eapply Z.lt_le_trans; [exact Hd|]. apply Z.pow_le_mono_r; lia.
Qed.

(** [int] of a float that is not below the negative bound [- B], written
    with the mantissa [M] and the exponent [E]. *)
Lemma int_lower (M : positive) (E B : Z) x v :
  E < 0 -> 0 <= 52 + E -> Zpos M = B * 2 ^ (- E) -> 2 ^ (52 + E) <= B ->
  binary64 x -> ltb x (S754_finite true M E) = false -> int x = Ok v ->
  - B <= v.
Proof.
  intros HE HE' HM HB Hx Hlt Hv.
  assert (0 < B) by (pose proof (Z.pow_pos_nonneg 2 (52 + E)); lia).
  destruct x as [s|s| |s m e]; simpl in Hv; try discriminate.
  - injection Hv as <-. lia.
  - destruct (binary64_finite s m e Hx) as [Hm He].
    injection Hv as <-. destruct s.
    2: { assert (0 <= if 0 <=? e then Zpos m * 2 ^ e else Zpos m / 2 ^ (- e)).
         { destruct (0 <=? e) eqn:E0.
           - pose proof (Z.pow_nonneg 2 e). nia.
           - apply Z.div_pos; [lia|]. apply Z.pow_pos_nonneg; lia. }
         lia. }
    unfold ltb, SFltb, SFcompare in Hlt.
    destruct (e ?= E) eqn:Ec.
    + apply Z.compare_eq in Ec. subst e.
      destruct (0 <=? E) eqn:E0; [lia|].
      assert (Hle : (m <= M)%positive).
      { destruct (Pos.compare_cont Eq m M) eqn:Ecmp; try discriminate;
          unfold Pos.le, Pos.compare; rewrite Ecmp; discriminate. }
      assert (Zpos m / 2 ^ (- E) <= B).
      { rewrite <- (Z.div_mul B (2 ^ (- E))) by lia. rewrite <- HM.
        apply Z.div_le_mono; [lia|]. lia. }
      lia.
    + rewrite Z.compare_lt_iff in Ec.
      destruct (0 <=? e) eqn:E0; [lia|].
      assert (Zpos m / 2 ^ (- e) < B + 1); [|lia].
      apply Z.div_lt_upper_bound; [lia|].
      assert (2 ^ 53 = 2 ^ (1 - E) * 2 ^ (52 + E))
        by (rewrite <- Z.pow_add_r by lia; f_equal; lia).
      assert (2 ^ (1 - E) <= 2 ^ (- e)) by (apply Z.pow_le_mono_r; lia).
      assert (0 < 2 ^ (1 - E)) by lia.
      nia.
    + discriminate.
Qed.

(** [int] of a float that is not above the positive bound [B]. *)
Lemma int_upper (M : positive) (E B : Z) x v :
  E < 0 -> 0 <= 52 + E -> Zpos M = B * 2 ^ (- E) -> 2 ^ (52 + E) <= B ->
  binary64 x -> gtb x (S754_finite false M E) = false -> int x = Ok v ->
  v <= B.
Proof.
  intros HE HE' HM HB Hx Hlt Hv.
  assert (0 < B) by (pose proof (Z.pow_pos_nonneg 2 (52 + E)); lia).
  destruct x as [s|s| |s m e]; simpl in Hv; try discriminate.
  - injection Hv as <-. lia.
  - destruct (binary64_finite s m e Hx) as [Hm He].
    injection Hv as <-. destruct s.
    { assert (0 <= if 0 <=? e then Zpos m * 2 ^ e else Zpos m / 2 ^ (- e)).
      { destruct (0 <=? e) eqn:E0.
        - pose proof (Z.pow_nonneg 2 e). nia.
        - apply Z.div_pos; [lia|]. apply Z.pow_pos_nonneg; lia. }
      lia. }
    unfold gtb, SFltb, SFcompare in Hlt.
    destruct (E ?= e) eqn:Ec.
    + apply Z.compare_eq in Ec. subst e.
      destruct (0 <=? E) eqn:E0; [lia|].
      assert (Hle : (m <= M)%positive).
      { destruct (Pos.compare_cont Eq M m) eqn:Ecmp; try discriminate.
        - apply Pos.compare_eq in Ecmp. subst. reflexivity.
        - apply Pos.lt_le_incl. apply Pos.gt_lt. exact Ecmp. }
      rewrite <- (Z.div_mul B (2 ^ (- E))) by lia. rewrite <- HM.
      apply Z.div_le_mono; lia.
    + discriminate.
    + rewrite Z.compare_gt_iff in Ec.
      destruct (0 <=? e) eqn:E0; [lia|].
      assert (Zpos m / 2 ^ (- e) < B + 1); [|lia].
      apply Z.div_lt_upper_bound; [lia|].
      assert (2 ^ 53 = 2 ^ (1 - E) * 2 ^ (52 + E))
        by (rewrite <- Z.pow_add_r by lia; f_equal; lia).
      assert (2 ^ (1 - E) <= 2 ^ (- e)) by (apply Z.pow_le_mono_r; lia).
      assert (0 < 2 ^ (1 - E)) by lia.
      nia.
Qed.

Lemma int_raises x e :
  int x = Raise e ->
  not_finite x /\
  (e = ValueError "cannot convert float NaN to integer" \/
   e = OverflowError "cannot convert float infinity to integer").
Proof.
  destruct x; simpl; try discriminate; intros [= <-]; auto.
Qed.

(** X21.  For a request that passes the test of the bounding box, with
    bounds that are floats of binary64, the whole numbers handed to the
    plotting library lie within the limits: the lower longitude is -180 or
    more and the upper 180 or less, the lower latitude -90 or more and the
    upper 90 or less.  The conversion fails only for a bound that is
    infinite or not a number; a lower longitude that is not a number
    passes the test of the box and then fails the conversion with
    [ValueError]. *)
Theorem plot_bounds_within (q : request) :
  (binary64 (min_lon q) -> binary64 (max_lon q) ->
   binary64 (min_lat q) -> binary64 (max_lat q) ->
   check_bbox q = Ok tt ->
   match plot_bounds q with
   | Ok ((lon_min, lon_max), (lat_min, lat_max)) =>
       -180 <= lon_min /\ lon_max <= 180 /\ -90 <= lat_min /\ lat_max <= 90
   | Raise e =>
       (not_finite (min_lon q) \/ not_finite (max_lon q) \/
        not_finite (min_lat q) \/ not_finite (max_lat q)) /\
       (e = ValueError "cannot convert float NaN to integer" \/
        e = OverflowError "cannot convert float infinity to integer")
   end) /\
  (min_lon q = S754_nan ->
   ltb (min_lon q) m180 = false /\
   plot_bounds q = Raise (ValueError "cannot convert float NaN to integer")).
Proof.
  split.
  - intros V1 V2 V3 V4 Hb.
    unfold check_bbox in Hb.
    destruct (ltb (min_lon q) m180) eqn:B1; [discriminate|].
    destruct (gtb (max_lon q) p180) eqn:B2; [discriminate|].
    destruct (ltb (min_lat q) m90) eqn:B3; [discriminate|].
    destruct (gtb (max_lat q) p90) eqn:B4; [discriminate|].
    unfold plot_bounds.
    destruct (int (min_lon q)) as [a|e] eqn:E1; cbn [rbind];
      [|apply int_raises in E1 as [H1 H2]; auto].
    destruct (int (max_lon q)) as [b|e] eqn:E2; cbn [rbind];
      [|apply int_raises in E2 as [H1 H2]; auto].
    destruct (int (min_lat q)) as [c|e] eqn:E3; cbn [rbind];
      [|apply int_raises in E3 as [H1 H2]; auto].
    destruct (int (max_lat q)) as [d|e] eqn:E4; cbn [rbind];
      [|apply int_raises in E4 as [H1 H2]; auto 6].
    repeat split.
    + apply (int_lower 6333186975989760 (-45) 180 (min_lon q) a);
        try assumption; try lia; vm_compute; congruence.
    + apply (int_upper 6333186975989760 (-45) 180 (max_lon q) b);
        try assumption; try lia; vm_compute; congruence.
    + apply (int_lower 6333186975989760 (-46) 90 (min_lat q) c);
        try assumption; try lia; vm_compute; congruence.
    + apply (int_upper 6333186975989760 (-46) 90 (max_lat q) d);
        try assumption; try lia; vm_compute; congruence.
  - intros H. unfold plot_bounds. rewrite H. split; reflexivity.
Qed.

Lemma plot_bounds_within_witness :
  match plot_bounds PlotSamples.whole_globe with
  | Ok ((lon_min, lon_max), (lat_min, lat_max)) =>
      -180 <= lon_min /\ lon_max <= 180 /\ -90 <= lat_min /\ lat_max <= 90
  | Raise e =>
      (not_finite (min_lon PlotSamples.whole_globe) \/
       not_finite (max_lon PlotSamples.whole_globe) \/
       not_finite (min_lat PlotSamples.whole_globe) \/
       not_finite (max_lat PlotSamples.whole_globe)) /\
      (e = ValueError "cannot convert float NaN to integer" \/
       e = OverflowError "cannot convert float infinity to integer")
  end.
Proof.
  apply (proj1 (plot_bounds_within PlotSamples.whole_globe)); reflexivity.
Defined.

End BoundsFacts.

(** ** PlotNAME: the output files the handler looks for *)

Module GlobFacts.
Import Str PlotNAME.

Lemma startswith_iff p s :
  startswith p s = true <-> exists r, s = p +:+ r.
Proof.
  revert s. induction p as [|a p IH]; intros s; simpl.
  - split; [eauto | reflexivity].
  - destruct s as [|b s]; [split; [discriminate | intros [r Hr]; discriminate]|].
    rewrite andb_true_iff, Ascii.eqb_eq, IH. split.
    + intros [-> [r ->]]. exists r. reflexivity.
    + intros [r Hr]. injection Hr as -> ->. eauto.
Qed.

Lemma endswith_iff p s :
  endswith p s = true <-> exists r, s = r +:+ p.
Proof.
  induction s as [|b s IH]; simpl.
  - rewrite orb_false_r, String.eqb_eq. split.
    + intros ->. exists EmptyString. reflexivity.
    + intros [[|c r] Hr]; simpl in Hr; [auto | discriminate].
  - rewrite orb_true_iff, String.eqb_eq, IH. split.
    + intros [-> | [r ->]]; [exists EmptyString | exists (String b r)]; reflexivity.
    + intros [[|c r] Hr]; simpl in Hr; [left; auto|].
      injection Hr as -> ->. right. eauto.
Qed.

Lemma substring_all s : String.substring 0 (String.length s) s = s.
Proof. induction s as [|a s IH]; simpl; [reflexivity | now rewrite IH]. Qed.

Lemma after_group r :
  String.substring 6 (String.length ("_group" +:+ r) - 6) ("_group" +:+ r) = r.
Proof.
  change ("_group" +:+ r)
    with (String "_" (String "g" (String "r" (String "o" (String "u"
           (String "p" r)))))).
  cbn [String.length]. rewrite !Nat.sub_succ, Nat.sub_0_r.
  cbn [String.substring]. apply substring_all.
Qed.

(** The pattern [*_group*.txt]. *)
Lemma fnmatch_group_txt_iff s :
  fnmatch_group_txt s = true <->
  exists x y, s = x +:+ "_group" +:+ y +:+ ".txt".
Proof.
  induction s as [|a s IH].
  - simpl. split; [discriminate|].
    intros ([|c x] & y & H); discriminate.
  - cbn [fnmatch_group_txt]. rewrite orb_true_iff, andb_true_iff, IH. split.
    + intros [[H1 H2] | (x & y & ->)].
      * apply startswith_iff in H1 as [r Hr]. rewrite Hr in H2 |- *.
        rewrite after_group in H2. apply endswith_iff in H2 as [y ->].
        exists EmptyString, y. reflexivity.
      * exists (String a x), y. reflexivity.
    + intros ([|c x] & y & H).
      * left. change (EmptyString +:+ "_group" +:+ y +:+ ".txt")
          with ("_group" +:+ (y +:+ ".txt")) in H. rewrite H.
        split; [apply startswith_iff; eauto|].
        rewrite after_group. apply endswith_iff. eauto.
      * right. injection H as -> ->. eauto.
Qed.

Lemma endswith_longer p c s : endswith (String c p) s = true -> endswith p s = true.
Proof.
  rewrite !endswith_iff. intros [r ->]. exists (r +:+ String c EmptyString).
  clear. induction r as [|a r IH]; [reflexivity|].
  change (String a (r +:+ String c p) = String a ((r +:+ String c "") +:+ p)).
  now rewrite IH.
Qed.

(** X22.  The files the handler looks for before it plots are the entries
    of the outputs directory that do not begin with a dot and are written
    as some text, '_group', some text and '.txt'.  Each of them ends in
    'txt', so the grouper does not pass it over. *)
Theorem glob_group_txt_matches (entries : list string) (name : string) :
  (name ∈ glob_group_txt entries <->
   name ∈ entries /\ startswith "." name = false /\
   exists x y, name = x +:+ "_group" +:+ y +:+ ".txt") /\
  (name ∈ glob_group_txt entries -> endswith "txt" name = true).
Proof.
  assert (Hiff : name ∈ glob_group_txt entries <->
            name ∈ entries /\ startswith "." name = false /\
            exists x y, name = x +:+ "_group" +:+ y +:+ ".txt").
  { unfold glob_group_txt.
    rewrite !list_elem_of_In, filter_In, andb_true_iff, negb_true_iff,
      fnmatch_group_txt_iff. tauto. }
  split; [exact Hiff|].
  intros H. apply Hiff in H as (_ & _ & x & y & ->).
  apply (endswith_longer "txt" "."). apply endswith_iff.
  exists (x +:+ "_group" +:+ y).
  clear. induction x as [|a x IH].
  - change (EmptyString +:+ "_group" +:+ y +:+ ".txt")
      with ("_group" +:+ (y +:+ ".txt")).
    change ((EmptyString +:+ "_group" +:+ y) +:+ ".txt")
      with (("_group" +:+ y) +:+ ".txt").
    generalize "_group". intros g. induction g as [|b g IHg]; [reflexivity|].
    change (String b (g +:+ (y +:+ ".txt")) = String b ((g +:+ y) +:+ ".txt")).
    now rewrite IHg.
  - change (String a (x +:+ "_group" +:+ y +:+ ".txt")
            = String a ((x +:+ "_group" +:+ y) +:+ ".txt")).
    now rewrite IH.
Qed.

Lemma glob_group_txt_matches_witness :
  endswith "txt" "TestRun1_group1_a.txt" = true.
Proof.
  apply (proj2 (glob_group_txt_matches
                  (outputs (PlotSamples.two_groups 2 None))
                  "TestRun1_group1_a.txt")).
  left.
Defined.

End GlobFacts.

(** ** The summaries by week and by month *)

Module Buckets.
Import PlotNAME PlotProps PlotStages Run Directories Reports.

Lemma render_log w j st r st' :
  render w j st = (r, st') -> log st' = (log st ++ [log_of w j])%list.
Proof.
  rewrite render_unfold.
  set (st0 := with_log _ st).
  destruct (percent (plots_made st0 + 1) (tot_plots st0)) as [p|e] eqn:E.
  - rewrite (progress_ok st0 p E). destruct (_ =? _); intros [= <- <-]; reflexivity.
  - rewrite (progress_raise st0 e E). intros [= <- <-]. reflexivity.
Qed.

Lemma for_each_ext {A} (l : list A) (f f' : A -> M unit) st :
  (forall x st1, f x st1 = f' x st1) -> for_each l f st = for_each l f' st.
Proof.
  intros H. revert st. induction l as [|x l IH]; intros st; [reflexivity|].
  simpl. unfold bind. rewrite H. destruct (f' x st) as [[[]|e] st1]; auto.
Qed.

(** A loop that renders the buckets that have files logs them in the order
    of the loop, up to the first render that raises. *)
Lemma buckets_log w (has : Z -> bool) (mk : Z -> job) (bs : list Z) :
  forall st r st',
    for_each bs (fun b => if has b then render w (mk b) else ret tt) st
    = (r, st') ->
    exists ks,
      log st' = (log st ++ ((fun b => log_of w (mk b)) <$> ks))%list /\
      ks `prefix_of` List.filter has bs /\
      (r = Ok tt -> ks = List.filter has bs).
Proof.
  induction bs as [|b bs IH]; intros st r st' H.
  - injection H as <- <-. exists []. simpl. rewrite app_nil_r. auto.
  - simpl in H. unfold bind in H. cbn [List.filter].
    destruct (has b) eqn:Eb.
    + destruct (render w (mk b) st) as [[[]|e] st1] eqn:Er;
        pose proof (render_log _ _ _ _ _ Er) as Hl.
      * destruct (IH _ _ _ H) as (ks & L & P & F).
        exists (b :: ks). rewrite L, Hl, <- app_assoc. simpl.
        split; [reflexivity|]. split; [now apply prefix_cons|].
        intros Hr. now rewrite F.
      * injection H as <- <-. exists [b]. rewrite Hl. simpl.
        split; [reflexivity|]. split; [|discriminate].
        apply prefix_cons, prefix_nil.
    + simpl in H. exact (IH _ _ _ H).
Qed.

Lemma listdir_inv d st r st' :
  listdir d st = (r, st') ->
  st' = st /\
  (r = Ok (default [] (tmpfs st !! d)) /\ is_Some (tmpfs st !! d) \/
   (exists e, r = Raise e) /\ tmpfs st !! d = None).
Proof.
  unfold listdir, bind, get, ret, raise.
  destruct (tmpfs st !! d) as [l|]; intros [= <- <-]; split; eauto.
Qed.

Lemma rmtree_log d st r st' : rmtree d st = (r, st') -> log st' = log st.
Proof. intros H. now destruct (rmtree_only _ _ _ _ H) as (_ & L & _). Qed.

(** X23.  In the modes 'week' and 'month' a group is plotted for the weeks
    1 to 52, or the months 1 to 12, for which the summary finds files, in
    ascending order and each once, and for nothing else: the log of the
    group is the list of those weeks or months, up to the first one whose
    progress computation raises, and all of them when the group returns.
    A week 53 is never plotted. *)
Theorem summary_buckets_in_order
    (w : world) (q : request) (g : Z) (d : nat) (s : list string)
    (st st' : state) (r : result unit) :
  tmpfs st !! d = Some s ->
  (plot_group w q "week" (g, d) st = (r, st') ->
   exists weeks,
     log st' = (log st ++ ((fun k => log_of w (JWeek d k)) <$> weeks))%list /\
     weeks `prefix_of`
       List.filter (fun k => negb (Z.of_nat (length (sumWeek w s k)) =? 0))
                   (seqZ 1 52) /\
     Forall (fun k => 1 <= k <= 52) weeks /\
     (r = Ok tt ->
      weeks = List.filter (fun k => negb (Z.of_nat (length (sumWeek w s k)) =? 0))
                          (seqZ 1 52))) /\
  (plot_group w q "month" (g, d) st = (r, st') ->
   exists months,
     log st' = (log st ++ ((fun k => log_of w (JMonth d k)) <$> months))%list /\
     months `prefix_of`
       List.filter (fun k => negb (Z.of_nat (length (sumMonth w s k)) =? 0))
                   (seqZ 1 12) /\
     Forall (fun k => 1 <= k <= 12) months /\
     (r = Ok tt ->
      months = List.filter (fun k => negb (Z.of_nat (length (sumMonth w s k)) =? 0))
                           (seqZ 1 12))).
Proof.
  intros Hd.
  assert (Hrange : forall (has : Z -> bool) n ks,
            ks `prefix_of` List.filter has (seqZ 1 n) ->
            Forall (fun k => 1 <= k <= n) ks).
  { intros has n ks [rest Hp]. apply Forall_forall. intros k Hk.
    assert (Hin : k ∈ List.filter has (seqZ 1 n)).
    { rewrite Hp. apply elem_of_app. now left. }
    apply list_elem_of_In, filter_In in Hin as [Hin _].
    apply list_elem_of_In, elem_of_seqZ in Hin. lia. }
  assert (Hbody : forall (files : list string -> Z -> list string)
                         (mk : Z -> job) n
                         (loop : list string -> M unit),
            (forall s0 st0, loop s0 st0
             = for_each (seqZ 1 n)
                 (fun b => if negb (Z.of_nat (length (files s0 b)) =? 0)
                           then render w (mk b) else ret tt) st0) ->
            bind (listdir d) (fun s0 => bind (loop s0) (fun _ => rmtree d)) st
            = (r, st') ->
            exists ks,
              log st' = (log st ++ ((fun k => log_of w (mk k)) <$> ks))%list /\
              ks `prefix_of`
                List.filter (fun k => negb (Z.of_nat (length (files s k)) =? 0))
                            (seqZ 1 n) /\
              Forall (fun k => 1 <= k <= n) ks /\
              (r = Ok tt ->
               ks = List.filter
                      (fun k => negb (Z.of_nat (length (files s k)) =? 0))
                      (seqZ 1 n))).
  { intros files mk n loop Hloop H.
    rewrite (bind_ok _ _ _ _ _ (Cleanup.listdir_ok d s st Hd)) in H.
    unfold bind in H. rewrite Hloop in H.
    destruct (for_each _ _ st) as [[[]|e] st1] eqn:El;
      destruct (buckets_log _ _ _ _ _ _ _ El) as (ks & L & P & F).
    - apply rmtree_log in H. exists ks. rewrite H.
      split; [exact L|]. split; [exact P|]. split; [eapply Hrange, P|].
      intros _. now apply F.
    - injection H as <- <-. exists ks.
      split; [exact L|]. split; [exact P|]. split; [eapply Hrange, P|].
      discriminate. }
  split; intros H.
  - apply (Hbody (sumWeek w) (JWeek d) 52
             (fun s0 => for_each (seqZ 1 52)
                (fun week => if Z.of_nat (length (sumWeek w s0 week)) =? 0
                             then ret tt else render w (JWeek d week)))).
    + intros s0 st0. apply for_each_ext.
      intros b st1. now destruct (_ =? _).
    + exact H.
  - apply (Hbody (sumMonth w) (JMonth d) 12
             (fun s0 => for_each (seqZ 1 12)
                (fun month => if Z.of_nat (length (sumMonth w s0 month)) =? 0
                              then ret tt else render w (JMonth d month)))).
    + intros s0 st0. apply for_each_ext.
      intros b st1. now destruct (_ =? _).
    + exact H.
Qed.

End Buckets.

Section BucketInstances.
Import PlotNAME PlotProps PlotSamples PlotCases.

Lemma summary_buckets_in_order_witness :
  exists weeks,
    log (snd (plot_group weekly whole_globe "week" (1, 0%nat) staged_weekly))
    = (log staged_weekly
       ++ ((fun k => log_of weekly (JWeek 0%nat k)) <$> weeks))%list /\
    weeks `prefix_of`
      List.filter
        (fun k => negb (Z.of_nat (length (sumWeek weekly
                                            ["TestRun1_group1_a.txt"] k)) =? 0))
        (seqZ 1 52) /\
    Forall (fun k => 1 <= k <= 52) weeks /\
    (fst (plot_group weekly whole_globe "week" (1, 0%nat) staged_weekly) = Ok tt ->
     weeks = List.filter
               (fun k => negb (Z.of_nat (length (sumWeek weekly
                                                   ["TestRun1_group1_a.txt"] k))
                               =? 0))
               (seqZ 1 52)).
Proof.
  apply (proj1 (Buckets.summary_buckets_in_order
                  weekly whole_globe 1 0%nat ["TestRun1_group1_a.txt"]
                  staged_weekly
                  (snd (plot_group weekly whole_globe "week" (1, 0%nat)
                          staged_weekly))
                  (fst (plot_group weekly whole_globe "week" (1, 0%nat)
                          staged_weekly))
                  eq_refl)).
  vm_compute. reflexivity.
Defined.

End BucketInstances.
(** ** The percentage against exact arithmetic *)

Module Accuracy.
Import Float RoundFacts OpFacts PercentFacts PlotNAME.

(** A fraction [a / 2 ^ j] with [a] below [2 ^ 53] has a magnitude of
    [53 - j] at most. *)
Lemma mag_dyadic a j :
  0 < a < 2 ^ 53 -> 0 <= j -> mag a (2 ^ j) <= 53 - j.
Proof.
  intros Ha Hj.
  assert (Hb : 0 < 2 ^ j) by (apply Z.pow_pos_nonneg; lia).
  destruct (mag_spec a (2 ^ j) ltac:(lia) Hb) as [L _].
  destruct (Z_le_gt_dec (mag a (2 ^ j)) (53 - j)) as [Hle|Hgt]; [exact Hle|].
  exfalso. set (t := mag a (2 ^ j) - 1) in *. unfold num, den in L.
  assert (H1 : a * 2 ^ Z.max 0 (- t) < 2 ^ 53 * 2 ^ Z.max 0 (- t)).
  { apply Z.mul_lt_mono_pos_r; [apply Z.pow_pos_nonneg; lia | lia]. }
  rewrite <- !Z.pow_add_r in * by lia.
  assert (H2 : 2 ^ (j + Z.max 0 t) < 2 ^ (53 + Z.max 0 (- t))) by lia.
  apply Z.pow_lt_mono_r_iff in H2; lia.
Qed.

(** Such a fraction is a float: its rounding is exact. *)
Lemma ulps_dyadic a j :
  0 < a < 2 ^ 53 -> 0 <= j <= 1074 ->
  ulps (round false (Z.to_pos a) (Z.to_pos (2 ^ j))) = a * 2 ^ (1074 - j).
Proof.
  intros Ha Hj.
  assert (Hb : 0 < 2 ^ j) by (apply Z.pow_pos_nonneg; lia).
  rewrite ulps_round, round_me_units, !Z2Pos.id by lia.
  pose proof (mag_dyadic a j Ha ltac:(lia)) as Hm.
  unfold raw, units.
  remember (fexp (mag a (2 ^ j))) as e eqn:He.
  assert (Hlo : -1074 <= e) by (subst e; unfold fexp, emin; lia).
  assert (Hhi : e <= - j) by (subst e; unfold fexp, emin, prec; lia).
  unfold num, den.
  replace (Z.max 0 (- e)) with (- e) by lia.
  replace (Z.max 0 e) with 0 by lia.
  rewrite Z.pow_0_r, Z.mul_1_r.
  replace (a * 2 ^ (- e)) with ((a * 2 ^ (- e - j)) * 2 ^ j).
  2: { rewrite <- Z.mul_assoc, <- Z.pow_add_r by lia. do 2 f_equal. lia. }
  rewrite rne_exact by exact Hb.
  change emin with (-1074).
  rewrite <- Z.mul_assoc, <- Z.pow_add_r by lia.
  replace (- e - j + (e - -1074)) with (1074 - j) by lia.
  apply Z.min_l.
  assert (a * 2 ^ (1074 - j) < 2 ^ 53 * 2 ^ (1074 - j)).
  { apply Z.mul_lt_mono_pos_r; [apply Z.pow_pos_nonneg; lia | lia]. }
  assert (2 ^ 53 * 2 ^ (1074 - j) <= top).
  { rewrite <- Z.pow_add_r by lia. unfold top, emax, emin.
    apply Z.pow_le_mono_r; lia. }
  lia.
Qed.

Lemma below_limit n : n <= 2 ^ 40 -> n <= limit.
Proof.
  intros H. unfold limit. apply Z.le_trans with (2 ^ 40); [lia|].
  apply Z.pow_le_mono_r; lia.
Qed.

(** A count below [2 ^ 53] is a float. *)
Lemma of_Z_exact k :
  0 < k < 2 ^ 53 -> positive_finite (of_Z k) /\ ulps (of_Z k) = k * unit1.
Proof.
  intros Hk. split.
  - apply of_Z_finite. split; [lia|].
    apply Z.lt_le_incl, Z.lt_le_trans with (2 ^ 53); [lia|].
    unfold limit. apply Z.pow_le_mono_r; lia.
  - rewrite (of_Z_round k) by lia.
    pose proof (ulps_dyadic k 0 Hk ltac:(lia)) as H.
    rewrite Z.pow_0_r, Z.sub_0_r in H. exact H.
Qed.

Lemma unit1_split : unit1 = 2 ^ 53 * 2 ^ 1021.
Proof. reflexivity. Qed.

(** The quotient of two counts lies between the multiples of [2 ^ -53]
    around the exact quotient. *)
Lemma quotient_sandwich k n c :
  0 < k < 2 ^ 53 -> 0 < n < 2 ^ 53 -> 0 < c < 2 ^ 53 ->
  (c * n <= k * 2 ^ 53 -> c * 2 ^ 1021 <= ulps (div (of_Z k) (of_Z n))) /\
  (k * 2 ^ 53 <= c * n -> ulps (div (of_Z k) (of_Z n)) <= c * 2 ^ 1021).
Proof.
  intros Hk Hn Hc.
  destruct (of_Z_exact k Hk) as [Fk Uk]. destruct (of_Z_exact n Hn) as [Fn Un].
  destruct (div_round _ _ Fk Fn) as (A & B & -> & E).
  rewrite Uk, Un in E. pose proof unit1_pos as HU.
  assert (E' : Zpos A * n = k * Zpos B).
  { apply (Z.mul_cancel_r _ _ unit1); [lia|]. lia. }
  pose proof (ulps_dyadic c 53 Hc ltac:(lia)) as Hd.
  change (1074 - 53) with 1021 in Hd.
  assert (E2 : Zpos A * 2 ^ 53 * n = (k * 2 ^ 53) * Zpos B).
  { transitivity ((Zpos A * n) * 2 ^ 53); [ring|]. rewrite E'. ring. }
  split; intros H; rewrite <- Hd; apply round_mono; rewrite !Z2Pos.id by lia.
  - apply (Z.mul_le_mono_pos_r _ _ n); [lia|]. rewrite E2.
    replace (c * Zpos B * n) with ((c * n) * Zpos B) by ring.
    apply Z.mul_le_mono_nonneg_r; lia.
  - apply (Z.mul_le_mono_pos_r _ _ n); [lia|]. rewrite E2.
    replace (c * Zpos B * n) with ((c * n) * Zpos B) by ring.
    apply Z.mul_le_mono_nonneg_r; lia.
Qed.

(** The product of a float with 85, against a whole number below it and a
    dyadic fraction above it. *)
Lemma product_sandwich d :
  positive_finite d ->
  (forall G, 0 < G < 2 ^ 53 -> G * unit1 <= 85 * ulps d ->
             G * unit1 <= ulps (mul d (of_Z 85))) /\
  (forall a j, 0 < a < 2 ^ 53 -> 0 <= j <= 1074 ->
               85 * ulps d * 2 ^ j <= a * unit1 ->
               ulps (mul d (of_Z 85)) <= a * 2 ^ (1074 - j)).
Proof.
  intros Hd. destruct of_Z_85 as [F85 U85].
  destruct (mul_round _ _ Hd F85) as (A & B & -> & E).
  rewrite U85 in E. pose proof unit1_pos as HU.
  change (2 ^ (- emin)) with unit1 in E.
  assert (E' : Zpos A * unit1 = 85 * ulps d * Zpos B).
  { apply (Z.mul_cancel_r _ _ unit1); [lia|]. rewrite <- Z.mul_assoc, E. ring. }
  split.
  - intros G HG H.
    pose proof (ulps_dyadic G 0 HG ltac:(lia)) as Hg.
    rewrite Z.pow_0_r, Z.sub_0_r in Hg. change (2 ^ 1074) with unit1 in Hg.
    rewrite <- Hg. apply round_mono. rewrite !Z2Pos.id by lia.
    change (Z.pos (Z.to_pos 1)) with 1.
    apply (Z.mul_le_mono_pos_r _ _ unit1); [lia|].
    replace (G * Zpos B * unit1) with ((G * unit1) * Zpos B) by ring.
    replace (Zpos A * 1 * unit1) with (Zpos A * unit1) by ring.
    rewrite E'. apply Z.mul_le_mono_nonneg_r; lia.
  - intros a j Ha Hj H.
    assert (Hb : 0 < 2 ^ j) by (apply Z.pow_pos_nonneg; lia).
    rewrite <- (ulps_dyadic a j Ha Hj). apply round_mono.
    rewrite !Z2Pos.id by lia.
    apply (Z.mul_le_mono_pos_r _ _ unit1); [lia|].
    replace (Zpos A * 2 ^ j * unit1) with ((Zpos A * unit1) * 2 ^ j) by ring.
    rewrite E'.
    replace (85 * ulps d * Zpos B * 2 ^ j) with ((85 * ulps d * 2 ^ j) * Zpos B)
      by ring.
    replace (a * Zpos B * unit1) with ((a * unit1) * Zpos B) by ring.
    apply Z.mul_le_mono_nonneg_r; lia.
Qed.

(** The whole part of [(k / n) * 85] in floating point. *)
Lemma scaled_near_exact k n :
  0 < k <= n -> n <= 2 ^ 40 ->
  85 * k / n - 1 <= ulps (scaled k n) / unit1 <= 85 * k / n /\
  (ulps (scaled k n) / unit1 < 85 * k / n -> (85 * k) mod n = 0).
Proof.
  intros Hk Hn.
  assert (P40 : 2 ^ 40 = 1099511627776) by reflexivity.
  assert (P53 : 2 ^ 53 = 9007199254740992) by reflexivity.
  assert (P46 : 2 ^ 46 = 70368744177664) by reflexivity.
  assert (HT : 0 < 2 ^ 1021) by reflexivity.
  pose proof unit1_pos as HU. pose proof unit1_split as EU.
  remember (2 ^ 1021) as T eqn:ET.
  pose proof (Z.div_mod (85 * k) n ltac:(lia)) as Hdm.
  pose proof (Z.mod_pos_bound (85 * k) n ltac:(lia)) as Hr.
  set (F := 85 * k / n) in *. set (r := (85 * k) mod n) in *.
  assert (HF : 0 <= F <= 85).
  { split; [apply Z.div_pos; lia|].
    assert (F < 86); [|lia]. apply Z.div_lt_upper_bound; lia. }
  assert (HFn : 0 <= n * F) by nia.
  set (d := div (of_Z k) (of_Z n)).
  assert (Hk53 : 0 < k < 2 ^ 53) by lia.
  assert (Hn53 : 0 < n < 2 ^ 53) by lia.
  pose proof (below_limit n Hn) as Hnl.
  (* the quotient is a positive float *)
  assert (Hd1 : T <= ulps d).
  { pose proof (proj1 (quotient_sandwich k n 1 Hk53 Hn53 ltac:(lia))) as H.
    rewrite <- ET in H. assert (1 * T <= ulps d) by (apply H; lia). lia. }
  assert (Fd : positive_finite d).
  { destruct (quotient_cases k n ltac:(lia) ltac:(lia)) as [[Hz|Hf] _];
      [|exact Hf].
    fold d in Hz. rewrite Hz in Hd1. simpl in Hd1. lia. }
  destruct (product_sandwich d Fd) as [Plo Phi].
  change (mul d (of_Z 85)) with (scaled k n) in Plo, Phi.
  (* from above *)
  assert (Hup : ulps (scaled k n) / unit1 <= F).
  { destruct (Z.eq_dec k n) as [Ekn|Hne].
    { assert (F = 85) as -> by (unfold F; subst k; apply Z.div_mul; lia).
      pose proof (scaled_le_85 k n ltac:(lia) ltac:(lia) Hnl).
      apply Z.div_le_upper_bound; lia. }
    assert (HF84 : F <= 84).
    { assert (F < 85); [|lia]. apply Z.div_lt_upper_bound; lia. }
    set (N1 := (2 ^ 46 * (F + 1) - 1) * 128).
    set (c1 := N1 / 85).
    pose proof (Z.div_mod N1 85 ltac:(lia)) as Hc.
    pose proof (Z.mod_pos_bound N1 85 ltac:(lia)) as Hcr.
    fold c1 in Hc.
    assert (EN1 : N1 = 2 ^ 53 * (F + 1) - 128) by (unfold N1; lia).
    assert (Hc1 : 0 < c1 < 2 ^ 53) by lia.
    assert (Hkn : k * 2 ^ 53 <= c1 * n).
    { apply (Z.mul_le_mono_pos_l _ _ 85); [lia|].
      assert (H1 : (N1 - 84) * n <= (85 * c1) * n)
        by (apply Z.mul_le_mono_nonneg_r; lia).
      assert (H2 : 85 * (k * 2 ^ 53) = 2 ^ 53 * (n * F) + 2 ^ 53 * r)
        by (rewrite Z.mul_assoc, Hdm; ring).
      assert (H3 : (N1 - 84) * n = 2 ^ 53 * (n * F) + 2 ^ 53 * n - 212 * n)
        by (rewrite EN1; ring).
      replace (85 * (c1 * n)) with ((85 * c1) * n) by ring.
      lia. }
    pose proof (proj2 (quotient_sandwich k n c1 Hk53 Hn53 Hc1) Hkn) as Hd.
    fold d in Hd. rewrite <- ET in Hd.
    assert (Ha : 0 < 2 ^ 46 * (F + 1) - 1 < 2 ^ 53) by lia.
    pose proof (Phi (2 ^ 46 * (F + 1) - 1) 46 Ha ltac:(lia)) as Hp.
    assert (Hpre : 85 * ulps d * 2 ^ 46 <= (2 ^ 46 * (F + 1) - 1) * unit1).
    { rewrite EU.
      replace ((2 ^ 46 * (F + 1) - 1) * (2 ^ 53 * T))
        with ((2 ^ 46 * N1) * T) by (unfold N1; rewrite P53, P46; ring).
      transitivity ((2 ^ 46 * (85 * c1)) * T).
      - replace (85 * ulps d * 2 ^ 46) with ((2 ^ 46 * 85) * ulps d) by ring.
        replace (2 ^ 46 * (85 * c1) * T) with ((2 ^ 46 * 85) * (c1 * T)) by ring.
        apply Z.mul_le_mono_nonneg_l; lia.
      - apply Z.mul_le_mono_nonneg_r; [lia|].
        apply Z.mul_le_mono_nonneg_l; lia. }
    specialize (Hp Hpre).
    assert (E28 : 2 ^ (1074 - 46) = 128 * T) by (subst T; reflexivity).
    assert (Hlt : ulps (scaled k n) < unit1 * (F + 1)).
    { eapply Z.le_lt_trans; [exact Hp|].
      rewrite E28, EU, P53, P46. nia. }
    assert (ulps (scaled k n) / unit1 < F + 1); [|lia].
    apply Z.div_lt_upper_bound; lia. }
  (* from below *)
  set (G := if r =? 0 then F - 1 else F).
  assert (Hlow : G <= ulps (scaled k n) / unit1).
  { destruct (Z_le_gt_dec G 0) as [HG0|HG0].
    { assert (0 <= ulps (scaled k n) / unit1); [|lia].
      apply Z.div_pos; [|lia].
      destruct (scaled_bounds k n ltac:(lia) ltac:(lia)) as [_ [H0 _]].
      exact H0. }
    assert (HG84 : G <= 84).
    { unfold G. destruct (r =? 0) eqn:Er; [lia|].
      apply Z.eqb_neq in Er.
      assert (F < 85); [|lia].
      apply Z.div_lt_upper_bound; [lia|].
      destruct (Z.eq_dec k n) as [->|]; [|lia].
      exfalso. apply Er. unfold r.
      apply Z.mod_mul. lia. }
    set (N0 := G * 2 ^ 53 + 84).
    set (c0 := N0 / 85).
    pose proof (Z.div_mod N0 85 ltac:(lia)) as Hc.
    pose proof (Z.mod_pos_bound N0 85 ltac:(lia)) as Hcr.
    fold c0 in Hc.
    assert (Hc0 : 0 < c0 < 2 ^ 53) by (unfold N0 in *; lia).
    assert (Hc85 : G * 2 ^ 53 <= 85 * c0) by (unfold N0 in *; lia).
    assert (Hkn : c0 * n <= k * 2 ^ 53).
    { apply (Z.mul_le_mono_pos_l _ _ 85); [lia|].
      assert (H1 : (85 * c0) * n <= N0 * n)
        by (apply Z.mul_le_mono_nonneg_r; lia).
      assert (H2 : 85 * (k * 2 ^ 53) = 2 ^ 53 * (n * F) + 2 ^ 53 * r)
        by (rewrite Z.mul_assoc, Hdm; ring).
      replace (85 * (c0 * n)) with ((85 * c0) * n) by ring.
      unfold N0, G in *. destruct (r =? 0) eqn:Er.
      - apply Z.eqb_eq in Er.
        assert (H3 : ((F - 1) * 2 ^ 53 + 84) * n
                     = 2 ^ 53 * (n * F) - 2 ^ 53 * n + 84 * n) by ring.
        lia.
      - apply Z.eqb_neq in Er.
        assert (H3 : (F * 2 ^ 53 + 84) * n = 2 ^ 53 * (n * F) + 84 * n) by ring.
        lia. }
    pose proof (proj1 (quotient_sandwich k n c0 Hk53 Hn53 Hc0) Hkn) as Hd.
    fold d in Hd. rewrite <- ET in Hd.
    assert (Hpre : G * unit1 <= 85 * ulps d).
    { rewrite EU. transitivity (85 * (c0 * T)); [|lia].
      replace (G * (2 ^ 53 * T)) with ((G * 2 ^ 53) * T) by ring.
      replace (85 * (c0 * T)) with ((85 * c0) * T) by ring.
      apply Z.mul_le_mono_nonneg_r; lia. }
    pose proof (Plo G ltac:(lia) Hpre) as Hp.
    apply Z.div_le_lower_bound; lia. }
  unfold G in Hlow. destruct (r =? 0) eqn:Er.
  - apply Z.eqb_eq in Er. split; [lia|]. intros _. exact Er.
  - split; [lia|]. lia.
Qed.

(** X24.  For counts up to [2 ^ 40], the percentage computed in floating
    point is the exact one, ten plus the whole part of [85 * k / n], or one
    below it, and it is below it only when [85 * k / n] is a whole number:
    only then can the roundings of the quotient and of the product reach
    across a whole number. *)
Theorem percent_near_exact (k n : Z) :
  0 < k <= n -> n <= 2 ^ 40 ->
  exists p,
    percent k n = Ok p /\
    10 + 85 * k / n - 1 <= p <= 10 + 85 * k / n /\
    (p < 10 + 85 * k / n -> (85 * k) mod n = 0).
Proof.
  intros Hk Hn. pose proof (below_limit n Hn) as Hl.
  exists (10 + ulps (scaled k n) / unit1).
  split; [apply percent_value; lia|].
  destruct (scaled_near_exact k n Hk Hn) as [[H1 H2] H3].
  split; [lia|]. intros H. apply H3. lia.
Qed.

Lemma percent_near_exact_witness :
  exists p,
    percent 49 85 = Ok p /\
    10 + 85 * 49 / 85 - 1 <= p <= 10 + 85 * 49 / 85 /\
    (p < 10 + 85 * 49 / 85 -> (85 * 49) mod 85 = 0).
Proof.
  apply (percent_near_exact 49 85); [lia|]. vm_compute. discriminate.
Defined.

End Accuracy.

(** ** The plots of a group by day and by column *)

Module FileJobs.
Import PlotNAME PlotProps PlotStages Run Buckets.

(** A loop that renders one job for each element logs them in the order
    of the loop, up to the first render that raises. *)
Lemma columns_log {A} w (mk : A -> job) (cols : list A) :
  forall st r st',
    for_each cols (fun c => render w (mk c)) st = (r, st') ->
    exists ks,
      log st' = (log st ++ ((fun c => log_of w (mk c)) <$> ks))%list /\
      ks `prefix_of` cols /\
      (r = Ok tt -> ks = cols).
Proof.
  induction cols as [|c cols IH]; intros st r st' H.
  - injection H as <- <-. exists []. simpl. rewrite app_nil_r. auto.
  - simpl in H. unfold bind in H.
    destruct (render w (mk c) st) as [[[]|e] st1] eqn:Er;
      pose proof (render_log _ _ _ _ _ Er) as Hl.
    + destruct (IH _ _ _ H) as (ks & L & P & F).
      exists (c :: ks). rewrite L, Hl, <- app_assoc. simpl.
      split; [reflexivity|]. split; [now apply prefix_cons|].
      intros Hr. now rewrite F.
    + injection H as <- <-. exists [c]. rewrite Hl. simpl.
      split; [reflexivity|]. split; [|discriminate].
      apply prefix_cons, prefix_nil.
Qed.

(** X25.  Without a requested timestamp, the loop over the files of a
    group takes the entries that contain '_group' and end in '.txt', in
    the order of the listing.  In the mode 'day' it makes one plot for each
    of them; in the mode 'NA' it makes one plot for every column of each of
    them, in the order of the columns.  The log of the loop lists those
    plots in that order, up to the first whose progress computation
    raises, and all of them when the loop returns. *)
Theorem plot_files_jobs_in_order
    (w : world) (q : request) (d : nat) (entries : list string)
    (st st' : state) (r : result unit) :
  (plot_files w q "day" d entries st = (r, st') ->
   exists jobs,
     log st' = (log st ++ (log_of w <$> jobs))%list /\
     jobs `prefix_of`
       (JDay d <$> List.filter
                     (fun f => Str.contains "_group" f && Str.endswith ".txt" f)
                     entries) /\
     (r = Ok tt ->
      jobs = JDay d <$> List.filter
                          (fun f => Str.contains "_group" f
                                    && Str.endswith ".txt" f)
                          entries)) /\
  (timestamp q = None ->
   plot_files w q "NA" d entries st = (r, st') ->
   exists jobs,
     log st' = (log st ++ (log_of w <$> jobs))%list /\
     jobs `prefix_of`
       List.flat_map (fun f => JColumn d f <$> timestamps w f)
         (List.filter
            (fun f => Str.contains "_group" f && Str.endswith ".txt" f)
            entries) /\
     (r = Ok tt ->
      jobs = List.flat_map (fun f => JColumn d f <$> timestamps w f)
               (List.filter
                  (fun f => Str.contains "_group" f && Str.endswith ".txt" f)
                  entries))).
Proof.
  split.
  - revert st. induction entries as [|f entries IH]; intros st H.
    + injection H as <- <-. exists []. simpl. rewrite app_nil_r. auto.
    + cbn [plot_files List.filter] in H |- *.
      destruct (Str.contains "_group" f && Str.endswith ".txt" f);
        [|exact (IH _ H)].
      change (String.eqb "day" "day") with true in H. cbv iota in H.
      unfold bind in H.
      destruct (render w (JDay d f) st) as [[[]|e] st1] eqn:Er;
        pose proof (render_log _ _ _ _ _ Er) as Hl.
      * destruct (IH _ H) as (js & L & P & F).
        exists (JDay d f :: js). rewrite L, Hl, <- app_assoc. simpl.
        split; [reflexivity|]. split; [now apply prefix_cons|].
        intros Hr. now rewrite F.
      * injection H as <- <-. exists [JDay d f]. rewrite Hl. simpl.
        split; [reflexivity|]. split; [|discriminate].
        apply prefix_cons, prefix_nil.
  - intros Ht. revert st. induction entries as [|f entries IH]; intros st H.
    + injection H as <- <-. exists []. simpl. rewrite app_nil_r. auto.
    + cbn [plot_files List.filter] in H |- *.
      destruct (Str.contains "_group" f && Str.endswith ".txt" f);
        [|exact (IH _ H)].
      change (String.eqb "NA" "day") with false in H.
      change (String.eqb "NA" "NA") with true in H. cbv iota in H.
      rewrite Ht in H. unfold bind in H. cbn [List.flat_map].
      destruct (for_each (timestamps w f)
                  (fun column => render w (JColumn d f column)) st)
        as [[[]|e] st1] eqn:Ec;
        destruct (columns_log _ _ _ _ _ _ Ec) as (ks & Lc & Pc & Fc).
      * destruct (IH _ H) as (js & L & P & F).
        rewrite (Fc eq_refl) in Lc.
        exists ((JColumn d f <$> timestamps w f) ++ js)%list.
        rewrite L, Lc, <- app_assoc, fmap_app, <- list_fmap_compose.
        split; [reflexivity|]. split; [now apply prefix_app|].
        intros Hr. now rewrite F.
      * injection H as <- <-. exists (JColumn d f <$> ks).
        rewrite Lc, <- list_fmap_compose.
        split; [reflexivity|]. split; [|discriminate].
        apply prefix_app_r. destruct Pc as [rest ->].
        rewrite fmap_app. now exists (JColumn d f <$> rest).
Qed.

End FileJobs.

Section FileJobsInstances.
Import PlotNAME PlotProps PlotSamples PlotCases.

Lemma plot_files_jobs_in_order_witness :
  exists jobs,
    log (snd (plot_files (two_groups 2 None) whole_globe "NA" 0%nat
                ["TestRun1_group1_a.txt"; "notes.txt"] staged_weekly))
    = (log staged_weekly ++ (log_of (two_groups 2 None) <$> jobs))%list /\
    jobs `prefix_of`
      List.flat_map
        (fun f => JColumn 0%nat f <$> timestamps (two_groups 2 None) f)
        (List.filter
           (fun f => Str.contains "_group" f && Str.endswith ".txt" f)
           ["TestRun1_group1_a.txt"; "notes.txt"]) /\
    (fst (plot_files (two_groups 2 None) whole_globe "NA" 0%nat
            ["TestRun1_group1_a.txt"; "notes.txt"] staged_weekly) = Ok tt ->
     jobs = List.flat_map
              (fun f => JColumn 0%nat f <$> timestamps (two_groups 2 None) f)
              (List.filter
                 (fun f => Str.contains "_group" f && Str.endswith ".txt" f)
                 ["TestRun1_group1_a.txt"; "notes.txt"])).
Proof.
  apply (proj2 (FileJobs.plot_files_jobs_in_order
                  (two_groups 2 None) whole_globe 0%nat
                  ["TestRun1_group1_a.txt"; "notes.txt"] staged_weekly
                  (snd (plot_files (two_groups 2 None) whole_globe "NA" 0%nat
                          ["TestRun1_group1_a.txt"; "notes.txt"] staged_weekly))
                  (fst (plot_files (two_groups 2 None) whole_globe "NA" 0%nat
                          ["TestRun1_group1_a.txt"; "notes.txt"] staged_weekly)))).
  - reflexivity.
  - vm_compute. reflexivity.
Defined.

End FileJobsInstances.
